(** * Sentinel Vault: the zero-knowledge vault protocol, embedded in Rocq

    A shallow embedding of the client-side core of Sentinel Vault:
    - [lib/crypto.ts] (the second part of [src/lib/supabase.ts]): the base64
      helpers, [deriveKeys], [encrypt], [decrypt], [encryptVaultItem],
      [decryptVaultItem], [generatePassword], [estimatePasswordStrength];
    - [lib/supabase.ts]: [getProfile], [updateProfile], [getVaultItems],
      [updateVaultItem], [deleteVaultItem];
    - [store/vaultStore.ts]: the zustand session store and its actions;
    - [app/vault/page.tsx]: [handleUnlock], [handleLock], the idle timer,
      revealing and hiding a password, [handleToggleFavorite], the Delete
      button and the search filter;
    - [app/register/page.tsx]: [handleContinue] and the strength label.

    JavaScript strings are sequences of UTF-16 code units, a [Uint8Array] is a
    list of bytes, a [number] that only ever holds an integer is a [Z].
    Functions that are [async], draw randomness, read the clock, talk to the
    record store or mutate the session store run in a state-and-exception
    monad over a [World]; what the browser provides (Web Crypto, TextEncoder,
    JSON) is the interface [WebPlatform], and [btoa] and [atob] are written
    out. *)

From Stdlib Require Import String Ascii NArith ZArith Lia Bool List.
From Stdlib.Strings Require Import Byte.
Import ListNotations.

Set Implicit Arguments.
Local Open Scope N_scope.

(* ================================================================== *)
(** * JavaScript values *)
(* ================================================================== *)

(** A JavaScript string: its UTF-16 code units, [s.charCodeAt(i)]. *)
Definition jsstring := list N.

(** A [Uint8Array] / [ArrayBuffer]. *)
Definition bytes := list byte.

(** String literals of the source, written as Rocq strings. *)
Fixpoint js (s : string) : jsstring :=
  match s with
  | EmptyString => []
  | String c r => N_of_ascii c :: js r
  end.

(** [bytes[i] = n]: storing a number into a [Uint8Array] keeps it modulo 256. *)
Definition byte_of_N (n : N) : byte :=
  match Byte.of_N (n mod 256) with
  | Some b => b
  | None => x00
  end.

(** The exceptions the modelled code can raise or meet. *)
Inductive JSError : Type :=
| InvalidCharacterError      (* DOMException of [atob] and [btoa] *)
| OperationError             (* DOMException of [crypto.subtle.*] *)
| DataError                  (* [importKey] on a key of a wrong size *)
| InvalidAccessError         (* a key used with an algorithm it is not for *)
| QuotaExceededError         (* [getRandomValues] beyond 65536 bytes *)
| SyntaxError                (* [JSON.parse] *)
| PostgrestError             (* the [error] member of a record store answer *)
| NotAuthenticated           (* [new Error("Not authenticated")] *)
| AccountLocked (minutes : Z).
  (* [new Error(`Account locked. Try again in ${minutes} minutes.`)] *)

Inductive Result (A : Type) : Type :=
| Ok (a : A)
| Throw (e : JSError).
Arguments Ok {A} a.
Arguments Throw {A} e.

Definition is_ok {A} (r : Result A) : bool :=
  match r with Ok _ => true | Throw _ => false end.

(* ================================================================== *)
(** * [btoa] and [atob] (WHATWG forgiving-base64) *)
(* ================================================================== *)

Module Base64.

(** The character of a sextet, in the alphabet
    [A-Z a-z 0-9 + /]. *)
Definition char_of_sextet (s : N) : N :=
  if s <? 26 then 65 + s
  else if s <? 52 then 97 + (s - 26)
  else if s <? 62 then 48 + (s - 52)
  else if s =? 62 then 43
  else 47.

Definition sextet_of_char (c : N) : option N :=
  if (65 <=? c) && (c <=? 90) then Some (c - 65)
  else if (97 <=? c) && (c <=? 122) then Some (c - 97 + 26)
  else if (48 <=? c) && (c <=? 57) then Some (c - 48 + 52)
  else if c =? 43 then Some 62
  else if c =? 47 then Some 63
  else None.

Definition pad : N := 61. (* "=" *)

(** Three octets become four sextets; a tail of two octets becomes three
    sextets and one of one octet two sextets, the unused low bits zero. *)
Fixpoint sextets_of_octets (l : list N) : list N :=
  match l with
  | a :: b :: c :: r =>
      a / 4 :: (a mod 4) * 16 + b / 16 :: (b mod 16) * 4 + c / 64 :: c mod 64
        :: sextets_of_octets r
  | [a; b] => [a / 4; (a mod 4) * 16 + b / 16; (b mod 16) * 4]
  | [a] => [a / 4; (a mod 4) * 16]
  | [] => []
  end.

Definition padding (n : nat) : jsstring :=
  match Nat.modulo n 3 with
  | 1%nat => [pad; pad]
  | 2%nat => [pad]
  | _ => []
  end.

Definition encode (octets : list N) : jsstring :=
  map char_of_sextet (sextets_of_octets octets) ++ padding (length octets).

(** [btoa(binary)]: every code unit must be at most 0xFF. *)
Definition btoa (binary : jsstring) : Result jsstring :=
  if forallb (fun c => c <=? 255) binary then Ok (encode binary)
  else Throw InvalidCharacterError.

(** ASCII whitespace: TAB, LF, FF, CR, SPACE. *)
Definition is_ascii_whitespace (c : N) : bool :=
  (c =? 9) || (c =? 10) || (c =? 12) || (c =? 13) || (c =? 32).

(** "If data ends with one or two U+003D (=), remove them." *)
Definition strip_padding (data : jsstring) : jsstring :=
  match rev data with
  | c1 :: r1 =>
      if c1 =? pad then
        match r1 with
        | c2 :: r2 => if c2 =? pad then rev r2 else rev r1
        | [] => rev r1
        end
      else data
  | [] => data
  end.

Fixpoint sextets_of_chars (data : jsstring) : option (list N) :=
  match data with
  | [] => Some []
  | c :: r =>
      match sextet_of_char c, sextets_of_chars r with
      | Some s, Some l => Some (s :: l)
      | _, _ => None
      end
  end.

(** Four sextets give three octets; a tail of three sextets gives two
    octets (its last two bits are discarded) and a tail of two sextets one
    octet (its last four bits are discarded). *)
Fixpoint octets_of_sextets (l : list N) : list N :=
  match l with
  | s0 :: s1 :: s2 :: s3 :: r =>
      s0 * 4 + s1 / 16 :: (s1 mod 16) * 16 + s2 / 4 :: (s2 mod 4) * 64 + s3
        :: octets_of_sextets r
  | [s0; s1; s2] => [s0 * 4 + s1 / 16; (s1 mod 16) * 16 + s2 / 4]
  | [s0; s1] => [s0 * 4 + s1 / 16]
  | _ => []
  end.

(** [atob(data)]: the binary string, each code unit below 256. *)
Definition atob (data : jsstring) : Result jsstring :=
  let data := filter (fun c => negb (is_ascii_whitespace c)) data in
  let data :=
    if Nat.eqb (Nat.modulo (length data) 4) 0 then strip_padding data
    else data in
  if Nat.eqb (Nat.modulo (length data) 4) 1 then Throw InvalidCharacterError
  else
    match sextets_of_chars data with
    | None => Throw InvalidCharacterError
    | Some l => Ok (octets_of_sextets l)
    end.

End Base64.

(** [bufferToBase64(buffer)]: build the binary string with
    [String.fromCharCode(bytes[i])], then [btoa]. *)
Definition bufferToBase64 (buffer : bytes) : Result jsstring :=
  let binary := fold_left (fun binary b => binary ++ [Byte.to_N b]) buffer [] in
  Base64.btoa binary.

(** [base64ToBuffer(base64)]: [atob], then [bytes[i] = binary.charCodeAt(i)]. *)
Definition base64ToBuffer (base64 : jsstring) : Result bytes :=
  match Base64.atob base64 with
  | Throw e => Throw e
  | Ok binary => Ok (map byte_of_N binary)
  end.

(* ================================================================== *)
(** * [estimatePasswordStrength] *)
(* ================================================================== *)

Definition in_range (lo hi c : N) : bool := (lo <=? c) && (c <=? hi).

(** [/[a-z]/.test(s)], [/[A-Z]/.test(s)], [/[0-9]/.test(s)],
    [/[^a-zA-Z0-9]/.test(s)]: some code unit of [s] is in the class. *)
Definition is_lower (c : N) : bool := in_range 97 122 c.
Definition is_upper (c : N) : bool := in_range 65 90 c.
Definition is_digit (c : N) : bool := in_range 48 57 c.
Definition is_symbol (c : N) : bool :=
  negb (is_lower c || is_upper c || is_digit c).

Definition test_lower (s : jsstring) : bool := existsb is_lower s.
Definition test_upper (s : jsstring) : bool := existsb is_upper s.
Definition test_digit (s : jsstring) : bool := existsb is_digit s.
Definition test_symbol (s : jsstring) : bool := existsb is_symbol s.

Definition str_length (s : jsstring) : Z := Z.of_nat (length s).

Definition estimatePasswordStrength (password : jsstring) : Z :=
  let score := 0%Z in
  (* Length scoring *)
  let score := if (8 <=? str_length password)%Z then (score + 10)%Z else score in
  let score := if (12 <=? str_length password)%Z then (score + 10)%Z else score in
  let score := if (16 <=? str_length password)%Z then (score + 10)%Z else score in
  let score := if (20 <=? str_length password)%Z then (score + 10)%Z else score in
  (* Character variety scoring *)
  let score := if test_lower password then (score + 10)%Z else score in
  let score := if test_upper password then (score + 10)%Z else score in
  let score := if test_digit password then (score + 10)%Z else score in
  let score := if test_symbol password then (score + 20)%Z else score in
  (* Entropy bonus *)
  let score :=
    if (16 <=? str_length password)%Z && test_lower password
       && test_upper password && test_digit password && test_symbol password
    then (score + 20)%Z else score in
  Z.min score 100.

(* ================================================================== *)
(** * Data model *)
(* ================================================================== *)

(** [interface VaultItemPayload]: what is sealed for one item. *)
Module Payload.
Record t : Type := make {
  username : jsstring;
  password : jsstring;
  url : option jsstring;
  notes : option jsstring
}.
End Payload.

(** A [CryptoKey] handle: its algorithm and the raw key it was imported
    from.  Keys that [deriveKeys] imports carry the usages they are used
    with, so usages are not tracked. *)
Inductive KeyAlgorithm : Type := PBKDF2 | AES_GCM.

Record CryptoKey : Type := mkCryptoKey {
  key_algorithm : KeyAlgorithm;
  key_raw : bytes
}.

(** Rows of the record store, [Database["public"]["Tables"]]. *)
Module Profile.
Record Row : Type := make {
  id : jsstring;
  email : jsstring;
  kdf_salt : jsstring;
  verifier_hash : jsstring;
  failed_unlock_attempts : Z;
  (* a timestamp, as the instant [new Date(...)] reads from it, or null *)
  failed_unlock_locked_until : option Z;
  auto_lock_minutes : Z;
  clear_clipboard_seconds : Z;
  created_at : jsstring;
  last_login : option jsstring
}.

(** [Partial<Insert>]: the columns an update may carry. *)
Record Update : Type := makeUpdate {
  u_id : option jsstring;
  u_email : option jsstring;
  u_kdf_salt : option jsstring;
  u_verifier_hash : option jsstring;
  u_auto_lock_minutes : option Z;
  u_clear_clipboard_seconds : option Z
}.

Definition or_else {A} (o : option A) (a : A) : A :=
  match o with Some x => x | None => a end.

Definition apply (u : Update) (r : Row) : Row :=
  {| id := or_else (u_id u) (id r);
     email := or_else (u_email u) (email r);
     kdf_salt := or_else (u_kdf_salt u) (kdf_salt r);
     verifier_hash := or_else (u_verifier_hash u) (verifier_hash r);
     failed_unlock_attempts := failed_unlock_attempts r;
     failed_unlock_locked_until := failed_unlock_locked_until r;
     auto_lock_minutes := or_else (u_auto_lock_minutes u) (auto_lock_minutes r);
     clear_clipboard_seconds :=
       or_else (u_clear_clipboard_seconds u) (clear_clipboard_seconds r);
     created_at := created_at r;
     last_login := last_login r |}.
End Profile.

Module ItemRow.
Record Row : Type := make {
  id : jsstring;
  user_id : jsstring;
  title : jsstring;
  ciphertext : jsstring;
  iv : jsstring;
  auth_tag : jsstring;
  category_id : option jsstring;
  is_favorite : bool;
  version : Z;
  last_accessed : jsstring;
  last_modified : jsstring;
  created_at : jsstring
}.
End ItemRow.

(** [interface Category] and [interface DecryptedVaultItem] of the store. *)
Module Category.
Record t : Type := make {
  id : jsstring;
  name : jsstring;
  icon : jsstring;
  color : jsstring;
  sort_order : Z
}.
End Category.

Module Item.
Record t : Type := make {
  id : jsstring;
  title : jsstring;
  ciphertext : jsstring;
  iv : jsstring;
  auth_tag : jsstring;
  category_id : option jsstring;
  is_favorite : bool;
  last_accessed : jsstring;
  last_modified : jsstring;
  created_at : jsstring;
  username : jsstring;
  password : jsstring;
  url : option jsstring;
  notes : option jsstring
}.

(** [Partial<DecryptedVaultItem>]: per field, absent or the new value. *)
Record Partial : Type := makePartial {
  p_id : option jsstring;
  p_title : option jsstring;
  p_ciphertext : option jsstring;
  p_iv : option jsstring;
  p_auth_tag : option jsstring;
  p_category_id : option (option jsstring);
  p_is_favorite : option bool;
  p_last_accessed : option jsstring;
  p_last_modified : option jsstring;
  p_created_at : option jsstring;
  p_username : option jsstring;
  p_password : option jsstring;
  p_url : option (option jsstring);
  p_notes : option (option jsstring)
}.

Definition or_else {A} (o : option A) (a : A) : A :=
  match o with Some x => x | None => a end.

(** [{ ...item, ...updates }] *)
Definition spread (item : t) (updates : Partial) : t :=
  {| id := or_else (p_id updates) (id item);
     title := or_else (p_title updates) (title item);
     ciphertext := or_else (p_ciphertext updates) (ciphertext item);
     iv := or_else (p_iv updates) (iv item);
     auth_tag := or_else (p_auth_tag updates) (auth_tag item);
     category_id := or_else (p_category_id updates) (category_id item);
     is_favorite := or_else (p_is_favorite updates) (is_favorite item);
     last_accessed := or_else (p_last_accessed updates) (last_accessed item);
     last_modified := or_else (p_last_modified updates) (last_modified item);
     created_at := or_else (p_created_at updates) (created_at item);
     username := or_else (p_username updates) (username item);
     password := or_else (p_password updates) (password item);
     url := or_else (p_url updates) (url item);
     notes := or_else (p_notes updates) (notes item) |}.

(** [{ ...item, username: payload.username, ... }] in [handleUnlock];
    the row's [user_id] and [version] ride along at run time but are not
    part of the store's item type. *)
Definition of_row (item : ItemRow.Row) (payload : Payload.t) : t :=
  {| id := ItemRow.id item;
     title := ItemRow.title item;
     ciphertext := ItemRow.ciphertext item;
     iv := ItemRow.iv item;
     auth_tag := ItemRow.auth_tag item;
     category_id := ItemRow.category_id item;
     is_favorite := ItemRow.is_favorite item;
     last_accessed := ItemRow.last_accessed item;
     last_modified := ItemRow.last_modified item;
     created_at := ItemRow.created_at item;
     username := Payload.username payload;
     password := Payload.password payload;
     url := Payload.url payload;
     notes := Payload.notes payload |}.
End Item.

Fixpoint jsstring_eqb (a b : jsstring) : bool :=
  match a, b with
  | [], [] => true
  | x :: a', y :: b' => (x =? y) && jsstring_eqb a' b'
  | _, _ => false
  end.

(* ================================================================== *)
(** * The session store, [useVaultStore] *)
(* ================================================================== *)

Module Store.

Record VaultState : Type := make {
  (* Authentication state *)
  isAuthenticated : bool;
  userId : option jsstring;
  email : option jsstring;
  (* Encryption state *)
  encryptionKey : option CryptoKey;
  salt : option jsstring;
  isUnlocked : bool;
  (* Vault data *)
  items : list Item.t;
  categories : list Category.t;
  (* UI state *)
  isLoading : bool;
  error : option jsstring;
  (* User preferences *)
  autoLockMinutes : Z;
  clearClipboardSeconds : Z
}.

Definition initial : VaultState :=
  {| isAuthenticated := false; userId := None; email := None;
     encryptionKey := None; salt := None; isUnlocked := false;
     items := []; categories := [];
     isLoading := false; error := None;
     autoLockMinutes := 5; clearClipboardSeconds := 30 |}.

(** Each action is [set(partial)]: the named fields are replaced, the others
    are kept. *)
Definition setAuthenticated (userId' email' : jsstring) (s : VaultState) :=
  {| isAuthenticated := true; userId := Some userId'; email := Some email';
     encryptionKey := encryptionKey s; salt := salt s;
     isUnlocked := isUnlocked s;
     items := items s; categories := categories s;
     isLoading := isLoading s; error := error s;
     autoLockMinutes := autoLockMinutes s;
     clearClipboardSeconds := clearClipboardSeconds s |}.

Definition setUnlocked (key : CryptoKey) (salt' : jsstring) (s : VaultState) :=
  {| isAuthenticated := isAuthenticated s; userId := userId s;
     email := email s;
     encryptionKey := Some key; salt := Some salt'; isUnlocked := true;
     items := items s; categories := categories s;
     isLoading := isLoading s; error := error s;
     autoLockMinutes := autoLockMinutes s;
     clearClipboardSeconds := clearClipboardSeconds s |}.

Definition set_items_categories
    (items' : list Item.t) (categories' : list Category.t) (s : VaultState) :=
  {| isAuthenticated := isAuthenticated s; userId := userId s;
     email := email s;
     encryptionKey := encryptionKey s; salt := salt s;
     isUnlocked := isUnlocked s;
     items := items'; categories := categories';
     isLoading := isLoading s; error := error s;
     autoLockMinutes := autoLockMinutes s;
     clearClipboardSeconds := clearClipboardSeconds s |}.

Definition setVaultData (items' : list Item.t) (categories' : list Category.t)
    (s : VaultState) :=
  set_items_categories items' categories' s.

Definition addItem (item : Item.t) (s : VaultState) :=
  set_items_categories (item :: items s) (categories s) s.

Definition updateItem (id : jsstring) (updates : Item.Partial)
    (s : VaultState) :=
  set_items_categories
    (map (fun item =>
            if jsstring_eqb (Item.id item) id then Item.spread item updates
            else item)
         (items s))
    (categories s) s.

Definition removeItem (id : jsstring) (s : VaultState) :=
  set_items_categories
    (filter (fun item => negb (jsstring_eqb (Item.id item) id)) (items s))
    (categories s) s.

Definition setPreferences (autoLockMinutes' clearClipboardSeconds' : Z)
    (s : VaultState) :=
  {| isAuthenticated := isAuthenticated s; userId := userId s;
     email := email s;
     encryptionKey := encryptionKey s; salt := salt s;
     isUnlocked := isUnlocked s;
     items := items s; categories := categories s;
     isLoading := isLoading s; error := error s;
     autoLockMinutes := autoLockMinutes';
     clearClipboardSeconds := clearClipboardSeconds' |}.

Definition setLoading (isLoading' : bool) (s : VaultState) :=
  {| isAuthenticated := isAuthenticated s; userId := userId s;
     email := email s;
     encryptionKey := encryptionKey s; salt := salt s;
     isUnlocked := isUnlocked s;
     items := items s; categories := categories s;
     isLoading := isLoading'; error := error s;
     autoLockMinutes := autoLockMinutes s;
     clearClipboardSeconds := clearClipboardSeconds s |}.

Definition setError (error' : option jsstring) (s : VaultState) :=
  {| isAuthenticated := isAuthenticated s; userId := userId s;
     email := email s;
     encryptionKey := encryptionKey s; salt := salt s;
     isUnlocked := isUnlocked s;
     items := items s; categories := categories s;
     isLoading := isLoading s; error := error';
     autoLockMinutes := autoLockMinutes s;
     clearClipboardSeconds := clearClipboardSeconds s |}.

Definition lockVault (s : VaultState) :=
  {| isAuthenticated := isAuthenticated s; userId := userId s;
     email := email s;
     encryptionKey := None; salt := None; isUnlocked := false;
     items := []; categories := categories s;
     isLoading := isLoading s; error := error s;
     autoLockMinutes := autoLockMinutes s;
     clearClipboardSeconds := clearClipboardSeconds s |}.

Definition logout (s : VaultState) :=
  {| isAuthenticated := false; userId := None; email := None;
     encryptionKey := None; salt := None; isUnlocked := false;
     items := []; categories := [];
     isLoading := isLoading s; error := error s;
     autoLockMinutes := autoLockMinutes s;
     clearClipboardSeconds := clearClipboardSeconds s |}.

(** The actions, as a caller can invoke them. *)
Inductive Action : Type :=
| SetAuthenticated (userId email : jsstring)
| SetUnlocked (key : CryptoKey) (salt : jsstring)
| SetVaultData (items : list Item.t) (categories : list Category.t)
| AddItem (item : Item.t)
| UpdateItem (id : jsstring) (updates : Item.Partial)
| RemoveItem (id : jsstring)
| SetPreferences (autoLockMinutes clearClipboardSeconds : Z)
| SetLoading (loading : bool)
| SetError (error : option jsstring)
| LockVault
| Logout.

Definition dispatch (a : Action) : VaultState -> VaultState :=
  match a with
  | SetAuthenticated u e => setAuthenticated u e
  | SetUnlocked k s => setUnlocked k s
  | SetVaultData i c => setVaultData i c
  | AddItem i => addItem i
  | UpdateItem i u => updateItem i u
  | RemoveItem i => removeItem i
  | SetPreferences a c => setPreferences a c
  | SetLoading l => setLoading l
  | SetError e => setError e
  | LockVault => lockVault
  | Logout => logout
  end.

(** The state after a sequence of actions, oldest first. *)
Definition run (actions : list Action) (s : VaultState) : VaultState :=
  fold_left (fun s a => dispatch a s) actions s.

Inductive reachable : VaultState -> Prop :=
| reach_initial : reachable initial
| reach_step : forall s a, reachable s -> reachable (dispatch a s).

End Store.

(* ================================================================== *)
(** * The world the code runs in *)
(* ================================================================== *)

(** Local state of the vault page component ([useState]). *)
Module Page.
Record t : Type := make {
  showPassword : jsstring;       (* the master password field *)
  loading : bool;
  error : option JSError         (* the error whose message is shown *)
}.
End Page.

Record World : Type := mkWorld {
  (* the system random source: the values successive array elements get *)
  entropy : nat -> N;
  drawn : nat;
  (* [Date.now()], milliseconds; one handler runs within one reading *)
  clock : Z;
  (* the record store: which of its requests it answers with an error, how
     many requests it has had, and its tables *)
  store_fault : nat -> bool;
  requests : nat;
  profiles : list Profile.Row;
  vault_items : list ItemRow.Row;
  (* the session store and the page *)
  vault : Store.VaultState;
  page : Page.t;
  (* items reported by [console.error("Failed to decrypt item:", id)] *)
  console : list jsstring
}.

Definition with_drawn (n : nat) (w : World) : World :=
  mkWorld (entropy w) n (clock w) (store_fault w) (requests w) (profiles w)
    (vault_items w) (vault w) (page w) (console w).

Definition with_requests (n : nat) (w : World) : World :=
  mkWorld (entropy w) (drawn w) (clock w) (store_fault w) n (profiles w)
    (vault_items w) (vault w) (page w) (console w).

Definition with_profiles (p : list Profile.Row) (w : World) : World :=
  mkWorld (entropy w) (drawn w) (clock w) (store_fault w) (requests w) p
    (vault_items w) (vault w) (page w) (console w).

Definition with_vault (v : Store.VaultState) (w : World) : World :=
  mkWorld (entropy w) (drawn w) (clock w) (store_fault w) (requests w)
    (profiles w) (vault_items w) v (page w) (console w).

Definition with_page (p : Page.t) (w : World) : World :=
  mkWorld (entropy w) (drawn w) (clock w) (store_fault w) (requests w)
    (profiles w) (vault_items w) (vault w) p (console w).

Definition with_console (c : list jsstring) (w : World) : World :=
  mkWorld (entropy w) (drawn w) (clock w) (store_fault w) (requests w)
    (profiles w) (vault_items w) (vault w) (page w) c.

(** Computations: a result or an exception, and the world left behind.
    Effects made before an exception stay. *)
Definition M (A : Type) : Type := World -> Result A * World.

Definition ret {A} (a : A) : M A := fun w => (Ok a, w).

Definition throw {A} (e : JSError) : M A := fun w => (Throw e, w).

Definition bind {A B} (m : M A) (k : A -> M B) : M B :=
  fun w =>
    match m w with
    | (Ok a, w') => k a w'
    | (Throw e, w') => (Throw e, w')
    end.

Definition lift {A} (r : Result A) : M A := fun w => (r, w).

Definition try_catch {A} (m : M A) (handler : JSError -> M A) : M A :=
  fun w =>
    match m w with
    | (Ok a, w') => (Ok a, w')
    | (Throw e, w') => handler e w'
    end.

Definition get_world : M World := fun w => (Ok w, w).

Definition modify (f : World -> World) : M unit := fun w => (Ok tt, f w).

Declare Scope monad_scope.
Delimit Scope monad_scope with monad.
Notation "x <- m ;; k" := (bind m (fun x => k))
  (at level 61, m at next level, right associativity) : monad_scope.
Notation "m ;;; k" := (bind m (fun _ => k))
  (at level 61, right associativity) : monad_scope.
Local Open Scope monad_scope.

(** The next [n] bytes of the random source. *)
Definition random_bytes (w : World) (n : nat) : bytes :=
  map (fun i => byte_of_N (entropy w (drawn w + i)%nat)) (seq 0 n).

(** [crypto.getRandomValues(new Uint8Array(n))] *)
Definition getRandomValues_Uint8 (n : nat) : M bytes :=
  fun w =>
    if 65536 <? N.of_nat n then (Throw QuotaExceededError, w)
    else (Ok (random_bytes w n), with_drawn (drawn w + n) w).

(** [crypto.getRandomValues(new Uint32Array(n))] *)
Definition getRandomValues_Uint32 (n : nat) : M (list N) :=
  fun w =>
    if 65536 <? 4 * N.of_nat n then (Throw QuotaExceededError, w)
    else (Ok (map (fun i => entropy w (drawn w + i)%nat mod 2 ^ 32) (seq 0 n)),
          with_drawn (drawn w + n) w).

(** [Date.now()] *)
Definition Date_now : M Z := fun w => (Ok (clock w), w).

(* ================================================================== *)
(** * What the browser provides *)
(* ================================================================== *)

Class WebPlatform : Type := {
  (** [new TextEncoder().encode(s)] and [new TextDecoder().decode(b)] *)
  TextEncoder_encode : jsstring -> bytes;
  TextDecoder_decode : bytes -> jsstring;
  (** [JSON.stringify(payload)]; [JSON.parse(text)], [None] for a
      [SyntaxError] *)
  JSON_stringify : Payload.t -> jsstring;
  JSON_parse : jsstring -> option Payload.t;
  (** PBKDF2-HMAC-SHA-256: password, salt, iterations, output length in
      bytes *)
  PBKDF2_HMAC_SHA256 : bytes -> bytes -> N -> nat -> bytes;
  (** SHA-256 *)
  SHA256 : bytes -> bytes;
  (** AES-GCM with a 128-bit tag appended to the ciphertext: raw key, iv,
      data; [None] for an [OperationError] *)
  AES_GCM_encrypt : bytes -> bytes -> bytes -> option bytes;
  AES_GCM_decrypt : bytes -> bytes -> bytes -> option bytes
}.

(** No unpaired surrogate, every code unit below 2^16. *)
Fixpoint well_formed (s : jsstring) : bool :=
  match s with
  | [] => true
  | c :: r =>
      if in_range 55296 56319 c then
        match r with
        | d :: r' => in_range 56320 57343 d && well_formed r'
        | [] => false
        end
      else negb (in_range 56320 57343 c) && (c <? 65536) && well_formed r
  end.

(** A text that comes back unchanged through [TextEncoder] and
    [TextDecoder]: well formed, and not led by a byte order mark, which the
    decoder drops. *)
Definition has_bom (s : jsstring) : bool :=
  match s with
  | c :: _ => c =? 65279
  | [] => false
  end.

Definition utf8_faithful (s : jsstring) : bool :=
  well_formed s && negb (has_bom s).

(** What key derivation relies on from the platform: [deriveBits] gives as
    many bytes as asked. *)
Class DerivationLaws (W : WebPlatform) : Prop := {
  pbkdf2_length :
    forall pw salt c n, length (PBKDF2_HMAC_SHA256 pw salt c n) = n
}.

(** What sealing relies on from the platform. *)
Class SealingLaws (W : WebPlatform) : Prop := {
  (** decoding the UTF-8 encoding of a faithful text gives it back *)
  utf8_decode_encode :
    forall s, utf8_faithful s = true ->
              TextDecoder_decode (TextEncoder_encode s) = s;
  (** [JSON.stringify] gives faithful text that [JSON.parse] reads back *)
  json_faithful : forall p, utf8_faithful (JSON_stringify p) = true;
  json_parse_stringify : forall p, JSON_parse (JSON_stringify p) = Some p;
  (** AES-GCM seals under a 96-bit nonce and opens what it sealed *)
  gcm_encrypt_defined :
    forall k iv m, length iv = 12%nat -> AES_GCM_encrypt k iv m <> None;
  gcm_decrypt_encrypt :
    forall k iv m c, AES_GCM_encrypt k iv m = Some c ->
                     AES_GCM_decrypt k iv c = Some m
}.

(** AES-GCM seals differently under different 96-bit nonces: the tag masks
    differ, the block cipher being a permutation. *)
Class NonceLaws (W : WebPlatform) : Prop := {
  gcm_nonce_sensitive :
    forall k iv iv' m, length iv = 12%nat -> length iv' = 12%nat ->
                       iv <> iv' ->
                       AES_GCM_encrypt k iv m <> AES_GCM_encrypt k iv' m
}.

(* ================================================================== *)
(** * [lib/crypto.ts] *)
(* ================================================================== *)

Definition PBKDF2_ITERATIONS : N := 600000.
Definition SALT_LENGTH : nat := 16.
Definition IV_LENGTH : nat := 12.
Definition KEY_LENGTH : N := 256.

(** [typedArray.slice(start, end)] for [0 <= start <= end]. *)
Definition slice {A} (l : list A) (start stop : nat) : list A :=
  firstn (stop - start) (skipn start l).

Module DerivedKeys.
Record t : Type := make {
  encryptionKey : CryptoKey;
  verificationKey : jsstring
}.
End DerivedKeys.

Module Sealed.
Record t : Type := make {
  ciphertext : jsstring;
  iv : jsstring
}.
End Sealed.

Module PasswordOptions.
Record t : Type := make {
  length : nat;
  includeUppercase : bool;
  includeLowercase : bool;
  includeNumbers : bool;
  includeSymbols : bool
}.
End PasswordOptions.

Section Crypto.

Context {W : WebPlatform}.

(** ** [crypto.subtle] *)

(** [importKey("raw", keyData, { name }, false, usages)] *)
Definition subtle_importKey (keyData : bytes) (name : KeyAlgorithm)
  : Result CryptoKey :=
  match name with
  | PBKDF2 => Ok (mkCryptoKey PBKDF2 keyData)
  | AES_GCM =>
      let n := length keyData in
      if Nat.eqb n 16 || Nat.eqb n 24 || Nat.eqb n 32
      then Ok (mkCryptoKey AES_GCM keyData)
      else Throw DataError
  end.

(** [deriveBits({ name: "PBKDF2", salt, iterations, hash: "SHA-256" },
    baseKey, length)] *)
Definition subtle_deriveBits (salt : bytes) (iterations : N)
    (baseKey : CryptoKey) (length : N) : Result bytes :=
  match key_algorithm baseKey with
  | PBKDF2 =>
      if (length =? 0) || negb (length mod 8 =? 0) || (iterations =? 0)
      then Throw OperationError
      else Ok (PBKDF2_HMAC_SHA256 (key_raw baseKey) salt iterations
                 (N.to_nat (length / 8)))
  | AES_GCM => Throw InvalidAccessError
  end.

(** [digest("SHA-256", data)] *)
Definition subtle_digest (data : bytes) : Result bytes := Ok (SHA256 data).

(** [encrypt({ name: "AES-GCM", iv }, key, data)] *)
Definition subtle_encrypt (iv : bytes) (key : CryptoKey) (data : bytes)
  : Result bytes :=
  match key_algorithm key with
  | AES_GCM =>
      match AES_GCM_encrypt (key_raw key) iv data with
      | Some c => Ok c
      | None => Throw OperationError
      end
  | PBKDF2 => Throw InvalidAccessError
  end.

(** [decrypt({ name: "AES-GCM", iv }, key, data)] *)
Definition subtle_decrypt (iv : bytes) (key : CryptoKey) (data : bytes)
  : Result bytes :=
  match key_algorithm key with
  | AES_GCM =>
      match AES_GCM_decrypt (key_raw key) iv data with
      | Some m => Ok m
      | None => Throw OperationError
      end
  | PBKDF2 => Throw InvalidAccessError
  end.

(** ** The exported functions *)

Definition generateSalt : M jsstring :=
  salt <- getRandomValues_Uint8 SALT_LENGTH ;;
  lift (bufferToBase64 salt).

Definition generateIV : M jsstring :=
  iv <- getRandomValues_Uint8 IV_LENGTH ;;
  lift (bufferToBase64 iv).

Definition deriveKeys (password saltBase64 : jsstring) : M DerivedKeys.t :=
  passwordKey <- lift (subtle_importKey (TextEncoder_encode password) PBKDF2) ;;
  salt <- lift (base64ToBuffer saltBase64) ;;
  (* Derive the master key material (64 bytes = 512 bits) *)
  keyMaterialBuffer <-
    lift (subtle_deriveBits salt PBKDF2_ITERATIONS passwordKey 512) ;;
  let keyBytes := keyMaterialBuffer in
  (* Split into two 32-byte keys *)
  let encryptionKeyBytes := slice keyBytes 0 32 in
  let verificationKeyBytes := slice keyBytes 32 64 in
  (* Create the AES-GCM encryption key *)
  encryptionKey <- lift (subtle_importKey encryptionKeyBytes AES_GCM) ;;
  (* Hash the verification key for storage *)
  verificationHashBuffer <- lift (subtle_digest verificationKeyBytes) ;;
  verificationKey <- lift (bufferToBase64 verificationHashBuffer) ;;
  ret (DerivedKeys.make encryptionKey verificationKey).

Definition deriveEncryptionKey (password saltBase64 : jsstring)
  : M CryptoKey :=
  keys <- deriveKeys password saltBase64 ;;
  ret (DerivedKeys.encryptionKey keys).

(** [ivBase64 ? base64ToBuffer(ivBase64) : crypto.getRandomValues(...)]:
    an absent or empty [ivBase64] is falsy. *)
Definition encrypt (plaintext : jsstring) (key : CryptoKey)
    (ivBase64 : option jsstring) : M Sealed.t :=
  iv <- match ivBase64 with
        | Some (c :: r) => lift (base64ToBuffer (c :: r))
        | _ => getRandomValues_Uint8 IV_LENGTH
        end ;;
  let encodedData := TextEncoder_encode plaintext in
  encryptedBuffer <- lift (subtle_encrypt iv key encodedData) ;;
  ciphertext <- lift (bufferToBase64 encryptedBuffer) ;;
  iv64 <- lift (bufferToBase64 iv) ;;
  ret (Sealed.make ciphertext iv64).

Definition decrypt (ciphertextBase64 ivBase64 : jsstring) (key : CryptoKey)
  : M jsstring :=
  ciphertext <- lift (base64ToBuffer ciphertextBase64) ;;
  iv <- lift (base64ToBuffer ivBase64) ;;
  decryptedBuffer <- lift (subtle_decrypt iv key ciphertext) ;;
  ret (TextDecoder_decode decryptedBuffer).

Definition encryptVaultItem (payload : Payload.t) (key : CryptoKey)
  : M Sealed.t :=
  encrypt (JSON_stringify payload) key None.

Definition decryptVaultItem (ciphertextBase64 ivBase64 : jsstring)
    (key : CryptoKey) : M Payload.t :=
  decrypted <- decrypt ciphertextBase64 ivBase64 key ;;
  match JSON_parse decrypted with
  | Some payload => ret payload
  | None => throw SyntaxError
  end.

Definition uppercase : jsstring := js "ABCDEFGHIJKLMNOPQRSTUVWXYZ".
Definition lowercase : jsstring := js "abcdefghijklmnopqrstuvwxyz".
Definition numbers : jsstring := js "0123456789".
Definition symbols : jsstring := js "!@#$%^&*()_+-=[]{}|;:,.<>?".

(** [charset[i]]; appending [undefined] to a string appends its name. *)
Definition char_at (charset : jsstring) (i : N) : jsstring :=
  match nth_error charset (N.to_nat i) with
  | Some c => [c]
  | None => js "undefined"
  end.

Definition generatePassword (options : PasswordOptions.t) : M jsstring :=
  let charset := [] in
  (* Build charset based on options *)
  let charset := if PasswordOptions.includeUppercase options
                 then charset ++ uppercase else charset in
  let charset := if PasswordOptions.includeLowercase options
                 then charset ++ lowercase else charset in
  let charset := if PasswordOptions.includeNumbers options
                 then charset ++ numbers else charset in
  let charset := if PasswordOptions.includeSymbols options
                 then charset ++ symbols else charset in
  let charset := match charset with
                 | [] => lowercase ++ numbers
                 | _ => charset
                 end in
  (* Generate password using crypto.getRandomValues *)
  randomValues <- getRandomValues_Uint32 (PasswordOptions.length options) ;;
  ret (fold_left
         (fun result v =>
            result ++ char_at charset (v mod N.of_nat (length charset)))
         randomValues []).

End Crypto.

(* ================================================================== *)
(** * [lib/supabase.ts]: the record store *)
(* ================================================================== *)

(** One request to the record store: it is counted, and it is answered with
    an [error] when the store fails on it ([if (error) throw error]). *)
Definition request : M unit :=
  fun w =>
    (if store_fault w (requests w) then Throw PostgrestError else Ok tt,
     with_requests (S (requests w)) w).

(** [from("profiles").select("*").eq("id", userId).single()]:
    an error unless exactly one row matches. *)
Definition getProfile (userId : jsstring) : M Profile.Row :=
  request ;;;
  fun w =>
    match filter (fun r => jsstring_eqb (Profile.id r) userId) (profiles w) with
    | [data] => (Ok data, w)
    | _ => (Throw PostgrestError, w)
    end.

(** [from("profiles").update(updates).eq("id", userId)] *)
Definition updateProfile (userId : jsstring) (updates : Profile.Update)
  : M unit :=
  request ;;;
  fun w =>
    (Ok tt,
     with_profiles
       (map (fun r => if jsstring_eqb (Profile.id r) userId
                      then Profile.apply updates r else r)
            (profiles w))
       w).

(** [from("vault_items").select("*").eq("user_id", userId).order("created_at",
    { ascending: false })]; the table is kept in that order. *)
Definition getVaultItems (userId : jsstring) : M (list ItemRow.Row) :=
  request ;;;
  fun w =>
    (Ok (filter (fun r => jsstring_eqb (ItemRow.user_id r) userId)
           (vault_items w)),
     w).

(* ================================================================== *)
(** * [app/vault/page.tsx]: [handleUnlock] and [handleLock] *)
(* ================================================================== *)

(** [Math.ceil(a / b)] for a positive [b]. *)
Definition ceil_div (a b : Z) : Z := (- ((- a) / b))%Z.

Definition in_vault (f : Store.VaultState -> Store.VaultState) : M unit :=
  modify (fun w => with_vault (f (vault w)) w).

Definition setLoading (b : bool) : M unit :=
  modify (fun w =>
            with_page (Page.make (Page.showPassword (page w)) b
                         (Page.error (page w))) w).

Definition setError (e : option JSError) : M unit :=
  modify (fun w =>
            with_page (Page.make (Page.showPassword (page w))
                         (Page.loading (page w)) e) w).

Definition setShowPassword (s : jsstring) : M unit :=
  modify (fun w =>
            with_page (Page.make s (Page.loading (page w))
                         (Page.error (page w))) w).

Definition console_error (id : jsstring) : M unit :=
  modify (fun w => with_console (console w ++ [id]) w).

Section VaultPage.

Context {W : WebPlatform}.

(** The loop [for (const item of vaultItems) { try { ... push ... }
    catch { console.error(...) } }]. *)
Fixpoint decryptAll (key : CryptoKey) (vaultItems : list ItemRow.Row)
    (decryptedItems : list Item.t) : M (list Item.t) :=
  match vaultItems with
  | [] => ret decryptedItems
  | item :: rest =>
      decryptedItems <-
        try_catch
          (payload <- decryptVaultItem (ItemRow.ciphertext item)
                        (ItemRow.iv item) key ;;
           ret (decryptedItems ++ [Item.of_row item payload]))
          (fun _ => console_error (ItemRow.id item) ;;; ret decryptedItems) ;;
      decryptAll key rest decryptedItems
  end.

(** The [try] block of [handleUnlock]; [userId] and [showPassword] are the
    values the handler closed over. *)
Definition unlock_attempt (userId : option jsstring) (showPassword : jsstring)
  : M unit :=
  userId <- match userId with
            | Some (c :: r) => ret (c :: r)
            | _ => throw NotAuthenticated
            end ;;
  (* Fetch user profile to get salt *)
  profile <- getProfile userId ;;
  (* Check if account is locked *)
  match Profile.failed_unlock_locked_until profile with
  | Some lockedUntil =>
      now <- Date_now ;;
      if (now <? lockedUntil)%Z then
        now <- Date_now ;;
        throw (AccountLocked (ceil_div (lockedUntil - now) 60000))
      else ret tt
  | None => ret tt
  end ;;;
  (* Derive encryption key locally *)
  key <- deriveEncryptionKey showPassword (Profile.kdf_salt profile) ;;
  (* Fetch and decrypt vault items *)
  vaultItems <- getVaultItems userId ;;
  decryptedItems <- decryptAll key vaultItems [] ;;
  in_vault (Store.setUnlocked key (Profile.kdf_salt profile)) ;;;
  in_vault (Store.setVaultData decryptedItems []) ;;;
  setShowPassword [].

Definition handleUnlock : M unit :=
  w0 <- get_world ;;
  setLoading true ;;;
  setError None ;;;
  try_catch
    (unlock_attempt (Store.userId (vault w0)) (Page.showPassword (page w0)))
    (fun err => setError (Some err)) ;;;
  setLoading false.

Definition handleLock : M unit := in_vault Store.lockVault.

End VaultPage.

(** What a call of [handleUnlock] leaves behind. *)
Definition after {A} (m : M A) (w : World) : World := snd (m w).
Definition outcome {A} (m : M A) (w : World) : Result A := fst (m w).

(* ================================================================== *)
(** * A platform to run the code on *)
(* ================================================================== *)

(** An executable instance of [WebPlatform].  It is not the browser's
    cryptography: it is the smallest instance that obeys
    [DerivationLaws], [SealingLaws] and [NonceLaws], so that the code can be
    evaluated on concrete
    inputs. *)
Module ModelPlatform.

Definition checksum (b : bytes) : N :=
  fold_right (fun x acc => Byte.to_N x + acc) 0 b.

(** Text as two bytes per code unit, high byte first. *)
Fixpoint encode_text (s : jsstring) : bytes :=
  match s with
  | [] => []
  | c :: r => byte_of_N (c / 256) :: byte_of_N c :: encode_text r
  end.

Fixpoint decode_text (b : bytes) : jsstring :=
  match b with
  | hi :: lo :: r => Byte.to_N hi * 256 + Byte.to_N lo :: decode_text r
  | _ => []
  end.

(** A payload as text over code units below 50010: a code unit [n] below
    50000 is written [n + 10], a larger one as 5, [n - 50000] ones and a
    zero; a string ends with 2, an absent field is 3 and a present one
    starts with 4. *)
Definition write_unit (n : N) : jsstring :=
  if n <? 50000 then [n + 10]
  else 5 :: repeat 1 (N.to_nat (n - 50000)) ++ [0].

Definition write_string (s : jsstring) : jsstring :=
  flat_map write_unit s ++ [2].

Definition write_option (o : option jsstring) : jsstring :=
  match o with
  | None => [3]
  | Some s => 4 :: write_string s
  end.

Definition stringify (p : Payload.t) : jsstring :=
  write_string (Payload.username p) ++ write_string (Payload.password p)
    ++ write_option (Payload.url p) ++ write_option (Payload.notes p).

Fixpoint read_string (l : jsstring) (cur : N) (acc : jsstring)
  : option (jsstring * jsstring) :=
  match l with
  | [] => None
  | u :: r =>
      if 10 <=? u then read_string r cur (acc ++ [u - 10])
      else if u =? 5 then read_string r 50000 acc
      else if u =? 1 then read_string r (cur + 1) acc
      else if u =? 0 then read_string r 0 (acc ++ [cur])
      else if u =? 2 then Some (acc, r)
      else None
  end.

Definition read_option (l : jsstring)
  : option (option jsstring * jsstring) :=
  match l with
  | [] => None
  | u :: r =>
      if u =? 3 then Some (None, r)
      else if u =? 4 then
        match read_string r 0 [] with
        | Some (s, r') => Some (Some s, r')
        | None => None
        end
      else None
  end.

Definition parse (text : jsstring) : option Payload.t :=
  match read_string text 0 [] with
  | Some (username, r1) =>
      match read_string r1 0 [] with
      | Some (password, r2) =>
          match read_option r2 with
          | Some (url, r3) =>
              match read_option r3 with
              | Some (notes, []) =>
                  Some (Payload.make username password url notes)
              | _ => None
              end
          | None => None
          end
      | None => None
      end
  | None => None
  end.

(** A key stream that depends on password, salt and iteration count. *)
Definition derive (pw salt : bytes) (c : N) (n : nat) : bytes :=
  map (fun i => byte_of_N (checksum pw + 3 * checksum salt + c + N.of_nat i))
    (seq 0 n).

Definition digest (data : bytes) : bytes :=
  map (fun i => byte_of_N (checksum data + 7 * N.of_nat i)) (seq 0 32).

(** A 16-byte tag: the first twelve bytes of the nonce and a checksum of
    key, nonce and data. *)
Definition tag (k iv body : bytes) : bytes :=
  firstn 12 (iv ++ repeat x00 12)
    ++ repeat (byte_of_N (checksum k + checksum iv + checksum body)) 4.

Fixpoint bytes_eqb (a b : bytes) : bool :=
  match a, b with
  | [], [] => true
  | x :: a', y :: b' => Byte.eqb x y && bytes_eqb a' b'
  | _, _ => false
  end.

Definition seal (k iv m : bytes) : option bytes := Some (m ++ tag k iv m).

Definition open (k iv c : bytes) : option bytes :=
  let n := (length c - 16)%nat in
  if (length c <? 16)%nat then None
  else if bytes_eqb (skipn n c) (tag k iv (firstn n c)) then Some (firstn n c)
  else None.

#[export] Instance platform : WebPlatform :=
  {| TextEncoder_encode := encode_text;
     TextDecoder_decode := decode_text;
     JSON_stringify := stringify;
     JSON_parse := parse;
     PBKDF2_HMAC_SHA256 := derive;
     SHA256 := digest;
     AES_GCM_encrypt := seal;
     AES_GCM_decrypt := open |}.

End ModelPlatform.

#[global] Existing Instance ModelPlatform.platform.

(* ================================================================== *)
(** * The properties, as the specification words them *)
(* ================================================================== *)

(** The strength score as the specification describes it: ten points per
    length threshold reached, ten per class among lowercase, uppercase and
    digit, twenty for a symbol, twenty more when all four classes occur in a
    password of at least sixteen characters, at most 100 in all. *)
Definition points (b : bool) (p : Z) : Z := if b then p else 0%Z.

Definition strength_by_spec (password : jsstring) : Z :=
  let len := str_length password in
  let thresholds :=
    (points (8 <=? len) 10 + points (12 <=? len) 10
     + points (16 <=? len) 10 + points (20 <=? len) 10)%Z in
  let classes :=
    (points (test_lower password) 10 + points (test_upper password) 10
     + points (test_digit password) 10 + points (test_symbol password) 20)%Z in
  let bonus :=
    points (test_lower password && test_upper password && test_digit password
            && test_symbol password && (16 <=? len)%Z) 20 in
  Z.min 100 (thresholds + classes + bonus).

(** A password has a character of each of the four classes. *)
Definition has_every_class (s : jsstring) : bool :=
  test_upper s && test_lower s && test_digit s && test_symbol s.

Definition allClasses (n : nat) : PasswordOptions.t :=
  PasswordOptions.make n true true true true.

(** Flipping bit [i] of the code unit at position [pos] of a text. *)
Fixpoint flip_bit (s : jsstring) (pos : nat) (i : N) : jsstring :=
  match s, pos with
  | [], _ => []
  | c :: r, O => N.lxor c (2 ^ i) :: r
  | c :: r, S pos' => c :: flip_bit r pos' i
  end.

(** The 64 bytes of key material of a password and a decoded salt:
    PBKDF2 with SHA-256, 600,000 iterations. *)
Definition key_material {W : WebPlatform} (password : jsstring) (salt : bytes)
  : bytes :=
  PBKDF2_HMAC_SHA256 (TextEncoder_encode password) salt 600000 64.

(** The key [deriveEncryptionKey] gives for a password and a decoded salt. *)
Definition derived_key {W : WebPlatform} (password : jsstring) (salt : bytes)
  : CryptoKey :=
  mkCryptoKey AES_GCM (slice (key_material password salt) 0 32).

(** What [decryptVaultItem] gives for a stored ciphertext and nonce. *)
Definition open_payload {W : WebPlatform} (key : CryptoKey)
    (ciphertextBase64 ivBase64 : jsstring) : Result Payload.t :=
  match base64ToBuffer ciphertextBase64 with
  | Throw e => Throw e
  | Ok ciphertext =>
      match base64ToBuffer ivBase64 with
      | Throw e => Throw e
      | Ok iv =>
          match subtle_decrypt iv key ciphertext with
          | Throw e => Throw e
          | Ok data =>
              match JSON_parse (TextDecoder_decode data) with
              | Some payload => Ok payload
              | None => Throw SyntaxError
              end
          end
      end
  end.

(** The rows that open under a key, in order, as items of the store. *)
Fixpoint opened {W : WebPlatform} (key : CryptoKey)
    (vaultItems : list ItemRow.Row) : list Item.t :=
  match vaultItems with
  | [] => []
  | item :: rest =>
      match open_payload key (ItemRow.ciphertext item) (ItemRow.iv item) with
      | Ok payload => Item.of_row item payload :: opened key rest
      | Throw _ => opened key rest
      end
  end.

(** The session is signed in as [uid] and the record store answers with
    that account's row. *)
Definition signed_in_as (w : World) (uid : jsstring) (profile : Profile.Row)
  : Prop :=
  Store.userId (vault w) = Some uid /\ uid <> []
  /\ outcome (getProfile uid) w = Ok profile.

(** The row carries a lockout that has not elapsed. *)
Definition lockout_active (w : World) (profile : Profile.Row) : Prop :=
  exists t, Profile.failed_unlock_locked_until profile = Some t
            /\ (clock w < t)%Z.

(** Why an unlock is refused; the password is no part of any reason. *)
Inductive refusal (w : World) (userId : option jsstring) : JSError -> Prop :=
| refuse_anonymous :
    userId = None \/ userId = Some [] ->
    refusal w userId NotAuthenticated
| refuse_store uid :
    userId = Some uid -> uid <> [] ->
    outcome (getProfile uid) w = Throw PostgrestError ->
    refusal w userId PostgrestError
| refuse_locked uid profile t :
    userId = Some uid -> uid <> [] ->
    outcome (getProfile uid) w = Ok profile ->
    Profile.failed_unlock_locked_until profile = Some t ->
    (clock w < t)%Z ->
    refusal w userId (AccountLocked (ceil_div (t - clock w) 60000))
| refuse_salt uid profile :
    userId = Some uid -> uid <> [] ->
    outcome (getProfile uid) w = Ok profile ->
    ~ lockout_active w profile ->
    base64ToBuffer (Profile.kdf_salt profile) = Throw InvalidCharacterError ->
    refusal w userId InvalidCharacterError
| refuse_items uid profile salt :
    userId = Some uid -> uid <> [] ->
    outcome (getProfile uid) w = Ok profile ->
    ~ lockout_active w profile ->
    base64ToBuffer (Profile.kdf_salt profile) = Ok salt ->
    outcome (getVaultItems uid) (after (getProfile uid) w)
    = Throw PostgrestError ->
    refusal w userId PostgrestError.

(** The session invariant: an unlocked vault holds its key and salt. *)
Definition key_held (s : Store.VaultState) : Prop :=
  Store.isUnlocked s = true ->
  Store.encryptionKey s <> None /\ Store.salt s <> None.

(** The session is locked and holds nothing decrypted. *)
Definition locked_and_empty (s : Store.VaultState) : Prop :=
  Store.isUnlocked s = false /\ Store.encryptionKey s = None
  /\ Store.items s = [].

(* ================================================================== *)
(** * A registered account, for running the code *)
(* ================================================================== *)

Module Scenario.
Import ModelPlatform.

Definition value {A} (d : A) (r : Result A) : A :=
  match r with Ok a => a | Throw _ => d end.

Definition master_password : jsstring := js "VeryStrongPass123!!".
Definition wrong_password : jsstring := js "WrongPass1!!".

(** The sixteen bytes 0, 1, ..., 15 and the three bytes 0, 1, 2. *)
Definition salt : jsstring := js "AAECAwQFBgcICQoLDA0ODw==".
Definition short_salt : jsstring := js "AAEC".

Definition user : jsstring := js "7f3c".
Definition user_email : jsstring := js "u@example.com".

Definition start : World :=
  mkWorld (fun i => 17 + 31 * N.of_nat i) 0 1700000000000%Z
    (fun _ => false) 0 [] [] Store.initial (Page.make [] false None) [].

(** Registration: the keys of the master password. *)
Definition registration : DerivedKeys.t :=
  value (DerivedKeys.make (mkCryptoKey AES_GCM []) [])
    (outcome (deriveKeys master_password salt) start).

Definition registration_key : CryptoKey :=
  DerivedKeys.encryptionKey registration.

Definition example_payload : Payload.t :=
  Payload.make (js "u@example.com") (js "p@ss1234")
    (Some (js "https://example.com")) None.

(** An item sealed while the vault was unlocked. *)
Definition sealed_example : Sealed.t :=
  value (Sealed.make [] [])
    (outcome (encryptVaultItem example_payload registration_key) start).

Definition profile (attempts : Z) (locked_until : option Z) : Profile.Row :=
  Profile.make user user_email salt
    (DerivedKeys.verificationKey registration) attempts locked_until 5 30
    (js "2026-01-01T00:00:00Z") None.

Definition example_row : ItemRow.Row :=
  ItemRow.make (js "item-1") user (js "Example")
    (Sealed.ciphertext sealed_example) (Sealed.iv sealed_example) []
    None false 1 (js "2026-01-02T00:00:00Z") (js "2026-01-02T00:00:00Z")
    (js "2026-01-02T00:00:00Z").

(** The unlock screen: signed in, vault locked, [typed] in the password
    field, one stored item. *)
Definition unlock_screen (typed : jsstring) (attempts : Z)
    (locked_until : option Z) : World :=
  mkWorld (entropy start) 12 (clock start) (fun _ => false) 0
    [profile attempts locked_until] [example_row]
    (Store.setAuthenticated user user_email Store.initial)
    (Page.make typed false None) [].

(** Locking the vault, typing a password, and submitting the form. *)
Definition lock_and_type (typed : jsstring) (w : World) : World :=
  with_page (Page.make typed false None)
    (with_vault (Store.lockVault (vault w)) w).

Fixpoint attempts (n : nat) (typed : jsstring) (w : World) : World :=
  match n with
  | O => w
  | S n' => attempts n' typed (after handleUnlock (lock_and_type typed w))
  end.

Definition failed_attempts (w : World) : list Z :=
  map Profile.failed_unlock_attempts (profiles w).

Definition locked_until (w : World) : list (option Z) :=
  map Profile.failed_unlock_locked_until (profiles w).

(** Random values none of which selects a digit or an uppercase letter. *)
Definition unlucky : World :=
  mkWorld (fun i => 4000000007 * (N.of_nat i + 3)) 0 (clock start)
    (fun _ => false) 0 [] [] Store.initial (Page.make [] false None) [].

(** Two AES-GCM keys and a short text sealed under the first. *)
Definition key_one : CryptoKey :=
  mkCryptoKey AES_GCM (map byte_of_N (map N.of_nat (seq 1 32))).
Definition key_two : CryptoKey :=
  mkCryptoKey AES_GCM (map byte_of_N (map N.of_nat (seq 2 32))).

Definition sealed_secret : Sealed.t :=
  value (Sealed.make [] []) (outcome (encrypt (js "secret") key_one None) start).

Definition a_nonce : jsstring := js "AAECAwQFBgcICQoL".

Definition sealed_with_nonce : Sealed.t :=
  value (Sealed.make [] [])
    (outcome (encrypt (js "secret") key_one (Some a_nonce)) start).

End Scenario.

(* ================================================================== *)
(** * More of the platform *)
(* ================================================================== *)

(** SHA-256 gives 32 bytes. *)
Class DigestLaws (W : WebPlatform) : Prop := {
  sha256_length : forall data, length (SHA256 data) = 32%nat
}.

(** [s.toLowerCase()] *)
Class TextPlatform : Type := {
  String_toLowerCase : jsstring -> jsstring
}.

(** The empty string has no letter to fold. *)
Class CaseLaws (T : TextPlatform) : Prop := {
  toLowerCase_empty : String_toLowerCase [] = []
}.

(** A platform to run searches on: ASCII letters are folded, every other
    code unit is kept. *)
Module ModelText.

Definition lower_unit (c : N) : N := if is_upper c then c + 32 else c.

#[export] Instance platform : TextPlatform :=
  {| String_toLowerCase := map lower_unit |}.

End ModelText.

#[global] Existing Instance ModelText.platform.

(* ================================================================== *)
(** * [generatePassword]: the characters it may pick *)
(* ================================================================== *)

(** A code unit of a class that [options] enables; with no class enabled
    the generator falls back to lowercase letters and digits. *)
Definition enabled (options : PasswordOptions.t) (c : N) : bool :=
  if PasswordOptions.includeUppercase options
     || PasswordOptions.includeLowercase options
     || PasswordOptions.includeNumbers options
     || PasswordOptions.includeSymbols options
  then (PasswordOptions.includeUppercase options && is_upper c)
       || (PasswordOptions.includeLowercase options && is_lower c)
       || (PasswordOptions.includeNumbers options && is_digit c)
       || (PasswordOptions.includeSymbols options && existsb (N.eqb c) symbols)
  else is_lower c || is_digit c.

(** The charset [generatePassword] builds from [options]. *)
Definition charset_of (options : PasswordOptions.t) : jsstring :=
  let charset := [] in
  let charset := if PasswordOptions.includeUppercase options
                 then charset ++ uppercase else charset in
  let charset := if PasswordOptions.includeLowercase options
                 then charset ++ lowercase else charset in
  let charset := if PasswordOptions.includeNumbers options
                 then charset ++ numbers else charset in
  let charset := if PasswordOptions.includeSymbols options
                 then charset ++ symbols else charset in
  match charset with
  | [] => lowercase ++ numbers
  | _ => charset
  end.

(** No code unit occurs twice. *)
Fixpoint distinct (l : jsstring) : bool :=
  match l with
  | [] => true
  | c :: r => negb (existsb (N.eqb c) r) && distinct r
  end.

(** A character of the base64 alphabet, or the padding character. *)
Definition is_base64_char (c : N) : bool :=
  is_upper c || is_lower c || is_digit c || (c =? 43) || (c =? 47)
  || (c =? Base64.pad).

(* ================================================================== *)
(** * [handleUnlock]: the rows that do not open *)
(* ================================================================== *)

(** The ids of the rows that do not open under a key, in order: what the
    loop of [handleUnlock] reports with [console.error]. *)
Fixpoint unopened {W : WebPlatform} (key : CryptoKey)
    (vaultItems : list ItemRow.Row) : list jsstring :=
  match vaultItems with
  | [] => []
  | item :: rest =>
      match open_payload key (ItemRow.ciphertext item) (ItemRow.iv item) with
      | Ok _ => unopened key rest
      | Throw _ => ItemRow.id item :: unopened key rest
      end
  end.

(* ================================================================== *)
(** * [lib/supabase.ts]: writing [vault_items] *)
(* ================================================================== *)

Definition with_vault_items (rows : list ItemRow.Row) (w : World) : World :=
  mkWorld (entropy w) (drawn w) (clock w) (store_fault w) (requests w)
    (profiles w) rows (vault w) (page w) (console w).

(** [Partial<Insert>] of [vault_items]: the columns an update may carry. *)
Module ItemUpdate.
Record t : Type := make {
  user_id : option jsstring;
  title : option jsstring;
  ciphertext : option jsstring;
  iv : option jsstring;
  auth_tag : option jsstring;
  category_id : option (option jsstring);
  is_favorite : option bool
}.

Definition or_else {A} (o : option A) (a : A) : A :=
  match o with Some x => x | None => a end.

Definition apply (u : t) (r : ItemRow.Row) : ItemRow.Row :=
  {| ItemRow.id := ItemRow.id r;
     ItemRow.user_id := or_else (user_id u) (ItemRow.user_id r);
     ItemRow.title := or_else (title u) (ItemRow.title r);
     ItemRow.ciphertext := or_else (ciphertext u) (ItemRow.ciphertext r);
     ItemRow.iv := or_else (iv u) (ItemRow.iv r);
     ItemRow.auth_tag := or_else (auth_tag u) (ItemRow.auth_tag r);
     ItemRow.category_id := or_else (category_id u) (ItemRow.category_id r);
     ItemRow.is_favorite := or_else (is_favorite u) (ItemRow.is_favorite r);
     ItemRow.version := ItemRow.version r;
     ItemRow.last_accessed := ItemRow.last_accessed r;
     ItemRow.last_modified := ItemRow.last_modified r;
     ItemRow.created_at := ItemRow.created_at r |}.
End ItemUpdate.

(** [.eq("id", itemId).eq("user_id", userId)]; a null [userId] (the page
    passes [userId!]) equals no row's. *)
Definition row_matches (itemId : jsstring) (userId : option jsstring)
    (r : ItemRow.Row) : bool :=
  jsstring_eqb (ItemRow.id r) itemId
  && match userId with
     | Some u => jsstring_eqb (ItemRow.user_id r) u
     | None => false
     end.

(** [await supabase.from("vault_items").update(updates).eq("id", itemId)
    .eq("user_id", userId)]: the [error] member of the answer.  A request
    the store fails on writes nothing. *)
Definition vault_items_update (updates : ItemUpdate.t) (itemId : jsstring)
    (userId : option jsstring) : M (option JSError) :=
  fun w =>
    if store_fault w (requests w)
    then (Ok (Some PostgrestError), with_requests (S (requests w)) w)
    else (Ok None,
          with_vault_items
            (map (fun r => if row_matches itemId userId r
                           then ItemUpdate.apply updates r else r)
               (vault_items w))
            (with_requests (S (requests w)) w)).

(** [await supabase.from("vault_items").delete().eq("id", itemId)
    .eq("user_id", userId)] *)
Definition vault_items_delete (itemId : jsstring) (userId : option jsstring)
  : M (option JSError) :=
  fun w =>
    if store_fault w (requests w)
    then (Ok (Some PostgrestError), with_requests (S (requests w)) w)
    else (Ok None,
          with_vault_items
            (filter (fun r => negb (row_matches itemId userId r))
               (vault_items w))
            (with_requests (S (requests w)) w)).

(** [if (error) throw error] *)
Definition throw_if_error (error : option JSError) : M unit :=
  match error with
  | Some e => throw e
  | None => ret tt
  end.

Definition updateVaultItem (itemId userId : jsstring)
    (updates : ItemUpdate.t) : M unit :=
  error <- vault_items_update updates itemId (Some userId) ;;
  throw_if_error error.

Definition deleteVaultItem (itemId userId : jsstring) : M unit :=
  error <- vault_items_delete itemId (Some userId) ;;
  throw_if_error error.

(* ================================================================== *)
(** * [app/vault/page.tsx]: the dashboard *)
(* ================================================================== *)

(** A JavaScript object used as a map from strings: [o[k]],
    [{ ...o, [k]: v }] and [delete o[k]].  Keys are the store's item ids;
    members inherited from [Object.prototype] are not modelled. *)
Fixpoint obj_get {A} (o : list (jsstring * A)) (k : jsstring) : option A :=
  match o with
  | [] => None
  | (k', v) :: r => if jsstring_eqb k' k then Some v else obj_get r k
  end.

Fixpoint obj_set {A} (o : list (jsstring * A)) (k : jsstring) (v : A)
  : list (jsstring * A) :=
  match o with
  | [] => [(k, v)]
  | (k', v') :: r =>
      if jsstring_eqb k' k then (k', v) :: r else (k', v') :: obj_set r k v
  end.

Definition obj_delete {A} (o : list (jsstring * A)) (k : jsstring)
  : list (jsstring * A) :=
  filter (fun kv => negb (jsstring_eqb (fst kv) k)) o.

(** [s.includes(sub)] *)
Fixpoint starts_with (s sub : jsstring) : bool :=
  match sub, s with
  | [], _ => true
  | _ :: _, [] => false
  | x :: sub', y :: s' => (x =? y) && starts_with s' sub'
  end.

Fixpoint includes (s sub : jsstring) : bool :=
  starts_with s sub
  || match s with
     | [] => false
     | _ :: s' => includes s' sub
     end.

Module Dashboard.

(** The [useState] and [useRef] cells of [VaultPage] that its dashboard
    handlers use. *)
Record t : Type := make {
  searchQuery : jsstring;
  showDeleteDialog : bool;
  itemToDelete : option jsstring;
  revealedPasswords : list (jsstring * jsstring);
  idleTime : Z                           (* [idleTimeRef.current] *)
}.

Definition initial : t := make [] false None [] 0.

Definition with_revealedPasswords (r : list (jsstring * jsstring)) (d : t) : t :=
  make (searchQuery d) (showDeleteDialog d) (itemToDelete d) r (idleTime d).

Definition with_idleTime (n : Z) (d : t) : t :=
  make (searchQuery d) (showDeleteDialog d) (itemToDelete d)
    (revealedPasswords d) n.

Definition with_delete (shown : bool) (id : option jsstring) (d : t) : t :=
  make (searchQuery d) shown id (revealedPasswords d) (idleTime d).

(** [const [autoLockMinutes] = useState(5)]: never set. *)
Definition autoLockMinutes : Z := 5.

Definition handleLock (d : t) : M t :=
  in_vault Store.lockVault ;;;
  ret (with_revealedPasswords [] d).

(** The listener of mousemove, keydown, click and scroll. *)
Definition resetTimer (d : t) : t := with_idleTime 0 d.

(** The callback of [setInterval(..., 1000)]. *)
Definition idleTimer (d : t) : M t :=
  let d := with_idleTime (idleTime d + 1) d in
  if (autoLockMinutes * 60 <=? idleTime d)%Z then
    d <- handleLock d ;;
    ret (with_idleTime 0 d)
  else ret d.

(** What reaches the idle-timer effect.  The effect installs the interval
    and the listeners only while the vault is unlocked
    ([if (!isUnlocked) return]) and removes them when it locks. *)
Inductive Event : Type :=
| Second      (* the interval fires *)
| Activity.   (* mousemove, keydown, click or scroll *)

Definition on_event (e : Event) (d : t) : M t :=
  w <- get_world ;;
  if Store.isUnlocked (vault w) then
    match e with
    | Second => idleTimer d
    | Activity => ret (resetTimer d)
    end
  else ret d.

Fixpoint on_events (events : list Event) (d : t) : M t :=
  match events with
  | [] => ret d
  | e :: rest => d <- on_event e d ;; on_events rest d
  end.

Definition handleRevealPassword (item : Item.t) (d : t) : t :=
  with_revealedPasswords
    (obj_set (revealedPasswords d) (Item.id item) (Item.password item)) d.

Definition handleHidePassword (itemId : jsstring) (d : t) : t :=
  with_revealedPasswords (obj_delete (revealedPasswords d) itemId) d.

(** What the card of an item shows: [revealedPasswords[item.id] ? ... : dots];
    an empty string is falsy. *)
Definition shown (d : t) (item : Item.t) : option jsstring :=
  match obj_get (revealedPasswords d) (Item.id item) with
  | Some (c :: r) => Some (c :: r)
  | _ => None
  end.

(** [{ is_favorite: !currentStatus }], as an update of the row and of the
    store's item. *)
Definition favorite_update (b : bool) : ItemUpdate.t :=
  ItemUpdate.make None None None None None None (Some b).

Definition favorite_partial (b : bool) : Item.Partial :=
  Item.makePartial None None None None None None (Some b) None None None
    None None None None.

(** The console line of the [catch] is recorded by its label. *)
Definition handleToggleFavorite (itemId : jsstring) (currentStatus : bool)
  : M unit :=
  w0 <- get_world ;;
  try_catch
    (error <- vault_items_update (favorite_update (negb currentStatus)) itemId
                (Store.userId (vault w0)) ;;
     throw_if_error error ;;;
     in_vault (Store.updateItem itemId (favorite_partial (negb currentStatus))))
    (fun _ => console_error (js "Failed to toggle favorite:")).

(** The Delete button of the confirmation dialog; the answer of the record
    store is not looked at. *)
Definition onDeleteClick (d : t) : M t :=
  match itemToDelete d with
  | Some (c :: r) =>
      w0 <- get_world ;;
      vault_items_delete (c :: r) (Store.userId (vault w0)) ;;;
      in_vault (Store.removeItem (c :: r)) ;;;
      ret (with_delete false None d)
  | _ => ret d
  end.

Section Search.

Context {T : TextPlatform}.

Definition filteredItems (items : list Item.t) (searchQuery : jsstring)
  : list Item.t :=
  filter
    (fun item =>
       includes (String_toLowerCase (Item.title item))
         (String_toLowerCase searchQuery)
       || includes (String_toLowerCase (Item.username item))
            (String_toLowerCase searchQuery))
    items.

End Search.

End Dashboard.

(* ================================================================== *)
(** * [app/register/page.tsx]: the credentials step *)
(* ================================================================== *)

Module Register.

Inductive Step : Type := credentials | warning | processing | success.

Record t : Type := make {
  password : jsstring;
  confirmPassword : jsstring;
  error : option jsstring;
  step : Step
}.

Definition with_error (e : option jsstring) (s : t) : t :=
  make (password s) (confirmPassword s) e (step s).

Definition with_step (st : Step) (s : t) : t :=
  make (password s) (confirmPassword s) (error s) st.

Definition passwordStrength (s : t) : Z :=
  estimatePasswordStrength (password s).

Definition strengthLabel (s : t) : jsstring :=
  if (passwordStrength s <? 40)%Z then js "Weak"
  else if (passwordStrength s <? 70)%Z then js "Fair"
  else js "Strong".

Definition strengthColor (s : t) : jsstring :=
  if (passwordStrength s <? 40)%Z then js "bg-destructive"
  else if (passwordStrength s <? 70)%Z then js "bg-yellow-500"
  else js "bg-primary".

Definition handleContinue (s : t) : t :=
  if negb (jsstring_eqb (password s) (confirmPassword s)) then
    with_error (Some (js "Passwords do not match")) s
  else if (str_length (password s) <? 12)%Z then
    with_error (Some (js "Password must be at least 12 characters")) s
  else if (passwordStrength s <? 50)%Z then
    with_error (Some (js "Please choose a stronger password")) s
  else with_step warning s.

(** The passwords the credentials step lets through, by length and
    character classes: any password of 20 characters; from 16 characters, one
    with a symbol or with two of the classes lowercase, uppercase, digit;
    from 12 characters, one with a symbol and another class, or with the
    three classes lowercase, uppercase, digit. *)
Definition long_and_varied (password : jsstring) : bool :=
  let len := str_length password in
  let l := test_lower password in
  let u := test_upper password in
  let d := test_digit password in
  let y := test_symbol password in
  (20 <=? len)%Z
  || ((16 <=? len)%Z && (y || (l && u) || (l && d) || (u && d)))
  || ((12 <=? len)%Z && ((y && (l || u || d)) || (l && u && d))).

End Register.

(* ================================================================== *)
(** * An unlocked session, for running the dashboard *)
(* ================================================================== *)

Module Session.

(** The vault of [Scenario], unlocked with the master password. *)
Definition unlocked : World :=
  after handleUnlock (Scenario.unlock_screen Scenario.master_password 0 None).

Definition dashboard : Dashboard.t :=
  Dashboard.make (js "exa") false None [(js "item-1", js "p@ss1234")] 120.

(** The dashboard with the confirmation dialog open on the stored item. *)
Definition deleting : Dashboard.t :=
  Dashboard.make [] true (Some (js "item-1")) [] 0.

(** The same session when the record store fails on the next request. *)
Definition offline : World :=
  mkWorld (entropy unlocked) (drawn unlocked) (clock unlocked)
    (fun _ => true) (requests unlocked) (profiles unlocked)
    (vault_items unlocked) (vault unlocked) (page unlocked) (console unlocked).

End Session.

(* ================================================================== *)
(** * Tampering with sealed bytes *)
(* ================================================================== *)

(** Flipping bit [i] of a byte, and of the byte at position [pos] of a byte
    array. *)
Definition flip_byte (b : byte) (i : N) : byte :=
  byte_of_N (N.lxor (Byte.to_N b) (2 ^ i)).

Fixpoint flip_bytes (b : bytes) (pos : nat) (i : N) : bytes :=
  match b, pos with
  | [], _ => []
  | x :: r, O => flip_byte x i :: r
  | x :: r, S pos' => x :: flip_bytes r pos' i
  end.

(** A base64 text of the bytes of [text] with bit [i] of byte [pos]
    flipped. *)
Definition tampered (text : jsstring) (pos : nat) (i : N) : jsstring :=
  Base64.encode
    (map Byte.to_N
       (flip_bytes (Scenario.value [] (base64ToBuffer text)) pos i)).

(** AES-GCM taken as an ideal authenticated cipher: what it sealed under a
    key and a nonce it opens under no other, and not after a change.

    Of the AES-GCM of the standard, the law of the nonce holds exactly for
    96-bit nonces, the two tag masks being images of different blocks under
    one permutation, and so does the law of the changed bit for a bit of the
    tag; for a bit of the ciphertext before the tag it holds for every key
    but those whose hash subkey is zero, and the law of the other key holds
    up to a collision of two 128-bit tags. *)
Class AuthenticationLaws (W : WebPlatform) : Prop := {
  gcm_rejects_changed_bit :
    forall k iv m c pos i,
      AES_GCM_encrypt k iv m = Some c ->
      (pos < length c)%nat -> i < 8 ->
      AES_GCM_decrypt k iv (flip_bytes c pos i) = None;
  gcm_rejects_other_nonce :
    forall k iv iv' m c,
      AES_GCM_encrypt k iv m = Some c ->
      length iv = 12%nat -> length iv' = 12%nat -> iv' <> iv ->
      AES_GCM_decrypt k iv' c = None;
  gcm_rejects_other_key :
    forall k k' iv m c,
      AES_GCM_encrypt k iv m = Some c -> k' <> k ->
      AES_GCM_decrypt k' iv c = None
}.

(** [decrypt] and [decryptVaultItem] both fail with [e], and change
    nothing. *)
Definition fails_with {W : WebPlatform} (e : JSError)
    (ciphertextBase64 ivBase64 : jsstring) (key : CryptoKey) (w : World)
  : Prop :=
  decrypt ciphertextBase64 ivBase64 key w = (Throw e, w)
  /\ decryptVaultItem ciphertextBase64 ivBase64 key w = (Throw e, w).

(** A platform with an authenticated cipher in which nothing collides:
    the sealed bytes spell out key and nonce, each behind its length, and
    the data twice.  Text, JSON, key derivation and digest are those of
    [ModelPlatform]. *)
Module IdealCipher.

Definition frame (x : bytes) : bytes := repeat x01 (length x) ++ x00 :: x.

Definition pack (k iv m : bytes) : bytes := frame k ++ frame iv ++ m ++ m.

Definition pack_seal (k iv m : bytes) : option bytes := Some (pack k iv m).

Definition pack_open (k iv c : bytes) : option bytes :=
  let rest := skipn (length (frame k ++ frame iv)) c in
  let m := firstn (Nat.div2 (length rest)) rest in
  if ModelPlatform.bytes_eqb c (pack k iv m) then Some m else None.

Definition ideal_platform : WebPlatform :=
  {| TextEncoder_encode := ModelPlatform.encode_text;
     TextDecoder_decode := ModelPlatform.decode_text;
     JSON_stringify := ModelPlatform.stringify;
     JSON_parse := ModelPlatform.parse;
     PBKDF2_HMAC_SHA256 := ModelPlatform.derive;
     SHA256 := ModelPlatform.digest;
     AES_GCM_encrypt := pack_seal;
     AES_GCM_decrypt := pack_open |}.

(** A text and an item sealed on this platform under [Scenario.key_one]. *)
Definition ideal_secret : Sealed.t :=
  Scenario.value (Sealed.make [] [])
    (outcome (encrypt (W := ideal_platform) (js "secret") Scenario.key_one None)
       Scenario.start).

Definition ideal_item : Sealed.t :=
  Scenario.value (Sealed.make [] [])
    (outcome (encryptVaultItem (W := ideal_platform) Scenario.example_payload
                Scenario.key_one) Scenario.start).

End IdealCipher.

(** [decrypt] answers with an [OperationError]; a test holds of the texts
    of every single-bit change of the bytes of a text. *)
Definition rejected {W : WebPlatform} (ciphertextBase64 ivBase64 : jsstring)
    (key : CryptoKey) (w : World) : bool :=
  match outcome (decrypt ciphertextBase64 ivBase64 key) w with
  | Throw OperationError => true
  | _ => false
  end.

Definition every_flip (text : jsstring) (p : jsstring -> bool) : bool :=
  forallb
    (fun pos =>
       forallb (fun i => p (tampered text pos (N.of_nat i)))
         (seq 0 8))
    (seq 0 (length (Scenario.value [] (base64ToBuffer text)))).

(** [new Uint32Array(length)] comes before [crypto.getRandomValues] and
    throws a [RangeError] for a length it cannot index, from 2^53, or cannot
    allocate, from a limit of the engine below that.
    [getRandomValues_Uint32] stands for the two calls on a length that the
    constructor accepts; arrays of 2^24 elements, 64 MiB, are within that
    limit on the engines in use. *)
Definition Uint32Array_max_length : N := 2 ^ 24.

(* ================================================================== *)
(** * Password strength *)
(* ================================================================== *)

Example strength_weak : estimatePasswordStrength (js "123") = 10%Z.
Proof. reflexivity. Qed.

Example strength_strong :
  estimatePasswordStrength (js "CorrectHorseBatteryStaple!123") = 100%Z.
Proof. reflexivity. Qed.

Example strength_uncapped_sum :
  estimatePasswordStrength (js "abcdefgh1234") = 40%Z.
Proof. reflexivity. Qed.

Lemma points_range b p : (0 <= p)%Z -> (0 <= points b p <= p)%Z.
Proof. destruct b; simpl; lia. Qed.

(** C9: for every input string, [estimatePasswordStrength] returns the
    additive score of the specification (ten points per length threshold
    8, 12, 16, 20; ten each for a lowercase letter, an uppercase letter and
    a digit; twenty for a symbol; twenty more when all four classes occur
    and the length is at least 16; capped at 100), and the score lies in
    [0, 100]. *)
Theorem C9_strength_is_additive_and_bounded (password : jsstring) :
  estimatePasswordStrength password = strength_by_spec password
  /\ (0 <= estimatePasswordStrength password <= 100)%Z.
Proof.
  unfold estimatePasswordStrength, strength_by_spec, points.
  destruct (8 <=? str_length password)%Z, (12 <=? str_length password)%Z,
    (16 <=? str_length password)%Z, (20 <=? str_length password)%Z,
    (test_lower password), (test_upper password), (test_digit password),
    (test_symbol password); cbn [andb]; lia.
Qed.

(* ================================================================== *)
(** * The session store *)
(* ================================================================== *)

Lemma dispatch_keeps_key_held a s :
  key_held s -> key_held (Store.dispatch a s).
Proof.
  unfold key_held.
  destruct a; cbn; intros H; try exact H;
    intros; try discriminate; split; discriminate.
Qed.

Lemma reachable_key_held s : Store.reachable s -> key_held s.
Proof.
  induction 1 as [|s a _ IH].
  - unfold key_held; cbn; discriminate.
  - now apply dispatch_keeps_key_held.
Qed.

Lemma run_reachable actions :
  forall s, Store.reachable s -> Store.reachable (Store.run actions s).
Proof.
  induction actions as [|a actions IH]; intros s Hs; cbn.
  - exact Hs.
  - apply IH. now constructor.
Qed.

Lemma reachable_run s :
  Store.reachable s -> exists actions, s = Store.run actions Store.initial.
Proof.
  induction 1 as [|s a _ [actions ->]].
  - now exists [].
  - exists (actions ++ [a]). unfold Store.run. now rewrite fold_left_app.
Qed.

Example unlocked_is_reachable :
  let k := mkCryptoKey AES_GCM [] in
  Store.isUnlocked
    (Store.run [Store.SetAuthenticated (js "u") (js "e");
                Store.SetUnlocked k (js "c2FsdA==")] Store.initial) = true.
Proof. reflexivity. Qed.

(** C10: in every state the session store reaches from its initial state
    through its actions, [isUnlocked = true] implies that [encryptionKey]
    and [salt] are not null; [lockVault] and [logout] each leave
    [isUnlocked = false], [encryptionKey = null] and no decrypted item, from
    any state. *)
Theorem C10_unlocked_holds_key_and_lock_clears
    (actions : list Store.Action) (s : Store.VaultState) :
  key_held (Store.run actions Store.initial)
  /\ locked_and_empty (Store.lockVault s)
  /\ locked_and_empty (Store.logout s)
  /\ locked_and_empty (Store.run (actions ++ [Store.LockVault]) s)
  /\ locked_and_empty (Store.run (actions ++ [Store.Logout]) s).
Proof.
  split; [|split; [|split; [|split]]].
  - apply reachable_key_held, run_reachable, Store.reach_initial.
  - repeat split.
  - repeat split.
  - unfold Store.run. rewrite fold_left_app. repeat split.
  - unfold Store.run. rewrite fold_left_app. repeat split.
Qed.

(* ================================================================== *)
(** * Base64 *)
(* ================================================================== *)

Module Base64Facts.
Import Base64.

Ltac split_ifs :=
  repeat match goal with
         | |- context [if ?b then _ else _] => destruct b eqn:?
         end.

Ltac to_arith :=
  repeat match goal with
         | H : (_ && _) = true |- _ => apply andb_true_iff in H; destruct H
         | H : (_ && _) = false |- _ => apply andb_false_iff in H; destruct H
         | H : (_ || _) = true |- _ => apply orb_true_iff in H; destruct H
         | H : (_ || _) = false |- _ => apply orb_false_iff in H; destruct H
         | H : (_ <? _) = true |- _ => apply N.ltb_lt in H
         | H : (_ <? _) = false |- _ => apply N.ltb_ge in H
         | H : (_ <=? _) = true |- _ => apply N.leb_le in H
         | H : (_ <=? _) = false |- _ => apply N.leb_gt in H
         | H : (_ =? _) = true |- _ => apply N.eqb_eq in H
         | H : (_ =? _) = false |- _ => apply N.eqb_neq in H
         end.

Lemma sextet_of_char_of_sextet s :
  s < 64 -> sextet_of_char (char_of_sextet s) = Some s.
Proof.
  intros Hs. unfold char_of_sextet. split_ifs; unfold sextet_of_char;
    split_ifs; to_arith; try lia; f_equal; lia.
Qed.

Lemma char_of_sextet_not_space s :
  is_ascii_whitespace (char_of_sextet s) = false.
Proof.
  unfold is_ascii_whitespace, char_of_sextet.
  split_ifs; to_arith; repeat rewrite orb_false_iff;
    repeat split; apply N.eqb_neq; lia.
Qed.

Lemma char_of_sextet_not_pad s : (char_of_sextet s =? pad) = false.
Proof.
  unfold pad, char_of_sextet. split_ifs; to_arith; apply N.eqb_neq; lia.
Qed.

(** Induction over a list three elements at a time. *)
Lemma list_ind3 {A} (P : list A -> Prop) :
  P [] -> (forall a, P [a]) -> (forall a b, P [a; b]) ->
  (forall a b c r, P r -> P (a :: b :: c :: r)) ->
  forall l, P l.
Proof.
  intros H0 H1 H2 H3 l.
  enough (P l /\ (forall a, P (a :: l)) /\ (forall a b, P (a :: b :: l)))
    by tauto.
  induction l as [|x l (IH0 & IH1 & IH2)]; auto.
Qed.

Lemma sextets_bounded l :
  Forall (fun a => a < 256) l -> Forall (fun s => s < 64) (sextets_of_octets l).
Proof.
  induction l as [| a | a b | a b c r IH] using list_ind3; intros H; cbn.
  - constructor.
  - inversion_clear H.
    repeat constructor.
    + apply N.Div0.div_lt_upper_bound; lia.
    + pose proof (N.mod_lt a 4). lia.
  - inversion_clear H as [|? ? ? H']. inversion_clear H'.
    repeat constructor.
    + apply N.Div0.div_lt_upper_bound; lia.
    + pose proof (N.mod_lt a 4).
      assert (b / 16 < 16) by (apply N.Div0.div_lt_upper_bound; lia). lia.
    + pose proof (N.mod_lt b 16). lia.
  - inversion_clear H as [|? ? ? H']. inversion_clear H' as [|? ? ? H''].
    inversion_clear H''.
    repeat constructor; auto.
    + apply N.Div0.div_lt_upper_bound; lia.
    + pose proof (N.mod_lt a 4).
      assert (b / 16 < 16) by (apply N.Div0.div_lt_upper_bound; lia). lia.
    + pose proof (N.mod_lt b 16).
      assert (c / 64 < 4) by (apply N.Div0.div_lt_upper_bound; lia). lia.
    + apply N.mod_lt. lia.
Qed.

Ltac divmod := zify; Z.to_euclidean_division_equations; lia.

Lemma octets_of_sextets_of_octets l :
  Forall (fun a => a < 256) l ->
  octets_of_sextets (sextets_of_octets l) = l.
Proof.
  induction l as [| a | a b | a b c r IH] using list_ind3; intros H; cbn.
  - reflexivity.
  - inversion_clear H. f_equal. divmod.
  - inversion_clear H as [|? ? ? H']. inversion_clear H'.
    f_equal; [|f_equal]; divmod.
  - inversion_clear H as [|? ? ? H']. inversion_clear H' as [|? ? ? H''].
    inversion_clear H''.
    rewrite IH by assumption.
    f_equal; [|f_equal; [|f_equal]]; divmod.
Qed.

Lemma sextets_of_chars_of_sextets l :
  Forall (fun s => s < 64) l ->
  sextets_of_chars (map char_of_sextet l) = Some l.
Proof.
  induction 1 as [|s l Hs _ IH]; cbn.
  - reflexivity.
  - now rewrite sextet_of_char_of_sextet, IH.
Qed.

Lemma padding_add3 n : padding (3 + n) = padding n.
Proof.
  unfold padding.
  replace (Nat.modulo (3 + n) 3) with (Nat.modulo n 3); [reflexivity|].
  replace (3 + n)%nat with (n + 1 * 3)%nat by lia.
  now rewrite Nat.Div0.mod_add.
Qed.

Lemma mod4_add4 n : Nat.modulo (4 + n) 4 = Nat.modulo n 4.
Proof.
  replace (4 + n)%nat with (n + 1 * 4)%nat by lia.
  now rewrite Nat.Div0.mod_add.
Qed.

(** The encoding is a body over the alphabet, of length 0, 2 or 3 modulo
    4, and the padding that completes it to a multiple of 4. *)
Lemma body_length_mod4 l :
  Nat.modulo (length (sextets_of_octets l)) 4 <> 1%nat
  /\ Nat.modulo
       (length (sextets_of_octets l) + length (padding (length l))) 4 = 0%nat.
Proof.
  induction l as [| a | a b | a b c r IH] using list_ind3.
  - cbn. split; [discriminate|reflexivity].
  - cbn. split; [discriminate|reflexivity].
  - cbn. split; [discriminate|reflexivity].
  - change (length (a :: b :: c :: r)) with (3 + length r)%nat.
    rewrite padding_add3.
    change (length (sextets_of_octets (a :: b :: c :: r)))
      with (4 + length (sextets_of_octets r))%nat.
    rewrite <- Nat.add_assoc, !mod4_add4. exact IH.
Qed.

Lemma filter_alphabet l :
  filter (fun c => negb (is_ascii_whitespace c)) (map char_of_sextet l)
  = map char_of_sextet l.
Proof.
  induction l as [|s l IH]; cbn; [reflexivity|].
  now rewrite char_of_sextet_not_space, IH.
Qed.

Lemma filter_app_padding body n :
  filter (fun c => negb (is_ascii_whitespace c)) (body ++ padding n)
  = filter (fun c => negb (is_ascii_whitespace c)) body ++ padding n.
Proof.
  rewrite filter_app. f_equal.
  unfold padding. now destruct (Nat.modulo n 3) as [|[|[|?]]].
Qed.

Lemma strip_padding_body l n :
  strip_padding (map char_of_sextet l ++ padding n) = map char_of_sextet l.
Proof.
  unfold strip_padding. rewrite rev_app_distr.
  unfold padding. destruct (Nat.modulo n 3) as [|[|[|?]]]; cbn [rev app].
  - rewrite app_nil_r. rewrite <- map_rev.
    destruct (rev l) as [|s r]; cbn; [reflexivity|].
    now rewrite char_of_sextet_not_pad.
  - change (pad =? pad) with true. cbn iota. now rewrite rev_involutive.
  - change (pad =? pad) with true. cbn iota.
    rewrite <- (rev_involutive (map char_of_sextet l)) at 2.
    rewrite <- map_rev.
    destruct (rev l) as [|s r]; cbn [map]; [reflexivity|].
    now rewrite char_of_sextet_not_pad.
  - rewrite app_nil_r. rewrite <- map_rev.
    destruct (rev l) as [|s r]; cbn; [reflexivity|].
    now rewrite char_of_sextet_not_pad.
Qed.

(** [atob] reads back what [btoa] wrote. *)
Lemma atob_encode l :
  Forall (fun a => a < 256) l -> atob (encode l) = Ok l.
Proof.
  intros Hl. unfold atob, encode.
  rewrite filter_app_padding, filter_alphabet.
  destruct (body_length_mod4 l) as [Hbody Hfull].
  rewrite length_app, length_map, Hfull. cbn [Nat.eqb].
  rewrite strip_padding_body, length_map.
  destruct (Nat.eqb_spec (Nat.modulo (length (sextets_of_octets l)) 4) 1);
    [contradiction|].
  rewrite sextets_of_chars_of_sextets by now apply sextets_bounded.
  now rewrite octets_of_sextets_of_octets.
Qed.

End Base64Facts.

(* ================================================================== *)
(** * [bufferToBase64] and [base64ToBuffer] *)
(* ================================================================== *)

Lemma byte_of_N_to_N b : byte_of_N (Byte.to_N b) = b.
Proof.
  unfold byte_of_N.
  rewrite N.mod_small by (pose proof (Byte.to_N_bounded b); lia).
  now rewrite Byte.of_to_N.
Qed.

Lemma to_N_byte_of_N n : Byte.to_N (byte_of_N n) = n mod 256.
Proof.
  unfold byte_of_N. destruct (Byte.of_N (n mod 256)) as [b|] eqn:E.
  - now apply Byte.to_of_N in E.
  - apply Byte.of_N_None_iff in E. pose proof (N.mod_lt n 256). lia.
Qed.

Lemma binary_string buffer init :
  fold_left (fun binary b => binary ++ [Byte.to_N b]) buffer init
  = init ++ map Byte.to_N buffer.
Proof.
  revert init. induction buffer as [|b buffer IH]; intros init; cbn.
  - now rewrite app_nil_r.
  - rewrite IH, <- app_assoc. reflexivity.
Qed.

Lemma octets_of_buffer buffer :
  Forall (fun a => a < 256) (map Byte.to_N buffer).
Proof.
  apply Forall_map, Forall_forall. intros b _.
  pose proof (Byte.to_N_bounded b). lia.
Qed.

(** [bufferToBase64] never throws: it is [btoa] on a binary string. *)
Lemma bufferToBase64_encode buffer :
  bufferToBase64 buffer = Ok (Base64.encode (map Byte.to_N buffer)).
Proof.
  unfold bufferToBase64, Base64.btoa. rewrite binary_string. cbn [app].
  replace (forallb (fun c => c <=? 255) (map Byte.to_N buffer)) with true;
    [reflexivity|].
  symmetry. apply forallb_forall. intros c Hc.
  apply in_map_iff in Hc. destruct Hc as (b & <- & _).
  apply N.leb_le, Byte.to_N_bounded.
Qed.

Lemma base64ToBuffer_encode buffer :
  base64ToBuffer (Base64.encode (map Byte.to_N buffer)) = Ok buffer.
Proof.
  unfold base64ToBuffer.
  rewrite Base64Facts.atob_encode by apply octets_of_buffer.
  f_equal. rewrite map_map. rewrite <- (map_id buffer) at 2.
  apply map_ext. intros b. apply byte_of_N_to_N.
Qed.

(** Decoding gives back the buffer that was encoded. *)
Lemma base64ToBuffer_bufferToBase64 buffer s :
  bufferToBase64 buffer = Ok s -> base64ToBuffer s = Ok buffer.
Proof.
  rewrite bufferToBase64_encode. intros [= <-]. apply base64ToBuffer_encode.
Qed.

Lemma bufferToBase64_inj a b s :
  bufferToBase64 a = Ok s -> bufferToBase64 b = Ok s -> a = b.
Proof.
  intros Ha Hb.
  apply base64ToBuffer_bufferToBase64 in Ha, Hb. congruence.
Qed.

Example base64_salt :
  base64ToBuffer Scenario.salt
  = Ok (map byte_of_N [0; 1; 2; 3; 4; 5; 6; 7; 8; 9; 10; 11; 12; 13; 14; 15]).
Proof. reflexivity. Qed.

Example base64_short_salt :
  base64ToBuffer Scenario.short_salt = Ok (map byte_of_N [0; 1; 2]).
Proof. reflexivity. Qed.

Example base64_rejects : base64ToBuffer (js "A") = Throw InvalidCharacterError.
Proof. reflexivity. Qed.

(** [atob] does not look at the bits of the last character that fall
    outside the last byte: two texts one bit apart decode alike. *)
Example base64_unused_bits :
  flip_bit (js "QQ==") 1 1 = js "QS=="
  /\ base64ToBuffer (js "QQ==") = base64ToBuffer (js "QS==").
Proof. split; reflexivity. Qed.

(* ================================================================== *)
(** * The model platform obeys the laws *)
(* ================================================================== *)

Module ModelPlatformFacts.
Import ModelPlatform.

Lemma well_formed_bounded_fuel n :
  forall s, (length s <= n)%nat -> well_formed s = true ->
            Forall (fun c => c < 65536) s.
Proof.
  induction n as [|n IH]; intros [|c r] Hlen Hwf; try constructor;
    cbn in Hlen; try lia.
  - cbn [well_formed] in Hwf. unfold in_range in Hwf.
    destruct ((55296 <=? c) && (c <=? 56319)) eqn:Hhi.
    + Base64Facts.to_arith. lia.
    + Base64Facts.to_arith; lia.
  - cbn [well_formed] in Hwf. unfold in_range in Hwf.
    destruct ((55296 <=? c) && (c <=? 56319)) eqn:Hhi.
    + destruct r as [|d r']; [discriminate|].
      apply andb_true_iff in Hwf. destruct Hwf as [Hd Hwf].
      constructor.
      * Base64Facts.to_arith. lia.
      * apply IH; [cbn in *; lia|]. exact Hwf.
    + apply andb_true_iff in Hwf. destruct Hwf as [_ Hwf].
      apply IH; [lia | exact Hwf].
Qed.

Lemma decode_encode_text s :
  Forall (fun c => c < 65536) s -> decode_text (encode_text s) = s.
Proof.
  induction 1 as [|c r Hc _ IH]; cbn [encode_text decode_text].
  - reflexivity.
  - rewrite IH, !to_N_byte_of_N. f_equal. Base64Facts.divmod.
Qed.

Lemma small_units_well_formed s :
  Forall (fun c => c < 55296) s -> well_formed s = true.
Proof.
  induction 1 as [|c r Hc _ IH]; cbn [well_formed]; [reflexivity|].
  unfold in_range.
  replace (55296 <=? c) with false by (symmetry; apply N.leb_gt; lia).
  replace (56320 <=? c) with false by (symmetry; apply N.leb_gt; lia).
  replace (c <? 65536) with true by (symmetry; apply N.ltb_lt; lia).
  exact IH.
Qed.

Lemma write_unit_small n : Forall (fun c => c < 55296) (write_unit n).
Proof.
  unfold write_unit. destruct (N.ltb_spec n 50000).
  - repeat constructor. lia.
  - constructor; [lia|]. apply Forall_app. split.
    + apply Forall_forall. intros c Hc. apply repeat_spec in Hc. lia.
    + repeat constructor.
Qed.

Lemma write_string_small s : Forall (fun c => c < 55296) (write_string s).
Proof.
  unfold write_string. apply Forall_app. split.
  - apply Forall_flat_map, Forall_forall. intros c _. apply write_unit_small.
  - repeat constructor.
Qed.

Lemma write_option_small o : Forall (fun c => c < 55296) (write_option o).
Proof.
  destruct o as [s|]; cbn.
  - constructor; [lia | apply write_string_small].
  - repeat constructor.
Qed.

Lemma read_ones n : forall l cur acc,
  read_string (repeat 1 n ++ l) cur acc
  = read_string l (cur + N.of_nat n) acc.
Proof.
  induction n as [|n IH]; intros l cur acc.
  - cbn. now rewrite N.add_0_r.
  - cbn [repeat app read_string]. change (10 <=? 1) with false.
    change (1 =? 5) with false. change (1 =? 1) with true. cbv iota.
    rewrite IH. f_equal. lia.
Qed.

Lemma read_unit c l acc :
  read_string (write_unit c ++ l) 0 acc = read_string l 0 (acc ++ [c]).
Proof.
  unfold write_unit. destruct (N.ltb_spec c 50000) as [Hc|Hc].
  - cbn [app read_string].
    replace (10 <=? c + 10) with true by (symmetry; apply N.leb_le; lia).
    now replace (c + 10 - 10) with c by lia.
  - cbn [app read_string]. change (10 <=? 5) with false.
    change (5 =? 5) with true. cbv iota.
    rewrite <- app_assoc, read_ones. cbn [app read_string].
    change (10 <=? 0) with false. change (0 =? 5) with false.
    change (0 =? 1) with false. change (0 =? 0) with true. cbv iota.
    rewrite N2Nat.id. now replace (50000 + (c - 50000)) with c by lia.
Qed.

Lemma read_units s : forall l acc,
  read_string (flat_map write_unit s ++ l) 0 acc
  = read_string l 0 (acc ++ s).
Proof.
  induction s as [|c s IH]; intros l acc; cbn [flat_map].
  - now rewrite app_nil_r.
  - rewrite <- app_assoc, read_unit, IH, <- app_assoc. reflexivity.
Qed.

Lemma read_write_string s l :
  read_string (write_string s ++ l) 0 [] = Some (s, l).
Proof.
  unfold write_string. rewrite <- app_assoc, read_units. reflexivity.
Qed.

Lemma read_write_option o l :
  read_option (write_option o ++ l) = Some (o, l).
Proof.
  destruct o as [s|]; cbn [write_option app read_option].
  - change (4 =? 3) with false. change (4 =? 4) with true. cbv iota.
    now rewrite read_write_string.
  - reflexivity.
Qed.

Lemma parse_stringify p : parse (stringify p) = Some p.
Proof.
  destruct p as [u pw url notes]. unfold parse, stringify. cbn [Payload.username
    Payload.password Payload.url Payload.notes].
  rewrite read_write_string, read_write_string, read_write_option.
  rewrite <- (app_nil_r (write_option notes)), read_write_option.
  reflexivity.
Qed.

Lemma tag_length k iv body : length (tag k iv body) = 16%nat.
Proof.
  unfold tag. rewrite length_app, length_firstn, length_app, !repeat_length.
  lia.
Qed.

Lemma bytes_eqb_refl a : bytes_eqb a a = true.
Proof.
  induction a as [|x a IH]; cbn; [reflexivity|].
  now rewrite (Byte.byte_dec_lb (eq_refl x)), IH.
Qed.

Lemma bytes_eqb_eq a : forall b, bytes_eqb a b = true -> a = b.
Proof.
  induction a as [|x a IH]; intros [|y b] H; cbn in H; try discriminate.
  - reflexivity.
  - apply andb_true_iff in H. destruct H as [Hx Hab].
    apply Byte.byte_dec_bl in Hx. f_equal; auto.
Qed.

Lemma open_seal k iv m c : seal k iv m = Some c -> open k iv c = Some m.
Proof.
  unfold seal, open. intros [= <-].
  rewrite length_app, tag_length.
  replace (length m + 16 - 16)%nat with (length m) by lia.
  destruct (Nat.ltb_spec (length m + 16) 16); [lia|].
  rewrite skipn_app, skipn_all, Nat.sub_diag, firstn_app, firstn_all,
    Nat.sub_diag.
  cbn [skipn firstn app]. rewrite app_nil_r, bytes_eqb_refl. reflexivity.
Qed.

Lemma firstn_exact {A} (l r : list A) n :
  length l = n -> firstn n (l ++ r) = l.
Proof.
  intros <-. rewrite firstn_app, firstn_all, Nat.sub_diag. cbn.
  apply app_nil_r.
Qed.

Lemma seal_nonce k iv iv' m :
  length iv = 12%nat -> length iv' = 12%nat -> iv <> iv' ->
  seal k iv m <> seal k iv' m.
Proof.
  unfold seal, tag. intros Hiv Hiv' Hne.
  rewrite !(firstn_exact _ _ Hiv), !(firstn_exact _ _ Hiv').
  intros [= H]. apply app_inv_head in H.
  apply (f_equal (firstn 12)) in H.
  rewrite (firstn_exact _ _ Hiv), (firstn_exact _ _ Hiv') in H.
  contradiction.
Qed.

Lemma small_units_no_bom s :
  Forall (fun c => c < 55296) s -> has_bom s = false.
Proof.
  intros [|c r Hc _]; cbn; [reflexivity|]. apply N.eqb_neq. lia.
Qed.

Lemma stringify_small p : Forall (fun c => c < 55296) (stringify p).
Proof.
  unfold stringify.
  apply Forall_app; split; [apply write_string_small|].
  apply Forall_app; split; [apply write_string_small|].
  apply Forall_app; split; apply write_option_small.
Qed.

#[export] Instance derivation_laws : DerivationLaws platform.
Proof.
  constructor. intros pw s c n. change (length (derive pw s c n) = n).
  unfold derive. now rewrite length_map, length_seq.
Qed.

#[export] Instance sealing_laws : SealingLaws platform.
Proof.
  constructor.
  - intros s Hs. apply andb_true_iff in Hs. destruct Hs as [Hs _].
    apply decode_encode_text.
    apply (well_formed_bounded_fuel (n := length s)); [lia | exact Hs].
  - intros p. change (JSON_stringify p) with (stringify p).
    unfold utf8_faithful.
    rewrite (small_units_well_formed (stringify_small p)).
    now rewrite (small_units_no_bom (stringify_small p)).
  - exact parse_stringify.
  - intros k iv m _. discriminate.
  - exact open_seal.
Qed.

#[export] Instance nonce_laws : NonceLaws platform.
Proof. constructor. exact seal_nonce. Qed.

End ModelPlatformFacts.

(* ================================================================== *)
(** * Key derivation *)
(* ================================================================== *)

Section KeyDerivation.

Context {W : WebPlatform} {D : DerivationLaws W}.

Lemma slice_length {A} (l : list A) a b :
  (b <= length l)%nat -> length (slice l a b) = (b - a)%nat.
Proof.
  intros H. unfold slice. rewrite length_firstn, length_skipn. lia.
Qed.

(** [deriveKeys], step by step: only decoding the salt can fail. *)
Lemma deriveKeys_run password saltBase64 w :
  deriveKeys password saltBase64 w
  = match base64ToBuffer saltBase64 with
    | Throw e => (Throw e, w)
    | Ok salt =>
        (Ok (DerivedKeys.make
               (mkCryptoKey AES_GCM (slice (key_material password salt) 0 32))
               (Base64.encode
                  (map Byte.to_N
                     (SHA256 (slice (key_material password salt) 32 64))))),
         w)
    end.
Proof.
  unfold deriveKeys, bind, lift, ret. cbn [subtle_importKey].
  destruct (base64ToBuffer saltBase64) as [salt|e]; [|reflexivity].
  unfold subtle_deriveBits. cbn [key_algorithm key_raw].
  change (N.to_nat (512 / 8)) with 64%nat.
  change ((512 =? 0) || negb (512 mod 8 =? 0) || (PBKDF2_ITERATIONS =? 0))
    with false. cbn iota.
  fold (key_material password salt).
  unfold subtle_importKey.
  rewrite slice_length by (unfold key_material; rewrite pbkdf2_length; lia).
  cbn [Nat.sub Nat.eqb orb]. unfold subtle_digest.
  rewrite bufferToBase64_encode. reflexivity.
Qed.

(** C4: [deriveKeys] is deterministic.  Two calls with the same password
    and salt give the same outcome whatever the state of the world (random
    source, clock, stores), and leave the world as it was; when the salt
    decodes, the key material is the 64-byte PBKDF2-SHA-256 output at
    600,000 iterations, the encryption key is an AES-GCM key over its bytes
    [0, 32) and the verifier is the base64 text of one SHA-256 of its bytes
    [32, 64). *)
Theorem C4_deriveKeys_deterministic
  (password saltBase64 : jsstring) (w1 w2 : World) :
  outcome (deriveKeys password saltBase64) w1
  = outcome (deriveKeys password saltBase64) w2
  /\ after (deriveKeys password saltBase64) w1 = w1
  /\ forall salt, base64ToBuffer saltBase64 = Ok salt ->
     exists keys,
       outcome (deriveKeys password saltBase64) w1 = Ok keys
       /\ length (key_material password salt) = 64%nat
       /\ PBKDF2_ITERATIONS = 600000
       /\ DerivedKeys.encryptionKey keys
          = mkCryptoKey AES_GCM (slice (key_material password salt) 0 32)
       /\ bufferToBase64 (SHA256 (slice (key_material password salt) 32 64))
          = Ok (DerivedKeys.verificationKey keys).
Proof.
  unfold outcome, after. rewrite !deriveKeys_run.
  destruct (base64ToBuffer saltBase64) as [salt|e]; cbn [fst snd].
  - repeat split. intros salt' [= <-].
    eexists. split; [reflexivity|]. cbn [DerivedKeys.encryptionKey
      DerivedKeys.verificationKey].
    repeat split.
    + unfold key_material. apply pbkdf2_length.
    + apply bufferToBase64_encode.
  - repeat split. intros salt [=].
Qed.

(** [deriveKeys] does not look at the length of the salt: it returns both
    keys for every salt text that decodes, and neither key otherwise. *)
Lemma deriveKeys_total password saltBase64 w :
  match base64ToBuffer saltBase64 with
  | Ok salt =>
      exists keys, outcome (deriveKeys password saltBase64) w = Ok keys
  | Throw e => outcome (deriveKeys password saltBase64) w = Throw e
  end.
Proof.
  unfold outcome. rewrite deriveKeys_run.
  destruct (base64ToBuffer saltBase64); cbn [fst]; eauto.
Qed.

(** C6, as the code has it: [deriveKeys] makes no check of the salt's
    length.  For every password and every salt text that base64-decodes, to
    sixteen bytes or to any other number, it returns both the encryption
    key and the verifier; it fails only when the salt text does not decode
    (with the decoder's [InvalidCharacterError]), and then returns neither
    key. *)
Theorem C6_deriveKeys_any_salt_length
  (password saltBase64 : jsstring) (w : World) :
  (forall salt, base64ToBuffer saltBase64 = Ok salt ->
     exists encryptionKey verificationKey,
       outcome (deriveKeys password saltBase64) w
       = Ok (DerivedKeys.make encryptionKey verificationKey))
  /\ (forall e, base64ToBuffer saltBase64 = Throw e ->
       e = InvalidCharacterError
       /\ outcome (deriveKeys password saltBase64) w = Throw e).
Proof.
  pose proof (deriveKeys_total password saltBase64 w) as H.
  split.
  - intros salt Hs. rewrite Hs in H. destruct H as [[k v] ->]. eauto.
  - intros e He. rewrite He in H. split; [|exact H].
    unfold base64ToBuffer, Base64.atob in He.
    repeat match type of He with
           | context [if ?b then _ else _] => destruct b
           | context [match ?o with Some _ => _ | None => _ end] => destruct o
           end; congruence.
Qed.

End KeyDerivation.

Lemma C4_deriveKeys_deterministic_witness :
  outcome (deriveKeys Scenario.master_password Scenario.salt) Scenario.start
  = outcome (deriveKeys Scenario.master_password Scenario.salt)
      Scenario.unlucky
  /\ base64ToBuffer Scenario.salt
     = Ok (map byte_of_N [0; 1; 2; 3; 4; 5; 6; 7; 8; 9; 10; 11; 12; 13; 14; 15])
  /\ exists keys,
       outcome (deriveKeys Scenario.master_password Scenario.salt)
         Scenario.start = Ok keys
       /\ length (DerivedKeys.verificationKey keys) = 44%nat.
Proof.
  destruct (C4_deriveKeys_deterministic (D := ModelPlatformFacts.derivation_laws)
              Scenario.master_password Scenario.salt Scenario.start
              Scenario.unlucky) as (Hsame & _ & Hkeys).
  split; [exact Hsame|]. split; [reflexivity|].
  destruct (Hkeys _ base64_salt) as (keys & Hk & _).
  exists keys. split; [exact Hk|].
  vm_compute in Hk. injection Hk as <-. reflexivity.
Defined.

Lemma C6_deriveKeys_any_salt_length_witness :
  (exists encryptionKey verificationKey,
     outcome (deriveKeys Scenario.master_password Scenario.short_salt)
       Scenario.start
     = Ok (DerivedKeys.make encryptionKey verificationKey))
  /\ outcome (deriveKeys Scenario.master_password (js "A")) Scenario.start
     = Throw InvalidCharacterError.
Proof.
  destruct (C6_deriveKeys_any_salt_length
              (D := ModelPlatformFacts.derivation_laws)
              Scenario.master_password Scenario.short_salt Scenario.start)
    as [Hok _].
  destruct (C6_deriveKeys_any_salt_length
              (D := ModelPlatformFacts.derivation_laws)
              Scenario.master_password (js "A") Scenario.start)
    as [_ Hthrow].
  split.
  - exact (Hok _ base64_short_salt).
  - exact (proj2 (Hthrow _ base64_rejects)).
Defined.

(** C6 fails as stated: the salt text "AAEC" decodes to three bytes, not
    sixteen, and [deriveKeys] returns both keys for it, on every platform
    and for every password. *)
Lemma C6_short_salt_is_accepted :
  base64ToBuffer Scenario.short_salt = Ok (map byte_of_N [0; 1; 2])
  /\ (forall (W : WebPlatform) (D : DerivationLaws W) password w,
        exists keys,
          outcome (deriveKeys password Scenario.short_salt) w = Ok keys)
  /\ is_ok (outcome (deriveKeys Scenario.master_password Scenario.short_salt)
              Scenario.start) = true.
Proof.
  split; [reflexivity|]. split; [|reflexivity].
  intros W D password w.
  pose proof (deriveKeys_total password Scenario.short_salt w) as H.
  rewrite base64_short_salt in H. exact H.
Qed.

(* ================================================================== *)
(** * Sealing and opening *)
(* ================================================================== *)

Section Sealing.

Context {W : WebPlatform}.

Lemma random_bytes_length w n : length (random_bytes w n) = n.
Proof. unfold random_bytes. now rewrite length_map, length_seq. Qed.

(** [encrypt] without [ivBase64]: twelve bytes are drawn and used. *)
Lemma encrypt_run plaintext key w :
  encrypt plaintext key None w
  = match subtle_encrypt (random_bytes w 12) key
            (TextEncoder_encode plaintext) with
    | Ok c =>
        (Ok (Sealed.make (Base64.encode (map Byte.to_N c))
               (Base64.encode (map Byte.to_N (random_bytes w 12)))),
         with_drawn (drawn w + 12) w)
    | Throw e => (Throw e, with_drawn (drawn w + 12) w)
    end.
Proof.
  unfold encrypt, bind, lift, ret, getRandomValues_Uint8, IV_LENGTH.
  change (65536 <? N.of_nat 12) with false. cbn iota.
  destruct (subtle_encrypt _ key _) as [c|e]; [|reflexivity].
  now rewrite !bufferToBase64_encode.
Qed.

(** [encrypt] with a non-empty [ivBase64]: the caller's nonce is used and
    nothing is drawn. *)
Lemma encrypt_run_supplied plaintext key c r w :
  encrypt plaintext key (Some (c :: r)) w
  = (match base64ToBuffer (c :: r) with
     | Throw e => Throw e
     | Ok iv =>
         match subtle_encrypt iv key (TextEncoder_encode plaintext) with
         | Ok ct =>
             Ok (Sealed.make (Base64.encode (map Byte.to_N ct))
                   (Base64.encode (map Byte.to_N iv)))
         | Throw e => Throw e
         end
     end, w).
Proof.
  unfold encrypt, bind, lift, ret.
  destruct (base64ToBuffer (c :: r)) as [iv|e]; [|reflexivity].
  destruct (subtle_encrypt iv key _) as [ct|e]; [|reflexivity].
  now rewrite !bufferToBase64_encode.
Qed.

Lemma decrypt_run ciphertextBase64 ivBase64 key w :
  decrypt ciphertextBase64 ivBase64 key w
  = (match base64ToBuffer ciphertextBase64 with
     | Throw e => Throw e
     | Ok ciphertext =>
         match base64ToBuffer ivBase64 with
         | Throw e => Throw e
         | Ok iv =>
             match subtle_decrypt iv key ciphertext with
             | Throw e => Throw e
             | Ok data => Ok (TextDecoder_decode data)
             end
         end
     end, w).
Proof.
  unfold decrypt, bind, lift, ret.
  destruct (base64ToBuffer ciphertextBase64); [|reflexivity].
  destruct (base64ToBuffer ivBase64); [|reflexivity].
  destruct (subtle_decrypt _ key _); reflexivity.
Qed.

Lemma decryptVaultItem_run ciphertextBase64 ivBase64 key w :
  decryptVaultItem ciphertextBase64 ivBase64 key w
  = (match outcome (decrypt ciphertextBase64 ivBase64 key) w with
     | Throw e => Throw e
     | Ok decrypted =>
         match JSON_parse decrypted with
         | Some payload => Ok payload
         | None => Throw SyntaxError
         end
     end, w).
Proof.
  unfold decryptVaultItem, bind, outcome. rewrite decrypt_run. cbn [fst].
  destruct (base64ToBuffer ciphertextBase64); [|reflexivity].
  destruct (base64ToBuffer ivBase64); [|reflexivity].
  destruct (subtle_decrypt _ key _); [|reflexivity].
  destruct (JSON_parse _); reflexivity.
Qed.

(** The text is read through [base64ToBuffer] only. *)
Lemma decrypt_same_bytes c c' iv key w :
  base64ToBuffer c = base64ToBuffer c' ->
  decrypt c iv key w = decrypt c' iv key w.
Proof. intros H. now rewrite !decrypt_run, H. Qed.

Context {L : SealingLaws W}.

Lemma subtle_encrypt_defined iv key data :
  key_algorithm key = AES_GCM -> length iv = 12%nat ->
  exists c, subtle_encrypt iv key data = Ok c
            /\ AES_GCM_encrypt (key_raw key) iv data = Some c.
Proof.
  intros Hk Hiv. unfold subtle_encrypt. rewrite Hk.
  destruct (AES_GCM_encrypt (key_raw key) iv data) as [c|] eqn:E.
  - now exists c.
  - now apply gcm_encrypt_defined in E.
Qed.

(** What [encryptVaultItem] returns, and that [decryptVaultItem] opens it. *)
Lemma seal_then_open payload key w :
  key_algorithm key = AES_GCM ->
  exists c,
    AES_GCM_encrypt (key_raw key) (random_bytes w 12)
      (TextEncoder_encode (JSON_stringify payload)) = Some c
    /\ encryptVaultItem payload key w
       = (Ok (Sealed.make (Base64.encode (map Byte.to_N c))
                (Base64.encode (map Byte.to_N (random_bytes w 12)))),
          with_drawn (drawn w + 12) w)
    /\ forall w',
         decryptVaultItem (Base64.encode (map Byte.to_N c))
           (Base64.encode (map Byte.to_N (random_bytes w 12))) key w'
         = (Ok payload, w').
Proof.
  intros Hk.
  destruct (subtle_encrypt_defined (random_bytes w 12) key
              (TextEncoder_encode (JSON_stringify payload)) Hk
              (random_bytes_length w 12)) as (c & Hc & Hraw).
  exists c. split; [exact Hraw|]. split.
  - unfold encryptVaultItem. now rewrite encrypt_run, Hc.
  - intros w'. rewrite decryptVaultItem_run. unfold outcome.
    rewrite decrypt_run. cbn [fst]. rewrite !base64ToBuffer_encode.
    unfold subtle_decrypt. rewrite Hk, (gcm_decrypt_encrypt _ _ _ Hraw).
    rewrite utf8_decode_encode by apply json_faithful.
    now rewrite json_parse_stringify.
Qed.

(** C3: for every payload and every AES-GCM key, [encryptVaultItem]
    returns a (ciphertext, iv), and [decryptVaultItem] on that ciphertext
    and iv under the same key returns the payload. *)
Theorem C3_seal_open_round_trip
  (payload : Payload.t) (key : CryptoKey) (w w' : World) :
  key_algorithm key = AES_GCM ->
  exists sealed,
    outcome (encryptVaultItem payload key) w = Ok sealed
    /\ outcome (decryptVaultItem (Sealed.ciphertext sealed) (Sealed.iv sealed)
                  key) w' = Ok payload.
Proof.
  intros Hk. destruct (@seal_then_open payload key w Hk) as (c & _ & Hseal & Hopen).
  eexists. unfold outcome. rewrite Hseal. split; [reflexivity|].
  cbn [Sealed.ciphertext Sealed.iv]. now rewrite Hopen.
Qed.

End Sealing.

Lemma C3_seal_open_round_trip_witness :
  key_algorithm Scenario.registration_key = AES_GCM
  /\ exists sealed,
       outcome (encryptVaultItem Scenario.example_payload
                  Scenario.registration_key) Scenario.start = Ok sealed
       /\ outcome (decryptVaultItem (Sealed.ciphertext sealed)
                     (Sealed.iv sealed) Scenario.registration_key)
            Scenario.unlucky = Ok Scenario.example_payload.
Proof.
  split; [reflexivity|].
  apply (C3_seal_open_round_trip (L := ModelPlatformFacts.sealing_laws)).
  reflexivity.
Defined.

Example round_trip_runs :
  outcome (decryptVaultItem (Sealed.ciphertext Scenario.sealed_example)
             (Sealed.iv Scenario.sealed_example) Scenario.registration_key)
    Scenario.start = Ok Scenario.example_payload.
Proof. vm_compute. reflexivity. Qed.

Lemma base64ToBuffer_error s e :
  base64ToBuffer s = Throw e -> e = InvalidCharacterError.
Proof.
  unfold base64ToBuffer, Base64.atob. intros He.
  repeat match type of He with
         | context [if ?b then _ else _] => destruct b
         | context [match ?o with Some _ => _ | None => _ end] => destruct o
         end; congruence.
Qed.

(* ================================================================== *)
(** * One flipped bit *)
(* ================================================================== *)

Lemma flip_byte_neq x i : i < 8 -> flip_byte x i <> x.
Proof.
  intros Hi.
  assert (H : In i [0; 1; 2; 3; 4; 5; 6; 7]) by (cbn [In]; lia).
  cbn [In] in H.
  intros E. apply (f_equal Byte.to_N) in E.
  destruct H as [<-|[<-|[<-|[<-|[<-|[<-|[<-|[<-|[]]]]]]]]];
    destruct x; vm_compute in E; discriminate E.
Qed.

Lemma flip_bytes_length b : forall pos i,
  length (flip_bytes b pos i) = length b.
Proof.
  induction b as [|x r IH]; intros [|pos] i; cbn [flip_bytes length];
    try reflexivity.
  now rewrite IH.
Qed.

Lemma flip_bytes_neq b : forall pos i,
  (pos < length b)%nat -> i < 8 -> flip_bytes b pos i <> b.
Proof.
  induction b as [|x r IH]; intros [|pos] i; cbn [flip_bytes length];
    intros Hpos Hi; try lia.
  - intros [= E]. now apply (@flip_byte_neq x i Hi).
  - intros [= E]. apply (IH pos i); [lia | exact Hi | exact E].
Qed.

Lemma flip_bytes_app a b : forall pos i,
  flip_bytes (a ++ b) pos i
  = if (pos <? length a)%nat then flip_bytes a pos i ++ b
    else a ++ flip_bytes b (pos - length a) i.
Proof.
  induction a as [|x r IH]; intros pos i.
  - cbn [app length]. now rewrite Nat.sub_0_r.
  - destruct pos as [|pos]; [reflexivity|].
    cbn [app flip_bytes length]. rewrite IH.
    change (S pos <? S (length r))%nat with (pos <? length r)%nat.
    now destruct (pos <? length r)%nat.
Qed.

Lemma app_inj_length {A} (a : list A) : forall a' b b',
  a ++ b = a' ++ b' -> length a = length a' -> a = a' /\ b = b'.
Proof.
  induction a as [|x r IH]; intros [|y r'] b b'; cbn [app length];
    intros E Hl; try discriminate Hl.
  - now split.
  - injection E as -> E. destruct (IH r' b b' E) as [-> ->]; [lia|].
    now split.
Qed.

(** A changed bit shows in a byte array written twice. *)
Lemma flip_doubled p m b pos i :
  (pos < length (p ++ m ++ m))%nat -> i < 8 ->
  flip_bytes (p ++ m ++ m) pos i <> p ++ b ++ b.
Proof.
  intros Hpos Hi E.
  assert (Hl : length b = length m).
  { apply (f_equal (@length byte)) in E.
    rewrite flip_bytes_length, !length_app in E. lia. }
  rewrite !length_app in Hpos.
  rewrite flip_bytes_app in E.
  destruct (Nat.ltb_spec pos (length p)) as [Hp|Hp].
  - apply app_inj_length in E; [|apply flip_bytes_length].
    destruct E as [E _]. now apply (@flip_bytes_neq p pos i Hp Hi).
  - apply app_inv_head in E. rewrite flip_bytes_app in E.
    destruct (Nat.ltb_spec (pos - length p) (length m)) as [Hm|Hm].
    + apply app_inj_length in E; [|rewrite flip_bytes_length; lia].
      destruct E as [E <-]. now apply (@flip_bytes_neq m _ i Hm Hi).
    + apply app_inj_length in E; [|lia].
      destruct E as [<- E].
      apply (@flip_bytes_neq m (pos - length p - length m) i);
        [lia | exact Hi | exact E].
Qed.

(* ================================================================== *)
(** * The ideal cipher keeps the laws *)
(* ================================================================== *)

Module IdealCipherFacts.
Import IdealCipher.

Lemma ones_prefix n : forall n' (u v : bytes),
  repeat x01 n ++ x00 :: u = repeat x01 n' ++ x00 :: v -> n = n' /\ u = v.
Proof.
  induction n as [|n IH]; intros [|n'] u v; cbn [repeat app]; intros E;
    try discriminate E.
  - injection E as ->. now split.
  - injection E as E. destruct (IH n' u v E) as [-> ->]. now split.
Qed.

(** No frame is the beginning of another. *)
Lemma frame_prefix a b (u v : bytes) :
  frame a ++ u = frame b ++ v -> a = b /\ u = v.
Proof.
  unfold frame. rewrite <- !app_assoc. cbn [app]. intros E.
  apply ones_prefix in E. destruct E as [Hl E].
  now apply app_inj_length in E.
Qed.

Lemma pack_inj k iv m k' iv' m' :
  pack k iv m = pack k' iv' m' -> k = k' /\ iv = iv'.
Proof.
  unfold pack. intros E.
  apply frame_prefix in E. destruct E as [-> E].
  apply frame_prefix in E. destruct E as [-> _]. now split.
Qed.

Lemma open_some k iv c m : pack_open k iv c = Some m -> c = pack k iv m.
Proof.
  unfold pack_open.
  set (m0 := firstn _ _).
  destruct (ModelPlatform.bytes_eqb c (pack k iv m0)) eqn:E;
    [|discriminate].
  intros [= <-]. now apply ModelPlatformFacts.bytes_eqb_eq.
Qed.

Lemma ideal_open_seal k iv m c :
  pack_seal k iv m = Some c -> pack_open k iv c = Some m.
Proof.
  unfold pack_seal, pack_open. intros [= <-]. cbv zeta.
  assert (Hrest : skipn (length (frame k ++ frame iv)) (pack k iv m) = m ++ m).
  { unfold pack. rewrite app_assoc, skipn_app, skipn_all, Nat.sub_diag.
    reflexivity. }
  rewrite Hrest, length_app.
  replace (length m + length m)%nat with (2 * length m)%nat by lia.
  rewrite Nat.div2_double, (ModelPlatformFacts.firstn_exact m m eq_refl).
  now rewrite ModelPlatformFacts.bytes_eqb_refl.
Qed.

Lemma ideal_sealing_laws : SealingLaws ideal_platform.
Proof.
  constructor.
  - intros s Hs. apply andb_true_iff in Hs. destruct Hs as [Hs _].
    apply ModelPlatformFacts.decode_encode_text.
    apply (ModelPlatformFacts.well_formed_bounded_fuel (n := length s));
      [lia | exact Hs].
  - intros p. change (JSON_stringify p) with (ModelPlatform.stringify p).
    unfold utf8_faithful.
    rewrite (ModelPlatformFacts.small_units_well_formed
               (ModelPlatformFacts.stringify_small p)).
    now rewrite (ModelPlatformFacts.small_units_no_bom
                   (ModelPlatformFacts.stringify_small p)).
  - exact ModelPlatformFacts.parse_stringify.
  - intros k iv m _. discriminate.
  - exact ideal_open_seal.
Qed.

Lemma ideal_authentication_laws : AuthenticationLaws ideal_platform.
Proof.
  constructor.
  - intros k iv m c pos i [= <-] Hpos Hi.
    change (pack_open k iv (flip_bytes (pack k iv m) pos i) = None).
    destruct (pack_open k iv (flip_bytes (pack k iv m) pos i)) as [b|] eqn:E;
      [|reflexivity].
    apply open_some in E. exfalso. revert Hpos E. unfold pack.
    rewrite !(app_assoc (frame k)). intros Hpos E.
    exact (flip_doubled _ _ b Hpos Hi E).
  - intros k iv iv' m c [= <-] _ _ Hne.
    change (pack_open k iv' (pack k iv m) = None).
    destruct (pack_open k iv' (pack k iv m)) as [b|] eqn:E; [|reflexivity].
    apply open_some, pack_inj in E. destruct E as [_ E]. congruence.
  - intros k k' iv m c [= <-] Hne.
    change (pack_open k' iv (pack k iv m) = None).
    destruct (pack_open k' iv (pack k iv m)) as [b|] eqn:E; [|reflexivity].
    apply open_some, pack_inj in E. destruct E as [E _]. congruence.
Qed.

End IdealCipherFacts.

(* ================================================================== *)
(** * The tamper law *)
(* ================================================================== *)

Section TamperLaw.

Context {W : WebPlatform}.

(** The bytes that [encrypt] sealed, behind the two texts it returned. *)
Lemma encrypt_sealed_bytes plaintext key sealed w :
  outcome (encrypt plaintext key None) w = Ok sealed ->
  exists ciphertext,
    key_algorithm key = AES_GCM
    /\ AES_GCM_encrypt (key_raw key) (random_bytes w 12)
         (TextEncoder_encode plaintext) = Some ciphertext
    /\ base64ToBuffer (Sealed.ciphertext sealed) = Ok ciphertext
    /\ base64ToBuffer (Sealed.iv sealed) = Ok (random_bytes w 12).
Proof.
  unfold outcome. rewrite encrypt_run. unfold subtle_encrypt.
  destruct (key_algorithm key); [discriminate|].
  destruct (AES_GCM_encrypt _ _ _) as [c|]; [|discriminate].
  cbn [fst]. intros E. exists c.
  assert (Hs : Sealed.make (Base64.encode (map Byte.to_N c))
                 (Base64.encode (map Byte.to_N (random_bytes w 12))) = sealed)
    by congruence.
  subst sealed. cbn [Sealed.ciphertext Sealed.iv].
  now rewrite !base64ToBuffer_encode.
Qed.

Lemma rejected_bytes_fail ciphertextBase64 ivBase64 key ciphertext iv w :
  base64ToBuffer ciphertextBase64 = Ok ciphertext ->
  base64ToBuffer ivBase64 = Ok iv ->
  key_algorithm key = AES_GCM ->
  AES_GCM_decrypt (key_raw key) iv ciphertext = None ->
  fails_with OperationError ciphertextBase64 ivBase64 key w.
Proof.
  intros Hc Hiv Hk Hd. unfold fails_with.
  rewrite decryptVaultItem_run. unfold outcome. rewrite decrypt_run.
  cbn [fst]. unfold subtle_decrypt. rewrite Hc, Hiv, Hk, Hd. now split.
Qed.

Lemma undecodable_text_fails ciphertextBase64 ivBase64 key w :
  is_ok (base64ToBuffer ciphertextBase64)
  && is_ok (base64ToBuffer ivBase64) = false ->
  fails_with InvalidCharacterError ciphertextBase64 ivBase64 key w.
Proof.
  intros H. unfold fails_with.
  rewrite decryptVaultItem_run. unfold outcome. rewrite decrypt_run.
  cbn [fst].
  destruct (base64ToBuffer ciphertextBase64) as [c|e] eqn:Hc.
  - destruct (base64ToBuffer ivBase64) as [iv|e] eqn:Hiv;
      [discriminate H|].
    apply base64ToBuffer_error in Hiv as ->. now split.
  - apply base64ToBuffer_error in Hc as ->. now split.
Qed.

Lemma other_algorithm_fails ciphertextBase64 ivBase64 key ciphertext iv w :
  base64ToBuffer ciphertextBase64 = Ok ciphertext ->
  base64ToBuffer ivBase64 = Ok iv ->
  key_algorithm key = PBKDF2 ->
  fails_with InvalidAccessError ciphertextBase64 ivBase64 key w.
Proof.
  intros Hc Hiv Hk. unfold fails_with.
  rewrite decryptVaultItem_run. unfold outcome. rewrite decrypt_run.
  cbn [fst]. unfold subtle_decrypt. rewrite Hc, Hiv, Hk. now split.
Qed.

Context {A : AuthenticationLaws W}.


End TamperLaw.


(** On both platforms every one of the single-bit changes is met with an
    [OperationError]: of the 224 bits of ciphertext and tag and the 96 bits
    of the nonce of [Scenario.sealed_secret], and of the bits of
    [IdealCipher.ideal_secret]; and what was sealed on the ideal cipher
    opens when nothing is changed. *)
Example every_flipped_bit_is_rejected :
  length (Scenario.value [] (base64ToBuffer
                               (Sealed.ciphertext Scenario.sealed_secret)))
  = 28%nat
  /\ every_flip (Sealed.ciphertext Scenario.sealed_secret)
       (fun c => rejected c (Sealed.iv Scenario.sealed_secret)
                   Scenario.key_one Scenario.start) = true
  /\ every_flip (Sealed.iv Scenario.sealed_secret)
       (fun iv => rejected (Sealed.ciphertext Scenario.sealed_secret) iv
                    Scenario.key_one Scenario.start) = true
  /\ every_flip (Sealed.ciphertext IdealCipher.ideal_secret)
       (fun c => rejected (W := IdealCipher.ideal_platform) c
                   (Sealed.iv IdealCipher.ideal_secret)
                   Scenario.key_one Scenario.start) = true
  /\ every_flip (Sealed.iv IdealCipher.ideal_secret)
       (fun iv => rejected (W := IdealCipher.ideal_platform)
                    (Sealed.ciphertext IdealCipher.ideal_secret) iv
                    Scenario.key_one Scenario.start) = true
  /\ outcome (decrypt (W := IdealCipher.ideal_platform)
                (Sealed.ciphertext IdealCipher.ideal_secret)
                (Sealed.iv IdealCipher.ideal_secret) Scenario.key_one)
       Scenario.start = Ok (js "secret")
  /\ outcome (decryptVaultItem (W := IdealCipher.ideal_platform)
                (Sealed.ciphertext IdealCipher.ideal_item)
                (Sealed.iv IdealCipher.ideal_item) Scenario.key_one)
       Scenario.start = Ok Scenario.example_payload.
Proof.
  split; [vm_compute; reflexivity|].
  split; [vm_compute; reflexivity|].
  split; [vm_compute; reflexivity|].
  split; [vm_compute; reflexivity|].
  split; [vm_compute; reflexivity|].
  split; vm_compute; reflexivity.
Qed.

Example sealed_secret_text :
  length (Sealed.ciphertext Scenario.sealed_secret) = 40%nat
  /\ skipn 36 (Sealed.ciphertext Scenario.sealed_secret) = js "YA=="
  /\ skipn 36 (flip_bit (Sealed.ciphertext Scenario.sealed_secret) 37 1)
     = js "YC==".
Proof. vm_compute. repeat split. Qed.


(* ================================================================== *)
(** * Nonces *)
(* ================================================================== *)

Section Nonces.

Context {W : WebPlatform} {L : SealingLaws W} {K : NonceLaws W}.

Lemma encode_inj a b :
  Base64.encode (map Byte.to_N a) = Base64.encode (map Byte.to_N b) -> a = b.
Proof.
  intros H. apply (@bufferToBase64_inj a b (Base64.encode (map Byte.to_N b))).
  - now rewrite bufferToBase64_encode, H.
  - apply bufferToBase64_encode.
Qed.

(** C7, as the code has it.  [encryptVaultItem] passes no nonce, and
    [encrypt] without [ivBase64] draws exactly twelve bytes from the random
    source, seals under them and returns their base64 text; a second seal
    draws the next twelve.  Two seals of one payload under one key return
    different nonces and different ciphertexts whenever the two draws differ.
    [encrypt] with a non-empty [ivBase64] draws nothing and seals under the
    caller's nonce. *)
Theorem C7_nonce_is_drawn_unless_supplied
  (payload : Payload.t) (key : CryptoKey) (w : World) :
  key_algorithm key = AES_GCM ->
  exists first second,
    outcome (encryptVaultItem payload key) w = Ok first
    /\ outcome (encryptVaultItem payload key)
         (after (encryptVaultItem payload key) w) = Ok second
    /\ base64ToBuffer (Sealed.iv first) = Ok (random_bytes w 12)
    /\ length (random_bytes w 12) = 12%nat
    /\ drawn (after (encryptVaultItem payload key) w) = (drawn w + 12)%nat
    /\ base64ToBuffer (Sealed.iv second)
       = Ok (random_bytes (after (encryptVaultItem payload key) w) 12)
    /\ (random_bytes w 12
        <> random_bytes (after (encryptVaultItem payload key) w) 12 ->
        Sealed.iv first <> Sealed.iv second
        /\ Sealed.ciphertext first <> Sealed.ciphertext second)
    /\ forall plaintext c r,
         after (encrypt plaintext key (Some (c :: r))) w = w
         /\ forall sealed,
              outcome (encrypt plaintext key (Some (c :: r))) w = Ok sealed ->
              base64ToBuffer (Sealed.iv sealed) = base64ToBuffer (c :: r).
Proof.
  intros Hk.
  destruct (@seal_then_open W L payload key w Hk) as (c1 & Hc1 & Hrun1 & _).
  set (w1 := after (encryptVaultItem payload key) w).
  destruct (@seal_then_open W L payload key w1 Hk) as (c2 & Hc2 & Hrun2 & _).
  assert (Hw1 : w1 = with_drawn (drawn w + 12) w)
    by (unfold w1, after; now rewrite Hrun1).
  eexists. eexists. unfold outcome. rewrite Hrun1, Hrun2. cbn [fst].
  split; [reflexivity|]. split; [reflexivity|].
  cbn [Sealed.iv Sealed.ciphertext].
  split; [apply base64ToBuffer_encode|].
  split; [apply random_bytes_length|].
  split; [now rewrite Hw1|].
  split; [apply base64ToBuffer_encode|].
  split.
  - intros Hne. split.
    + intros H. now apply encode_inj in H.
    + intros H. apply encode_inj in H. subst c2.
      apply (gcm_nonce_sensitive (key_raw key)
               (TextEncoder_encode (JSON_stringify payload))
               (random_bytes_length w 12) (random_bytes_length w1 12) Hne).
      congruence.
  - intros plaintext c r. unfold after. rewrite encrypt_run_supplied.
    split; [reflexivity|]. cbn [fst]. intros sealed.
    destruct (base64ToBuffer (c :: r)) as [iv|e]; [|discriminate].
    destruct (subtle_encrypt iv key _) as [ct|e]; [|discriminate].
    intros [= <-]. cbn [Sealed.iv]. apply base64ToBuffer_encode.
Qed.

End Nonces.

Lemma C7_nonce_is_drawn_unless_supplied_witness :
  key_algorithm Scenario.registration_key = AES_GCM
  /\ exists first second,
       outcome (encryptVaultItem Scenario.example_payload
                  Scenario.registration_key) Scenario.start = Ok first
       /\ outcome (encryptVaultItem Scenario.example_payload
                     Scenario.registration_key)
            (after (encryptVaultItem Scenario.example_payload
                      Scenario.registration_key) Scenario.start) = Ok second
       /\ Sealed.iv first <> Sealed.iv second
       /\ Sealed.ciphertext first <> Sealed.ciphertext second.
Proof.
  split; [reflexivity|].
  destruct (@C7_nonce_is_drawn_unless_supplied
              ModelPlatform.platform ModelPlatformFacts.sealing_laws
              ModelPlatformFacts.nonce_laws
              Scenario.example_payload Scenario.registration_key
              Scenario.start eq_refl)
    as (first & second & H1 & H2 & _ & _ & _ & _ & Hdiff & _).
  exists first, second. split; [exact H1|]. split; [exact H2|].
  apply Hdiff. vm_compute. discriminate.
Defined.

(** C7 fails as stated: [encrypt] accepts a nonce from its caller.  Called
    twice with the same [ivBase64] it draws no random byte and returns the
    same nonce and the same ciphertext both times, on every platform. *)
Lemma C7_supplied_nonce_is_reused :
  outcome (encrypt (js "secret") Scenario.key_one (Some Scenario.a_nonce))
    Scenario.start = Ok Scenario.sealed_with_nonce
  /\ after (encrypt (js "secret") Scenario.key_one (Some Scenario.a_nonce))
       Scenario.start = Scenario.start
  /\ outcome (encrypt (js "secret") Scenario.key_one (Some Scenario.a_nonce))
       (after (encrypt (js "secret") Scenario.key_one
                 (Some Scenario.a_nonce)) Scenario.start)
     = Ok Scenario.sealed_with_nonce
  /\ Sealed.iv Scenario.sealed_with_nonce = Scenario.a_nonce
  /\ (forall (W : WebPlatform) plaintext key c r w1 w2,
        outcome (encrypt plaintext key (Some (c :: r))) w1
        = outcome (encrypt plaintext key (Some (c :: r))) w2).
Proof.
  split; [vm_compute; reflexivity|].
  split; [reflexivity|].
  split; [vm_compute; reflexivity|].
  split; [vm_compute; reflexivity|].
  intros W plaintext key c r w1 w2. unfold outcome.
  now rewrite !encrypt_run_supplied.
Qed.

(* ================================================================== *)
(** * The password generator *)
(* ================================================================== *)

Lemma char_at_in_charset charset v :
  charset <> [] ->
  exists c, char_at charset (v mod N.of_nat (length charset)) = [c]
            /\ In c charset.
Proof.
  intros Hne. unfold char_at.
  assert (Hlt : (N.to_nat (v mod N.of_nat (length charset)) < length charset)%nat).
  { assert (N.of_nat (length charset) <> 0) by (destruct charset; [easy | cbn; lia]).
    pose proof (N.mod_lt v (N.of_nat (length charset)) H). lia. }
  destruct (nth_error charset _) as [c|] eqn:E.
  - exists c. split; [reflexivity|]. eapply nth_error_In, E.
  - apply nth_error_None in E. lia.
Qed.

Lemma picks_length charset randomValues : forall result,
  charset <> [] ->
  length (fold_left
            (fun result v =>
               result ++ char_at charset (v mod N.of_nat (length charset)))
            randomValues result)
  = (length result + length randomValues)%nat.
Proof.
  induction randomValues as [|v l IH]; intros result Hne; cbn [fold_left].
  - cbn. lia.
  - rewrite IH by assumption.
    destruct (char_at_in_charset v Hne) as (c & -> & _).
    rewrite length_app. cbn. lia.
Qed.

(** With the four classes enabled the result has as many characters as
    asked, whatever values are drawn. *)
Lemma generatePassword_length n w :
  N.of_nat n <= 16384 ->
  exists s, outcome (generatePassword (allClasses n)) w = Ok s
            /\ length s = n.
Proof.
  intros Hn. unfold outcome, generatePassword, bind, ret,
    getRandomValues_Uint32. cbn [allClasses PasswordOptions.length
    PasswordOptions.includeUppercase PasswordOptions.includeLowercase
    PasswordOptions.includeNumbers PasswordOptions.includeSymbols app].
  destruct (N.ltb_spec 65536 (4 * N.of_nat n)); [lia|]. cbn [fst].
  eexists. split; [reflexivity|].
  change (((uppercase ++ lowercase) ++ numbers) ++ symbols)
    with (js "ABCDEFGHIJKLMNOPQRSTUVWXYZabcdefghijklmnopqrstuvwxyz0123456789!@#$%^&*()_+-=[]{}|;:,.<>?").
  cbn [js]. rewrite picks_length by discriminate.
  cbn [length]. now rewrite length_map, length_seq.
Qed.

(** C8, evaluated: with the four classes enabled and length 20, on random
    values none of which selects an uppercase letter or a digit,
    [generatePassword] returns twenty characters among which there is no
    uppercase letter and no digit. *)
Theorem C8_generated_password_can_miss_a_class :
  outcome (generatePassword (allClasses 20)) Scenario.unlucky
  = Ok (js "tsrqponmlkji;|}{][=-")
  /\ length (js "tsrqponmlkji;|}{][=-") = 20%nat
  /\ test_upper (js "tsrqponmlkji;|}{][=-") = false
  /\ test_digit (js "tsrqponmlkji;|}{][=-") = false
  /\ has_every_class (js "tsrqponmlkji;|}{][=-") = false.
Proof. vm_compute. repeat split. Qed.

(* ================================================================== *)
(** * Unlocking *)
(* ================================================================== *)

Section Unlocking.

Context {W : WebPlatform} {D : DerivationLaws W}.

Lemma deriveEncryptionKey_run password saltBase64 w :
  deriveEncryptionKey password saltBase64 w
  = match base64ToBuffer saltBase64 with
    | Throw e => (Throw e, w)
    | Ok salt => (Ok (derived_key password salt), w)
    end.
Proof.
  unfold deriveEncryptionKey, bind, ret. rewrite deriveKeys_run.
  destruct (base64ToBuffer saltBase64); reflexivity.
Qed.

Lemma bind_run {A B} (m : M A) (k : A -> M B) w :
  bind m k w
  = match m w with
    | (Ok a, w') => k a w'
    | (Throw e, w') => (Throw e, w')
    end.
Proof. reflexivity. Qed.

Lemma with_console_same w : with_console (console w ++ []) w = w.
Proof. destruct w. unfold with_console. cbn. now rewrite app_nil_r. Qed.

Lemma with_console_twice w a b :
  with_console (console (with_console (console w ++ a) w) ++ b)
    (with_console (console w ++ a) w)
  = with_console (console w ++ a ++ b) w.
Proof. destruct w. unfold with_console. cbn. now rewrite app_assoc. Qed.

Lemma decryptVaultItem_pure ciphertextBase64 ivBase64 key w :
  decryptVaultItem ciphertextBase64 ivBase64 key w
  = (open_payload key ciphertextBase64 ivBase64, w).
Proof.
  rewrite decryptVaultItem_run. unfold outcome. rewrite decrypt_run.
  cbn [fst]. unfold open_payload.
  destruct (base64ToBuffer ciphertextBase64); [|reflexivity].
  destruct (base64ToBuffer ivBase64); [|reflexivity].
  destruct (subtle_decrypt _ key _); reflexivity.
Qed.

(** The loop never throws: an item that does not open is reported and
    dropped. *)
Lemma decryptAll_run key vaultItems : forall decryptedItems w,
  exists ids,
    decryptAll key vaultItems decryptedItems w
    = (Ok (decryptedItems ++ opened key vaultItems),
       with_console (console w ++ ids) w).
Proof.
  induction vaultItems as [|item rest IH]; intros acc w; cbn [decryptAll opened].
  - exists []. unfold ret. now rewrite with_console_same, app_nil_r.
  - unfold bind at 1. unfold try_catch, bind at 1.
    rewrite decryptVaultItem_pure.
    destruct (open_payload key _ _) as [payload|e].
    + unfold ret at 1. destruct (IH (acc ++ [Item.of_row item payload]) w)
        as (ids & ->).
      exists ids. now rewrite <- app_assoc.
    + unfold console_error, modify, bind, ret.
      destruct (IH acc (with_console (console w ++ [ItemRow.id item]) w))
        as (ids & ->).
      exists (ItemRow.id item :: ids). rewrite with_console_twice.
      reflexivity.
Qed.

Lemma getProfile_run userId w :
  getProfile userId w
  = (outcome (getProfile userId) w, with_requests (S (requests w)) w).
Proof.
  unfold outcome, getProfile, request, bind.
  destruct (store_fault w (requests w)); [reflexivity|].
  cbn [profiles with_requests].
  destruct (filter _ (profiles w)) as [|d [|]]; reflexivity.
Qed.

Lemma getProfile_error userId w e :
  outcome (getProfile userId) w = Throw e -> e = PostgrestError.
Proof.
  unfold outcome, getProfile, request, bind.
  destruct (store_fault w (requests w)); [cbn; congruence|].
  cbn [profiles with_requests].
  destruct (filter _ (profiles w)) as [|d [|]]; cbn; congruence.
Qed.

Lemma getVaultItems_run userId w :
  getVaultItems userId w
  = (outcome (getVaultItems userId) w, with_requests (S (requests w)) w).
Proof.
  unfold outcome, getVaultItems, request, bind.
  destruct (store_fault w (requests w)); reflexivity.
Qed.

Lemma getVaultItems_error userId w e :
  outcome (getVaultItems userId) w = Throw e -> e = PostgrestError.
Proof.
  unfold outcome, getVaultItems, request, bind.
  destruct (store_fault w (requests w)); cbn; congruence.
Qed.

(** The page is no part of what the record store answers. *)
Lemma getProfile_page userId p w :
  outcome (getProfile userId) (with_page p w) = outcome (getProfile userId) w.
Proof.
  unfold outcome, getProfile, request, bind.
  cbn [store_fault requests with_page].
  destruct (store_fault w (requests w)); [reflexivity|].
  cbn [profiles with_requests with_page].
  destruct (filter _ (profiles w)) as [|d [|]]; reflexivity.
Qed.

Lemma getVaultItems_page userId p n w :
  outcome (getVaultItems userId) (with_requests n (with_page p w))
  = outcome (getVaultItems userId) (with_requests n w).
Proof.
  unfold outcome, getVaultItems, request, bind.
  cbn [store_fault requests with_page with_requests].
  destruct (store_fault w n); reflexivity.
Qed.

Lemma after_getProfile userId w :
  after (getProfile userId) w = with_requests (S (requests w)) w.
Proof. unfold after. now rewrite getProfile_run. Qed.

(** One attempt, in every case: it is refused for one of the reasons of
    [refusal] and then leaves session and page as they were, or it goes
    through and installs the derived key and the rows that open under it.
    The tables of the record store are never written. *)
Lemma unlock_attempt_cases userId showPassword p w :
  let r := unlock_attempt userId showPassword (with_page p w) in
  profiles (snd r) = profiles w
  /\ vault_items (snd r) = vault_items w
  /\ match fst r with
     | Throw e =>
         refusal w userId e /\ vault (snd r) = vault w /\ page (snd r) = p
     | Ok _ =>
         exists uid profile salt rows,
           userId = Some uid /\ uid <> []
           /\ outcome (getProfile uid) w = Ok profile
           /\ ~ lockout_active w profile
           /\ base64ToBuffer (Profile.kdf_salt profile) = Ok salt
           /\ outcome (getVaultItems uid) (after (getProfile uid) w) = Ok rows
           /\ vault (snd r)
              = Store.setVaultData
                  (opened (derived_key showPassword salt) rows) []
                  (Store.setUnlocked (derived_key showPassword salt)
                     (Profile.kdf_salt profile) (vault w))
           /\ page (snd r) = Page.make [] (Page.loading p) (Page.error p)
     end.
Proof.
  intros r. assert (Hr : r = unlock_attempt userId showPassword (with_page p w))
    by reflexivity.
  clearbody r. unfold unlock_attempt in Hr.
  destruct userId as [[|c u]|].
  1,3: rewrite bind_run in Hr; subst r; cbn; repeat split; constructor; auto.
  rewrite bind_run in Hr. unfold ret at 1 in Hr. cbv beta iota in Hr.
  rewrite bind_run, getProfile_run, getProfile_page in Hr.
  destruct (outcome (getProfile (c :: u)) w) as [profile|e] eqn:Hget.
  2:{ subst r. cbn. repeat split.
      pose proof (getProfile_error _ _ Hget) as ->.
      now apply refuse_store with (uid := c :: u). }
  rewrite bind_run in Hr.
  set (w1 := with_requests (S (requests (with_page p w))) (with_page p w))
    in Hr.
  assert (Hlock :
            (match Profile.failed_unlock_locked_until profile with
             | Some lockedUntil =>
                 bind Date_now (fun now =>
                   if (now <? lockedUntil)%Z
                   then bind Date_now (fun now0 =>
                          throw (AccountLocked
                                   (ceil_div (lockedUntil - now0) 60000)))
                   else ret tt)
             | None => ret tt
             end) w1
            = (match Profile.failed_unlock_locked_until profile with
               | Some t => if (clock w <? t)%Z
                           then Throw (AccountLocked
                                         (ceil_div (t - clock w) 60000))
                           else Ok tt
               | None => Ok tt
               end, w1)).
  { destruct (Profile.failed_unlock_locked_until profile) as [t|];
      [|reflexivity].
    unfold bind, Date_now, throw, ret. cbn [clock with_page with_requests w1].
    destruct (clock w <? t)%Z; reflexivity. }
  rewrite Hlock in Hr. clear Hlock.
  destruct (match Profile.failed_unlock_locked_until profile with
            | Some t => if (clock w <? t)%Z
                        then Throw (AccountLocked
                                      (ceil_div (t - clock w) 60000))
                        else Ok tt
            | None => Ok tt
            end) as [[]|e] eqn:Hchk.
  2:{ destruct (Profile.failed_unlock_locked_until profile) as [t|] eqn:Ht;
        [|discriminate].
      destruct (Z.ltb_spec (clock w) t) as [Hlt|Hge]; [|discriminate].
      injection Hchk as <-. subst r. cbn. repeat split.
      now apply refuse_locked with (uid := c :: u) (profile := profile). }
  assert (Hfree : ~ lockout_active w profile).
  { intros (t & Ht & Hlt). rewrite Ht in Hchk.
    apply Z.ltb_lt in Hlt. rewrite Hlt in Hchk. discriminate. }
  clear Hchk.
  rewrite bind_run, deriveEncryptionKey_run in Hr.
  destruct (base64ToBuffer (Profile.kdf_salt profile)) as [salt|e] eqn:Hsalt.
  2:{ pose proof (base64ToBuffer_error _ Hsalt) as ->. subst r. cbn.
      repeat split.
      now apply refuse_salt with (uid := c :: u) (profile := profile). }
  rewrite bind_run, getVaultItems_run in Hr. unfold w1 in Hr.
  change (requests (with_page p w)) with (requests w) in Hr.
  rewrite getVaultItems_page, <- (after_getProfile (c :: u) w) in Hr.
  destruct (outcome (getVaultItems (c :: u)) (after (getProfile (c :: u)) w))
    as [rows|e] eqn:Hrows.
  2:{ pose proof (getVaultItems_error _ _ Hrows) as ->. subst r. cbn.
      repeat split.
      now apply refuse_items with (uid := c :: u) (profile := profile)
                                  (salt := salt). }
  rewrite bind_run in Hr.
  match type of Hr with
  | context [decryptAll ?k ?l [] ?w2] =>
      destruct (decryptAll_run k l [] w2) as (ids & Hall)
  end.
  rewrite Hall in Hr. subst r. cbn. repeat split.
  exists (c :: u), profile, salt, rows. repeat split; auto; discriminate.
Qed.

(** [handleUnlock] around the attempt: the page shows the error of a
    refused attempt, and stops loading either way. *)
Lemma handleUnlock_run w :
  let p := Page.make (Page.showPassword (page w)) true None in
  let r := unlock_attempt (Store.userId (vault w)) (Page.showPassword (page w))
             (with_page p w) in
  handleUnlock w
  = (Ok tt,
     with_page
       (Page.make (Page.showPassword (page (snd r))) false
          match fst r with
          | Ok _ => Page.error (page (snd r))
          | Throw e => Some e
          end)
       (snd r)).
Proof.
  intros p r. unfold handleUnlock, bind, get_world, setLoading, setError,
    modify, try_catch. cbv beta iota.
  change (with_page _ (with_page _ w)) with (with_page p w).
  fold r. destruct r as [[[]|e] w1]; reflexivity.
Qed.

Lemma refusal_unique w uid profile e :
  signed_in_as w uid profile ->
  refusal w (Store.userId (vault w)) e ->
  (exists t, Profile.failed_unlock_locked_until profile = Some t
             /\ (clock w < t)%Z
             /\ e = AccountLocked (ceil_div (t - clock w) 60000))
  \/ (~ lockout_active w profile
      /\ base64ToBuffer (Profile.kdf_salt profile)
         = Throw InvalidCharacterError)
  \/ (~ lockout_active w profile
      /\ outcome (getVaultItems uid) (after (getProfile uid) w)
         = Throw PostgrestError).
Proof.
  intros (Hu & Hne & Hp) Hr.
  destruct Hr as [[H|H] | uid' H H' Hp' | uid' profile' t H H' Hp' Ht Hlt
                 | uid' profile' H H' Hp' Hfree Hs
                 | uid' profile' salt H H' Hp' Hfree Hs Hrows].
  - congruence.
  - rewrite Hu in H. injection H as H. contradiction.
  - assert (uid' = uid) as -> by congruence. congruence.
  - assert (uid' = uid) as -> by congruence.
    assert (profile' = profile) as -> by congruence.
    left. now exists t.
  - assert (uid' = uid) as -> by congruence.
    assert (profile' = profile) as -> by congruence.
    right. now left.
  - assert (uid' = uid) as -> by congruence.
    assert (profile' = profile) as -> by congruence.
    right. now right.
Qed.


(** No update the record store accepts carries the lockout columns. *)
Lemma updateProfile_keeps_lockout userId updates w :
  map Profile.failed_unlock_attempts
    (profiles (after (updateProfile userId updates) w))
  = map Profile.failed_unlock_attempts (profiles w)
  /\ map Profile.failed_unlock_locked_until
       (profiles (after (updateProfile userId updates) w))
     = map Profile.failed_unlock_locked_until (profiles w).
Proof.
  unfold after, updateProfile, request, bind.
  destruct (store_fault w (requests w)); cbn; [easy|].
  split; rewrite map_map; apply map_ext; intros r;
    destruct (jsstring_eqb (Profile.id r) userId); reflexivity.
Qed.

(** C2, as the code has it.  [handleUnlock] never writes the record store:
    after any attempt, refused or not, every profile row is as before, so
    the failed-unlock counter is neither incremented nor reset and
    lockout-until is never set; nor can [updateProfile] write either column.
    The lockout is only read: while the row's lockout-until lies in the
    future, [handleUnlock] reports [AccountLocked] with the minutes left,
    whatever the password, and leaves the session store as it was. *)
Theorem C2_lockout_is_enforced_but_never_written (w : World) :
  profiles (after handleUnlock w) = profiles w
  /\ (forall uid profile t,
        signed_in_as w uid profile ->
        Profile.failed_unlock_locked_until profile = Some t ->
        (clock w < t)%Z ->
        Page.error (page (after handleUnlock w))
        = Some (AccountLocked (ceil_div (t - clock w) 60000))
        /\ vault (after handleUnlock w) = vault w)
  /\ (forall userId updates w0,
        map Profile.failed_unlock_attempts
          (profiles (after (updateProfile userId updates) w0))
        = map Profile.failed_unlock_attempts (profiles w0)
        /\ map Profile.failed_unlock_locked_until
             (profiles (after (updateProfile userId updates) w0))
           = map Profile.failed_unlock_locked_until (profiles w0)).
Proof.
  split; [|split; [|apply updateProfile_keeps_lockout]].
  - unfold after. rewrite handleUnlock_run. cbn [snd].
    pose proof (unlock_attempt_cases (Store.userId (vault w))
                  (Page.showPassword (page w))
                  (Page.make (Page.showPassword (page w)) true None) w) as H.
    cbv zeta in H. destruct H as (H & _). exact H.
  - intros uid profile t Hin Ht Hlt.
    unfold after. rewrite handleUnlock_run. cbn [snd].
    pose proof (unlock_attempt_cases (Store.userId (vault w))
                  (Page.showPassword (page w))
                  (Page.make (Page.showPassword (page w)) true None) w) as H.
    cbv zeta in H. destruct H as (_ & _ & H).
    destruct (unlock_attempt _ _ _) as [[[]|e] w1]; cbn [fst snd] in *.
    + destruct H as (uid' & profile' & salt & rows & Hu & Hne & Hp & Hfree & _).
      destruct Hin as (Hu' & _ & Hp').
      assert (uid' = uid) as -> by congruence.
      assert (profile' = profile) as -> by congruence.
      exfalso. apply Hfree. now exists t.
    + destruct H as (Href & Hv & Hpage). cbn. split; [|exact Hv].
      destruct (refusal_unique Hin Href)
        as [(t' & Ht' & _ & ->) | [(Hfree & _) | (Hfree & _)]].
      * congruence.
      * exfalso. apply Hfree. now exists t.
      * exfalso. apply Hfree. now exists t.
Qed.

End Unlocking.

Example scenario_signed_in typed attempts locked_until :
  signed_in_as (Scenario.unlock_screen typed attempts locked_until)
    Scenario.user (Scenario.profile attempts locked_until).
Proof. repeat split. discriminate. Qed.

Example scenario_rows typed attempts locked_until :
  outcome (getVaultItems Scenario.user)
    (after (getProfile Scenario.user)
       (Scenario.unlock_screen typed attempts locked_until))
  = Ok [Scenario.example_row].
Proof. reflexivity. Qed.



Example right_password_unlocks :
  Store.isUnlocked
    (vault (after handleUnlock
              (Scenario.unlock_screen Scenario.master_password 0 None)))
  = true
  /\ map Item.password
       (Store.items
          (vault (after handleUnlock
                    (Scenario.unlock_screen Scenario.master_password 0 None))))
     = [js "p@ss1234"].
Proof. vm_compute. split; reflexivity. Qed.

Lemma C2_lockout_is_enforced_but_never_written_witness :
  signed_in_as
    (Scenario.unlock_screen Scenario.master_password 5
       (Some (clock Scenario.start + 90000)%Z))
    Scenario.user
    (Scenario.profile 5 (Some (clock Scenario.start + 90000)%Z))
  /\ Page.error
       (page (after handleUnlock
                (Scenario.unlock_screen Scenario.master_password 5
                   (Some (clock Scenario.start + 90000)%Z))))
     = Some (AccountLocked 2)
  /\ Store.isUnlocked
       (vault (after handleUnlock
                 (Scenario.unlock_screen Scenario.master_password 5
                    (Some (clock Scenario.start + 90000)%Z))))
     = false.
Proof.
  split; [apply scenario_signed_in|].
  destruct (@C2_lockout_is_enforced_but_never_written
              ModelPlatform.platform ModelPlatformFacts.derivation_laws
              (Scenario.unlock_screen Scenario.master_password 5
                 (Some (clock Scenario.start + 90000)%Z)))
    as (_ & H & _).
  destruct (H Scenario.user _ (clock Scenario.start + 90000)%Z
              (scenario_signed_in _ _ _) eq_refl) as [Herr Hv].
  - cbn. lia.
  - split; [exact Herr|]. rewrite Hv. reflexivity.
Defined.

(** C2 fails as stated.  One unlock with the wrong password, under which
    the stored item does not open, leaves the failed-unlock counter at 0;
    five such attempts in a row leave the counter at 0 and lockout-until
    null, and the next attempt, with the right password, goes through; an
    unlock with the right password on a row whose counter is 3 leaves it
    at 3. *)
Lemma C2_failed_unlocks_are_not_counted :
  opened (derived_key Scenario.wrong_password
            (map byte_of_N
               [0; 1; 2; 3; 4; 5; 6; 7; 8; 9; 10; 11; 12; 13; 14; 15]))
    [Scenario.example_row] = []
  /\ Scenario.failed_attempts
       (after handleUnlock
          (Scenario.unlock_screen Scenario.wrong_password 0 None)) = [0%Z]
  /\ Scenario.failed_attempts
       (Scenario.attempts 5 Scenario.wrong_password
          (Scenario.unlock_screen Scenario.wrong_password 0 None)) = [0%Z]
  /\ Scenario.locked_until
       (Scenario.attempts 5 Scenario.wrong_password
          (Scenario.unlock_screen Scenario.wrong_password 0 None)) = [None]
  /\ Page.error
       (page (Scenario.attempts 1 Scenario.master_password
                (Scenario.attempts 5 Scenario.wrong_password
                   (Scenario.unlock_screen Scenario.wrong_password 0 None))))
     = None
  /\ map Item.password
       (Store.items
          (vault (Scenario.attempts 1 Scenario.master_password
                    (Scenario.attempts 5 Scenario.wrong_password
                       (Scenario.unlock_screen Scenario.wrong_password 0
                          None)))))
     = [js "p@ss1234"]
  /\ Scenario.failed_attempts
       (after handleUnlock
          (Scenario.unlock_screen Scenario.master_password 3 None)) = [3%Z]
  /\ Store.isUnlocked
       (vault (after handleUnlock
                 (Scenario.unlock_screen Scenario.master_password 3 None)))
     = true.
Proof. vm_compute. repeat split. Qed.

(* ================================================================== *)
(** * Base64 texts *)
(* ================================================================== *)

Lemma char_of_sextet_base64 s : is_base64_char (Base64.char_of_sextet s) = true.
Proof.
  unfold is_base64_char, is_upper, is_lower, is_digit, in_range,
    Base64.char_of_sextet, Base64.pad.
  Base64Facts.split_ifs; Base64Facts.to_arith;
    rewrite ?orb_true_iff, ?andb_true_iff, ?N.leb_le, ?N.eqb_eq; lia.
Qed.

Lemma encode_length l :
  length (Base64.encode l) = (4 * ((length l + 2) / 3))%nat.
Proof.
  unfold Base64.encode. rewrite length_app, length_map.
  induction l as [| a | a b | a b c r IH] using Base64Facts.list_ind3.
  - reflexivity.
  - reflexivity.
  - reflexivity.
  - change (length (a :: b :: c :: r)) with (3 + length r)%nat.
    rewrite Base64Facts.padding_add3.
    change (length (Base64.sextets_of_octets (a :: b :: c :: r)))
      with (4 + length (Base64.sextets_of_octets r))%nat.
    replace (3 + length r + 2)%nat with (length r + 2 + 1 * 3)%nat by lia.
    rewrite Nat.div_add by lia. lia.
Qed.

Lemma encode_alphabet l : forallb is_base64_char (Base64.encode l) = true.
Proof.
  unfold Base64.encode. rewrite forallb_app. apply andb_true_iff. split.
  - apply forallb_forall. intros c Hc. apply in_map_iff in Hc.
    destruct Hc as (s & <- & _). apply char_of_sextet_base64.
  - unfold Base64.padding. now destruct (Nat.modulo (length l) 3) as [|[|[|?]]].
Qed.

(** X1: [bufferToBase64] never throws, and [base64ToBuffer] gives back the
    bytes it was given: the two are inverse on every byte array. *)
Theorem base64_round_trip (buffer : bytes) :
  exists s, bufferToBase64 buffer = Ok s /\ base64ToBuffer s = Ok buffer.
Proof.
  exists (Base64.encode (map Byte.to_N buffer)).
  split; [apply bufferToBase64_encode | apply base64ToBuffer_encode].
Qed.

(** X2: the text [bufferToBase64] returns for [n] bytes has
    [4 * ceil(n / 3)] characters, each a letter, a digit, [+], [/] or the
    padding [=]. *)
Theorem bufferToBase64_text_shape (buffer : bytes) :
  exists s, bufferToBase64 buffer = Ok s
            /\ length s = (4 * ((length buffer + 2) / 3))%nat
            /\ forallb is_base64_char s = true.
Proof.
  exists (Base64.encode (map Byte.to_N buffer)).
  split; [apply bufferToBase64_encode|].
  split; [now rewrite encode_length, length_map | apply encode_alphabet].
Qed.

(* ================================================================== *)
(** * Salts and nonces *)
(* ================================================================== *)

Lemma generate_run n w :
  N.of_nat n <= 65536 ->
  bind (getRandomValues_Uint8 n) (fun b => lift (bufferToBase64 b)) w
  = (Ok (Base64.encode (map Byte.to_N (random_bytes w n))),
     with_drawn (drawn w + n) w).
Proof.
  intros Hn. unfold bind, getRandomValues_Uint8, lift.
  destruct (N.ltb_spec 65536 (N.of_nat n)); [lia|].
  now rewrite bufferToBase64_encode.
Qed.

(** X3: [generateSalt] never fails.  It takes the next 16 bytes of the
    random source, and no more, and returns their base64 text, 24
    characters long, from which [base64ToBuffer] reads the 16 bytes back. *)
Theorem generateSalt_is_16_fresh_bytes (w : World) :
  exists salt,
    outcome generateSalt w = Ok salt
    /\ base64ToBuffer salt = Ok (random_bytes w 16)
    /\ length (random_bytes w 16) = 16%nat
    /\ length salt = 24%nat
    /\ after generateSalt w = with_drawn (drawn w + 16) w.
Proof.
  unfold outcome, after, generateSalt, SALT_LENGTH.
  rewrite generate_run by (cbn; lia). cbn [fst snd].
  eexists. split; [reflexivity|].
  split; [apply base64ToBuffer_encode|].
  split; [apply random_bytes_length|].
  split; [|reflexivity].
  now rewrite encode_length, length_map, random_bytes_length.
Qed.

(** X4: [generateIV] never fails.  It takes the next 12 bytes of the random
    source and returns their base64 text, 16 characters with no padding; a
    second call takes the 12 bytes after those. *)
Theorem generateIV_is_12_fresh_bytes (w : World) :
  exists iv iv',
    outcome generateIV w = Ok iv
    /\ base64ToBuffer iv = Ok (random_bytes w 12)
    /\ length iv = 16%nat
    /\ existsb (N.eqb Base64.pad) iv = false
    /\ after generateIV w = with_drawn (drawn w + 12) w
    /\ outcome generateIV (after generateIV w) = Ok iv'
    /\ base64ToBuffer iv'
       = Ok (map (fun i => byte_of_N (entropy w (drawn w + 12 + i)%nat))
               (seq 0 12)).
Proof.
  unfold outcome, after, generateIV, IV_LENGTH.
  rewrite !generate_run by (cbn; lia). cbn [fst snd].
  eexists. eexists. split; [reflexivity|].
  split; [apply base64ToBuffer_encode|].
  split; [now rewrite encode_length, length_map, random_bytes_length|].
  split.
  - unfold Base64.encode. rewrite length_map, random_bytes_length.
    cbn [Base64.padding Nat.modulo Nat.divmod snd fst Nat.sub].
    rewrite app_nil_r. apply not_true_is_false. intros H.
    apply existsb_exists in H. destruct H as (c & Hc & Hp).
    apply in_map_iff in Hc. destruct Hc as (s & <- & _).
    apply N.eqb_eq in Hp. symmetry in Hp. apply N.eqb_eq in Hp.
    now rewrite Base64Facts.char_of_sextet_not_pad in Hp.
  - split; [reflexivity|]. split; [reflexivity|].
    apply base64ToBuffer_encode.
Qed.

(* ================================================================== *)
(** * Keys of a password *)
(* ================================================================== *)

Section DerivedKeyFacts.

Context {W : WebPlatform} {D : DerivationLaws W}.

Lemma derived_key_usable password salt :
  key_algorithm (derived_key password salt) = AES_GCM
  /\ length (key_raw (derived_key password salt)) = 32%nat.
Proof.
  split; [reflexivity|]. cbn [derived_key key_raw].
  rewrite slice_length; [reflexivity|].
  unfold key_material. rewrite pbkdf2_length. lia.
Qed.

(** X5: registration's first two steps never fail.  [deriveKeys] on the
    salt [generateSalt] has just returned gives both keys, whatever the
    password; the salt is the next 16 random bytes, and a later
    [deriveKeys] on the stored salt text gives the same keys again. *)
Theorem fresh_salt_always_derives (password : jsstring) (w w' : World) :
  exists salt keys,
    outcome generateSalt w = Ok salt
    /\ base64ToBuffer salt = Ok (random_bytes w 16)
    /\ outcome (deriveKeys password salt) (after generateSalt w) = Ok keys
    /\ DerivedKeys.encryptionKey keys
       = derived_key password (random_bytes w 16)
    /\ outcome (deriveKeys password salt) w' = Ok keys.
Proof.
  unfold outcome, after, generateSalt, SALT_LENGTH.
  rewrite generate_run by (cbn; lia). cbn [fst snd].
  eexists. eexists. split; [reflexivity|].
  split; [apply base64ToBuffer_encode|].
  rewrite !deriveKeys_run, base64ToBuffer_encode. cbn [fst].
  repeat split.
Qed.

Context {G : DigestLaws W}.

(** X6: the verifier [deriveKeys] returns is always 44 characters of
    base64 text, so the [verificationKey.slice(0, 60)] that the login and
    registration pages send to the authentication service is the whole
    verifier; the encryption key it returns is an AES-GCM key of 32 bytes. *)
Theorem verifier_is_44_characters
  (password saltBase64 : jsstring) (w : World) (keys : DerivedKeys.t) :
  outcome (deriveKeys password saltBase64) w = Ok keys ->
  length (DerivedKeys.verificationKey keys) = 44%nat
  /\ forallb is_base64_char (DerivedKeys.verificationKey keys) = true
  /\ slice (DerivedKeys.verificationKey keys) 0 60
     = DerivedKeys.verificationKey keys
  /\ key_algorithm (DerivedKeys.encryptionKey keys) = AES_GCM
  /\ length (key_raw (DerivedKeys.encryptionKey keys)) = 32%nat.
Proof.
  unfold outcome. rewrite deriveKeys_run.
  destruct (base64ToBuffer saltBase64) as [salt|e]; [|discriminate].
  cbn [fst]. intros [= <-].
  cbn [DerivedKeys.verificationKey DerivedKeys.encryptionKey].
  assert (Hlen : length (Base64.encode
                           (map Byte.to_N
                              (SHA256 (slice (key_material password salt) 32 64))))
                 = 44%nat)
    by (now rewrite encode_length, length_map, sha256_length).
  split; [exact Hlen|]. split; [apply encode_alphabet|].
  split.
  - set (v := Base64.encode _) in *. unfold slice.
    change (skipn 0 v) with v. apply firstn_all2. rewrite Hlen. lia.
  - apply (derived_key_usable password salt).
Qed.

End DerivedKeyFacts.

Section PasswordToItem.

Context {W : WebPlatform} {D : DerivationLaws W} {L : SealingLaws W}.

(** X7: what is sealed under the key of a password is read back after the
    key is derived again.  For every password and every salt text that
    decodes, [encryptVaultItem] under the key [deriveKeys] returns never
    fails, and [decryptVaultItem] under the key a second [deriveKeys] returns
    for the same password and salt gives the payload back. *)
Theorem sealed_under_password_opens_after_rederiving
  (password saltBase64 : jsstring) (salt : bytes) (payload : Payload.t)
  (w1 w2 w3 w4 : World) :
  base64ToBuffer saltBase64 = Ok salt ->
  exists keys keys' sealed,
    outcome (deriveKeys password saltBase64) w1 = Ok keys
    /\ outcome (encryptVaultItem payload (DerivedKeys.encryptionKey keys)) w2
       = Ok sealed
    /\ outcome (deriveKeys password saltBase64) w3 = Ok keys'
    /\ outcome (decryptVaultItem (Sealed.ciphertext sealed) (Sealed.iv sealed)
                  (DerivedKeys.encryptionKey keys')) w4
       = Ok payload.
Proof.
  intros Hs. unfold outcome. rewrite !deriveKeys_run, Hs. cbn [fst].
  destruct (@seal_then_open W L payload (derived_key password salt) w2 eq_refl)
    as (c & _ & Hseal & Hopen).
  eexists. eexists. eexists. split; [reflexivity|].
  cbn [DerivedKeys.encryptionKey]. fold (derived_key password salt).
  rewrite Hseal. cbn [fst]. split; [reflexivity|]. split; [reflexivity|].
  cbn [Sealed.ciphertext Sealed.iv]. now rewrite Hopen.
Qed.

End PasswordToItem.

(* ================================================================== *)
(** * [encrypt] and [decrypt] on text *)
(* ================================================================== *)

Section TextSealing.

Context {W : WebPlatform} {L : SealingLaws W}.

(** X8: [decrypt] reads back what [encrypt] sealed.  For an AES-GCM key
    and a text that UTF-8 carries faithfully (no lone surrogate, no leading
    byte order mark), [encrypt] succeeds when it draws its nonce and when
    the caller supplies the base64 text of a 12-byte nonce, and [decrypt] on
    the returned ciphertext and iv under the same key returns the text. *)
Theorem encrypt_decrypt_round_trip
  (plaintext : jsstring) (key : CryptoKey) (ivBase64 : option jsstring)
  (w w' : World) :
  key_algorithm key = AES_GCM ->
  utf8_faithful plaintext = true ->
  (forall c r, ivBase64 = Some (c :: r) ->
     exists iv, base64ToBuffer (c :: r) = Ok iv /\ length iv = 12%nat) ->
  exists sealed,
    outcome (encrypt plaintext key ivBase64) w = Ok sealed
    /\ outcome (decrypt (Sealed.ciphertext sealed) (Sealed.iv sealed) key) w'
       = Ok plaintext.
Proof.
  intros Hk Hp Hiv.
  assert (Hgo : forall iv, length iv = 12%nat ->
            exists ct,
              subtle_encrypt iv key (TextEncoder_encode plaintext) = Ok ct
              /\ outcome (decrypt (Base64.encode (map Byte.to_N ct))
                            (Base64.encode (map Byte.to_N iv)) key) w'
                 = Ok plaintext).
  { intros iv Hlen.
    destruct (subtle_encrypt_defined iv key (TextEncoder_encode plaintext)
                Hk Hlen) as (ct & Hct & Hraw).
    exists ct. split; [exact Hct|].
    unfold outcome. rewrite decrypt_run. cbn [fst].
    rewrite !base64ToBuffer_encode. unfold subtle_decrypt.
    rewrite Hk, (gcm_decrypt_encrypt _ _ _ Hraw).
    now rewrite utf8_decode_encode. }
  assert (Hdrawn : exists sealed,
            outcome (encrypt plaintext key None) w = Ok sealed
            /\ outcome (decrypt (Sealed.ciphertext sealed) (Sealed.iv sealed)
                          key) w' = Ok plaintext).
  { destruct (Hgo _ (random_bytes_length w 12)) as (ct & Hct & Hopen).
    eexists. unfold outcome at 1. rewrite encrypt_run, Hct. cbn [fst].
    split; [reflexivity|]. exact Hopen. }
  destruct ivBase64 as [[|c r]|].
  - exact Hdrawn.
  - destruct (Hiv c r eq_refl) as (iv & Hdec & Hlen).
    destruct (Hgo iv Hlen) as (ct & Hct & Hopen).
    eexists. unfold outcome at 1. rewrite encrypt_run_supplied, Hdec, Hct.
    cbn [fst]. split; [reflexivity|]. exact Hopen.
  - exact Hdrawn.
Qed.

End TextSealing.

(* ================================================================== *)
(** * The password generator, for every choice of classes *)
(* ================================================================== *)

(** The characters picked from a charset all satisfy what every character
    of the charset satisfies. *)
Lemma picks_from charset (P : N -> bool) randomValues : forall result,
  charset <> [] ->
  forallb P charset = true ->
  forallb P result = true ->
  forallb P
    (fold_left
       (fun result v =>
          result ++ char_at charset (v mod N.of_nat (length charset)))
       randomValues result) = true.
Proof.
  induction randomValues as [|v l IH]; intros result Hne Hall Hres;
    cbn [fold_left]; [exact Hres|].
  apply IH; try assumption.
  destruct (char_at_in_charset v Hne) as (c & -> & Hin).
  rewrite forallb_app, Hres. cbn. rewrite andb_true_r.
  now apply (proj1 (forallb_forall P charset) Hall).
Qed.

Lemma generatePassword_run options w :
  N.of_nat (PasswordOptions.length options) <= 16384 ->
  exists charset,
    charset <> []
    /\ forallb (enabled options) charset = true
    /\ generatePassword options w
       = (Ok (fold_left
                (fun result v =>
                   result ++ char_at charset (v mod N.of_nat (length charset)))
                (map (fun i => entropy w (drawn w + i)%nat mod 2 ^ 32)
                   (seq 0 (PasswordOptions.length options)))
                []),
          with_drawn (drawn w + PasswordOptions.length options) w).
Proof.
  intros Hn. unfold generatePassword, bind, ret, getRandomValues_Uint32.
  destruct (N.ltb_spec 65536 (4 * N.of_nat (PasswordOptions.length options)));
    [lia|].
  destruct options as [n [] [] [] []];
    cbn [PasswordOptions.includeUppercase PasswordOptions.includeLowercase
         PasswordOptions.includeNumbers PasswordOptions.includeSymbols
         PasswordOptions.length app];
    eexists; (split; [|split; [|reflexivity]]);
    first [ discriminate | vm_compute; reflexivity ].
Qed.

(** X9: for every choice of classes and every length up to 16384,
    [generatePassword] returns a password of exactly that length whose
    every character belongs to an enabled class (to the lowercase letters
    and digits when no class is enabled), and it takes exactly [length]
    values from the random source. *)
Theorem generatePassword_length_and_classes
  (options : PasswordOptions.t) (w : World) :
  N.of_nat (PasswordOptions.length options) <= 16384 ->
  exists password,
    outcome (generatePassword options) w = Ok password
    /\ length password = PasswordOptions.length options
    /\ forallb (enabled options) password = true
    /\ after (generatePassword options) w
       = with_drawn (drawn w + PasswordOptions.length options) w.
Proof.
  intros Hn.
  destruct (generatePassword_run options w Hn) as (charset & Hne & Hall & Hrun).
  unfold outcome, after. rewrite Hrun. cbn [fst snd].
  eexists. split; [reflexivity|]. split; [|split; [|reflexivity]].
  - rewrite picks_length by assumption.
    cbn [length]. now rewrite length_map, length_seq.
  - now apply picks_from.
Qed.

(** X10: a password longer than 16384 characters cannot be generated.  For
    a length above 16384 that [new Uint32Array(length)] accepts, up to
    [Uint32Array_max_length], [crypto.getRandomValues] refuses the array of
    more than 65536 bytes, so [generatePassword] throws a
    [QuotaExceededError] and takes nothing from the random source.  A longer
    length, for which the constructor may throw a [RangeError] first, is
    not covered. *)
Theorem generatePassword_quota (options : PasswordOptions.t) (w : World) :
  16384 < N.of_nat (PasswordOptions.length options) ->
  N.of_nat (PasswordOptions.length options) <= Uint32Array_max_length ->
  generatePassword options w = (Throw QuotaExceededError, w).
Proof.
  intros Hn _. unfold generatePassword, bind, getRandomValues_Uint32.
  destruct (N.ltb_spec 65536 (4 * N.of_nat (PasswordOptions.length options)));
    [reflexivity | lia].
Qed.

(* ================================================================== *)
(** * The password generator is not uniform *)
(* ================================================================== *)

Lemma generatePassword_picks options :
  generatePassword options
  = bind (getRandomValues_Uint32 (PasswordOptions.length options))
      (fun randomValues =>
         ret (fold_left
                (fun result v =>
                   result
                   ++ char_at (charset_of options)
                        (v mod N.of_nat (length (charset_of options))))
                randomValues [])).
Proof. reflexivity. Qed.

Lemma distinct_NoDup l : distinct l = true -> NoDup l.
Proof.
  induction l as [|c r IH]; cbn; intros H; constructor.
  - apply andb_true_iff in H. destruct H as [H _].
    apply negb_true_iff in H. intros Hin.
    assert (existsb (N.eqb c) r = true)
      by (apply existsb_exists; exists c; split; [exact Hin | apply N.eqb_refl]).
    congruence.
  - apply IH. now apply andb_true_iff in H.
Qed.

Lemma residues_of_a_draw (m i v : N) :
  0 < m -> i < m ->
  (v < 2 ^ 32 /\ v mod m = i
   <-> exists k, v = i + m * k
                 /\ k < 2 ^ 32 / m + (if i <? 2 ^ 32 mod m then 1 else 0)).
Proof.
  intros Hm Hi.
  pose proof (N.div_mod (2 ^ 32) m ltac:(lia)) as Hq.
  pose proof (N.mod_lt (2 ^ 32) m ltac:(lia)) as Hr.
  set (q := 2 ^ 32 / m) in *. set (r := 2 ^ 32 mod m) in *.
  split.
  - intros [Hv Hmod]. exists (v / m).
    pose proof (N.div_mod v m ltac:(lia)) as Hd. rewrite Hmod in Hd.
    split; [lia|].
    destruct (N.ltb_spec i r); nia.
  - intros (k & -> & Hk). split.
    + destruct (N.ltb_spec i r); nia.
    + rewrite N.mul_comm, N.Div0.mod_add. now apply N.mod_small.
Qed.

(** X29: [generatePassword] does not pick its characters uniformly.  Each
    character is [charset[v % charset.length]] for a 32-bit random value
    [v]; for every choice of classes the length [m] of the charset does not
    divide 2^32, and the character at index [i] is picked by exactly the
    values [i + m * k] with [k] below [2^32 / m], plus one more value when
    [i] is below [2^32 mod m]: the first characters of the charset are each
    picked by one more value than the last. *)
Theorem generatePassword_is_not_uniform (options : PasswordOptions.t) :
  generatePassword options
  = bind (getRandomValues_Uint32 (PasswordOptions.length options))
      (fun randomValues =>
         ret (fold_left
                (fun result v =>
                   result
                   ++ char_at (charset_of options)
                        (v mod N.of_nat (length (charset_of options))))
                randomValues []))
  /\ 0 < 2 ^ 32 mod N.of_nat (length (charset_of options))
  /\ 2 ^ 32 mod N.of_nat (length (charset_of options))
     < N.of_nat (length (charset_of options))
  /\ NoDup (charset_of options)
  /\ forall i v,
       i < N.of_nat (length (charset_of options)) ->
       (v < 2 ^ 32 /\ v mod N.of_nat (length (charset_of options)) = i
        <-> exists k,
              v = i + N.of_nat (length (charset_of options)) * k
              /\ k < 2 ^ 32 / N.of_nat (length (charset_of options))
                     + (if i <? 2 ^ 32 mod N.of_nat (length (charset_of options))
                        then 1 else 0)).
Proof.
  split; [apply generatePassword_picks|].
  assert (Hm : 0 < N.of_nat (length (charset_of options))
               /\ 0 < 2 ^ 32 mod N.of_nat (length (charset_of options))
               /\ distinct (charset_of options) = true).
  { destruct options as [n [] [] [] []]; vm_compute; repeat split. }
  destruct Hm as (Hpos & Hrem & Hnd).
  split; [exact Hrem|]. split; [apply N.mod_lt; lia|].
  split; [now apply distinct_NoDup|].
  intros i v Hi. now apply residues_of_a_draw.
Qed.

(* ================================================================== *)
(** * Password strength, further *)
(* ================================================================== *)

Lemma existsb_grows (f : N -> bool) p q r :
  existsb f q = true -> existsb f (p ++ q ++ r) = true.
Proof.
  intros H. rewrite !existsb_app, H. now rewrite orb_true_r.
Qed.

Lemma leb_grows (a b c : Z) :
  (b <= c)%Z -> (a <=? b)%Z = true -> (a <=? c)%Z = true.
Proof. intros Hbc H. apply Z.leb_le in H. apply Z.leb_le. lia. Qed.

Lemma str_length_grows p q r : (str_length q <= str_length (p ++ q ++ r))%Z.
Proof. unfold str_length. rewrite !length_app. lia. Qed.

Lemma if_points (b : bool) (score p : Z) :
  (if b then (score + p)%Z else score) = (score + points b p)%Z.
Proof. destruct b; cbn; lia. Qed.

Lemma points_grow (b b' : bool) (p : Z) :
  (0 <= p)%Z -> (b = true -> b' = true) -> (points b p <= points b' p)%Z.
Proof. destruct b, b'; cbn; intros Hp H; lia. Qed.

(** X11: adding characters never lowers the score: for all texts [p],
    [q], [r], [estimatePasswordStrength (p ++ q ++ r)] is at least
    [estimatePasswordStrength q]. *)
Theorem strength_never_drops_when_extended (p q r : jsstring) :
  (estimatePasswordStrength q <= estimatePasswordStrength (p ++ q ++ r))%Z.
Proof.
  unfold estimatePasswordStrength. cbv zeta. rewrite !if_points.
  pose proof (str_length_grows p q r) as Hlen.
  pose proof (@leb_grows 8 _ _ Hlen) as H8.
  pose proof (@leb_grows 12 _ _ Hlen) as H12.
  pose proof (@leb_grows 16 _ _ Hlen) as H16.
  pose proof (@leb_grows 20 _ _ Hlen) as H20.
  pose proof (@existsb_grows is_lower p q r) as Hl.
  pose proof (@existsb_grows is_upper p q r) as Hu.
  pose proof (@existsb_grows is_digit p q r) as Hd.
  pose proof (@existsb_grows is_symbol p q r) as Hs.
  fold (test_lower q) (test_lower (p ++ q ++ r)) in Hl.
  fold (test_upper q) (test_upper (p ++ q ++ r)) in Hu.
  fold (test_digit q) (test_digit (p ++ q ++ r)) in Hd.
  fold (test_symbol q) (test_symbol (p ++ q ++ r)) in Hs.
  assert (Hb : (16 <=? str_length q)%Z && test_lower q && test_upper q
               && test_digit q && test_symbol q = true ->
               (16 <=? str_length (p ++ q ++ r))%Z
               && test_lower (p ++ q ++ r) && test_upper (p ++ q ++ r)
               && test_digit (p ++ q ++ r) && test_symbol (p ++ q ++ r)
               = true).
  { rewrite !andb_true_iff. intuition. }
  apply Z.min_le_compat_r.
  assert (P10 : (0 <= 10)%Z) by lia. assert (P20 : (0 <= 20)%Z) by lia.
  pose proof (points_grow P10 H8).
  pose proof (points_grow P10 H12).
  pose proof (points_grow P10 H16).
  pose proof (points_grow P10 H20).
  pose proof (points_grow P10 Hl).
  pose proof (points_grow P10 Hu).
  pose proof (points_grow P10 Hd).
  pose proof (points_grow P20 Hs).
  pose proof (points_grow P20 Hb).
  lia.
Qed.

(** X12: the score is 100 exactly for the passwords of at least 16
    characters that hold a lowercase letter, an uppercase letter, a digit
    and a symbol. *)
Theorem strength_is_100_iff (password : jsstring) :
  estimatePasswordStrength password = 100%Z
  <-> (16 <= str_length password)%Z
      /\ test_lower password = true /\ test_upper password = true
      /\ test_digit password = true /\ test_symbol password = true.
Proof.
  unfold estimatePasswordStrength.
  destruct (Z.leb_spec 8 (str_length password)),
    (Z.leb_spec 12 (str_length password)),
    (Z.leb_spec 16 (str_length password)),
    (Z.leb_spec 20 (str_length password));
    try lia;
    destruct (test_lower password), (test_upper password),
      (test_digit password), (test_symbol password);
    cbn; (split; [intros Hs; try discriminate Hs; repeat split; lia
                 |intros (Hlen & Ha & Hb & Hc & Hd);
                  first [ reflexivity | discriminate | lia ]]).
Qed.

(* ================================================================== *)
(** * The items of the session store *)
(* ================================================================== *)

Lemma jsstring_eqb_eq a : forall b, jsstring_eqb a b = true <-> a = b.
Proof.
  induction a as [|x a IH]; intros [|y b]; cbn; try easy.
  rewrite andb_true_iff, N.eqb_eq, IH. split.
  - now intros [-> ->].
  - now intros [= -> ->].
Qed.

Lemma jsstring_eqb_refl a : jsstring_eqb a a = true.
Proof. now apply jsstring_eqb_eq. Qed.

Lemma jsstring_eqb_neq a b : jsstring_eqb a b = false <-> a <> b.
Proof.
  rewrite <- jsstring_eqb_eq. destruct (jsstring_eqb a b); easy.
Qed.

Lemma set_items_same s :
  Store.set_items_categories (Store.items s) (Store.categories s) s = s.
Proof. now destruct s. Qed.

Lemma filter_all {A} (f : A -> bool) l :
  (forall x, In x l -> f x = true) -> filter f l = l.
Proof.
  induction l as [|x l IH]; intros H; cbn; [reflexivity|].
  rewrite (H x (or_introl eq_refl)), IH; [reflexivity|].
  intros y Hy. apply H. now right.
Qed.

Lemma map_same {A} (f : A -> A) l :
  (forall x, In x l -> f x = x) -> map f l = l.
Proof.
  induction l as [|x l IH]; intros H; cbn; [reflexivity|].
  rewrite (H x (or_introl eq_refl)), IH; [reflexivity|].
  intros y Hy. apply H. now right.
Qed.

Lemma removeItem_absent id s :
  (forall item, In item (Store.items s) -> Item.id item <> id) ->
  Store.removeItem id s = s.
Proof.
  intros H. unfold Store.removeItem. rewrite filter_all.
  - apply set_items_same.
  - intros x Hx. apply negb_true_iff, jsstring_eqb_neq. now apply H.
Qed.

(** X13: [removeItem id] removes every item with that id and nothing else:
    an item is in the store afterwards exactly when it was there before and
    its id differs.  Removing an id that no item has leaves the whole state
    as it was, and removing twice is removing once. *)
Theorem removeItem_removes_exactly_that_id
  (id : jsstring) (s : Store.VaultState) :
  (forall item, In item (Store.items (Store.removeItem id s))
                <-> In item (Store.items s) /\ Item.id item <> id)
  /\ ((forall item, In item (Store.items s) -> Item.id item <> id) ->
      Store.removeItem id s = s)
  /\ Store.removeItem id (Store.removeItem id s) = Store.removeItem id s.
Proof.
  split; [|split].
  - intros item. cbn. rewrite filter_In, negb_true_iff, jsstring_eqb_neq.
    reflexivity.
  - apply removeItem_absent.
  - unfold Store.removeItem, Store.set_items_categories. cbn. f_equal.
    apply filter_all. intros x Hx. now apply filter_In in Hx.
Qed.

(** X14: [updateItem id updates] keeps the number and the order of the
    items, replaces each item that has the id by its merge with [updates]
    and leaves every other item as it is; when no item has the id the whole
    state is unchanged, and when [updates] carries no id the ids stay as
    they were. *)
Theorem updateItem_touches_only_that_id
  (id : jsstring) (updates : Item.Partial) (s : Store.VaultState) :
  length (Store.items (Store.updateItem id updates s))
  = length (Store.items s)
  /\ (forall n item, nth_error (Store.items s) n = Some item ->
        nth_error (Store.items (Store.updateItem id updates s)) n
        = Some (if jsstring_eqb (Item.id item) id
                then Item.spread item updates else item))
  /\ ((forall item, In item (Store.items s) -> Item.id item <> id) ->
      Store.updateItem id updates s = s)
  /\ (Item.p_id updates = None ->
      map Item.id (Store.items (Store.updateItem id updates s))
      = map Item.id (Store.items s)).
Proof.
  split; [|split; [|split]].
  - cbn. apply length_map.
  - intros n item Hn. cbn. rewrite nth_error_map, Hn. reflexivity.
  - intros H. unfold Store.updateItem. rewrite map_same.
    + apply set_items_same.
    + intros x Hx. apply H in Hx. apply jsstring_eqb_neq in Hx.
      now rewrite Hx.
  - intros Hid. cbn. rewrite map_map. apply map_ext. intros item.
    destruct (jsstring_eqb (Item.id item) id); [|reflexivity].
    cbn. now rewrite Hid.
Qed.

(** X15: [addItem] puts the item first, and [removeItem] of its id undoes
    it: the state is then what [removeItem] gives without the addition, and
    is the state before the addition when the id was not yet in use. *)
Theorem addItem_then_removeItem (item : Item.t) (s : Store.VaultState) :
  Store.items (Store.addItem item s) = item :: Store.items s
  /\ Store.removeItem (Item.id item) (Store.addItem item s)
     = Store.removeItem (Item.id item) s
  /\ ((forall other, In other (Store.items s) ->
         Item.id other <> Item.id item) ->
      Store.removeItem (Item.id item) (Store.addItem item s) = s).
Proof.
  assert (H : Store.removeItem (Item.id item) (Store.addItem item s)
              = Store.removeItem (Item.id item) s).
  { unfold Store.removeItem, Store.addItem, Store.set_items_categories. cbn.
    now rewrite jsstring_eqb_refl. }
  split; [reflexivity|]. split; [exact H|].
  intros Hfresh. rewrite H.
  now apply removeItem_absent.
Qed.

(** X16: among the actions of the store only [setUnlocked] unlocks and
    installs a key, and only [setAuthenticated] and [logout] change the
    user: if [isUnlocked] holds after an action, it held before or the
    action is a [setUnlocked]; a key held after an action was held before
    or is the one a [setUnlocked] brought. *)
Theorem only_setUnlocked_unlocks (a : Store.Action) (s : Store.VaultState) :
  (Store.isUnlocked (Store.dispatch a s) = true ->
     Store.isUnlocked s = true
     \/ exists key salt, a = Store.SetUnlocked key salt)
  /\ (forall key, Store.encryptionKey (Store.dispatch a s) = Some key ->
        Store.encryptionKey s = Some key
        \/ exists salt, a = Store.SetUnlocked key salt)
  /\ (Store.userId (Store.dispatch a s) <> Store.userId s ->
        (exists userId email, a = Store.SetAuthenticated userId email)
        \/ a = Store.Logout).
Proof.
  destruct a; cbn; (split; [|split]); intros; eauto; try discriminate;
    try congruence.
  injection H as <-. eauto.
Qed.

Lemma dispatch_keeps_user a s :
  (Store.isAuthenticated s = true <-> Store.userId s <> None)
  /\ (Store.userId s = None <-> Store.email s = None) ->
  (Store.isAuthenticated (Store.dispatch a s) = true
   <-> Store.userId (Store.dispatch a s) <> None)
  /\ (Store.userId (Store.dispatch a s) = None
      <-> Store.email (Store.dispatch a s) = None).
Proof.
  destruct a; cbn; try exact (fun H => H); intros _; split; split;
    intros; congruence.
Qed.

(** X17: in every state the store reaches from its initial state,
    [isAuthenticated] holds exactly when a user id is held, and a user id is
    held exactly when an email is. *)
Theorem authenticated_iff_user_held (actions : list Store.Action) :
  (Store.isAuthenticated (Store.run actions Store.initial) = true
   <-> Store.userId (Store.run actions Store.initial) <> None)
  /\ (Store.userId (Store.run actions Store.initial) = None
      <-> Store.email (Store.run actions Store.initial) = None).
Proof.
  assert (H : Store.reachable (Store.run actions Store.initial))
    by apply run_reachable, Store.reach_initial.
  induction H as [|s a _ IH].
  - cbn. split; split; intros; congruence.
  - now apply dispatch_keeps_user.
Qed.

(* ================================================================== *)
(** * [handleUnlock]: the page and the decryption loop *)
(* ================================================================== *)

Section UnlockEffects.

Context {W : WebPlatform}.

Lemma decryptAll_logs key vaultItems : forall decryptedItems w,
  decryptAll key vaultItems decryptedItems w
  = (Ok (decryptedItems ++ opened key vaultItems),
     with_console (console w ++ unopened key vaultItems) w).
Proof.
  induction vaultItems as [|item rest IH]; intros acc w;
    cbn [decryptAll opened unopened].
  - unfold ret. now rewrite with_console_same, app_nil_r.
  - unfold bind at 1. unfold try_catch, bind at 1.
    rewrite decryptVaultItem_pure.
    destruct (open_payload key _ _) as [payload|e].
    + unfold ret at 1. rewrite IH. now rewrite <- app_assoc.
    + unfold console_error, modify, bind, ret. rewrite IH.
      now rewrite with_console_twice.
Qed.

Lemma opened_unopened_count key vaultItems :
  (length (opened key vaultItems) + length (unopened key vaultItems))%nat
  = length vaultItems.
Proof.
  induction vaultItems as [|item rest IH]; cbn [opened unopened];
    [reflexivity|].
  destruct (open_payload key _ _); cbn [length]; lia.
Qed.

Lemma opened_In key vaultItems item :
  In item (opened key vaultItems)
  <-> exists row payload,
        In row vaultItems
        /\ open_payload key (ItemRow.ciphertext row) (ItemRow.iv row)
           = Ok payload
        /\ item = Item.of_row row payload.
Proof.
  induction vaultItems as [|r rest IH]; cbn [opened].
  - split; [easy | now intros (row & payload & [] & _)].
  - destruct (open_payload key (ItemRow.ciphertext r) (ItemRow.iv r))
      as [p|e] eqn:E.
    + cbn [In]. rewrite IH. split.
      * intros [<- | (row & payload & Hin & Hopen & ->)].
        -- exists r, p. now repeat split; [left|..].
        -- exists row, payload. now repeat split; [right|..].
      * intros (row & payload & [<- | Hin] & Hopen & ->).
        -- left. congruence.
        -- right. now exists row, payload.
    + rewrite IH. split.
      * intros (row & payload & Hin & Hopen & ->).
        exists row, payload. now repeat split; [right|..].
      * intros (row & payload & [<- | Hin] & Hopen & ->);
          [congruence|]. now exists row, payload.
Qed.

(** X18: the decryption loop of [handleUnlock] never throws and loses no
    row silently.  It returns the rows that open under the key, in the
    order of the record store, each with the fields of its payload, and
    reports with [console.error] the id of every row that does not open, in
    order; the rows returned and the rows reported are all the rows. *)
Theorem decrypt_loop_returns_or_reports_every_row
  (key : CryptoKey) (vaultItems : list ItemRow.Row) (w : World) :
  outcome (decryptAll key vaultItems []) w = Ok (opened key vaultItems)
  /\ after (decryptAll key vaultItems []) w
     = with_console (console w ++ unopened key vaultItems) w
  /\ (length (opened key vaultItems) + length (unopened key vaultItems))%nat
     = length vaultItems
  /\ (forall item,
        In item (opened key vaultItems)
        <-> exists row payload,
              In row vaultItems
              /\ outcome (decryptVaultItem (ItemRow.ciphertext row)
                            (ItemRow.iv row) key) w = Ok payload
              /\ item = Item.of_row row payload).
Proof.
  unfold outcome, after. rewrite decryptAll_logs. cbn [fst snd app].
  split; [reflexivity|]. split; [reflexivity|].
  split; [apply opened_unopened_count|].
  intros item. rewrite opened_In.
  split; intros (row & payload & Hin & Hopen & ->); exists row, payload;
    (split; [exact Hin|]); (split; [|reflexivity]).
  - now rewrite decryptVaultItem_pure.
  - now rewrite decryptVaultItem_pure in Hopen.
Qed.

Context {D : DerivationLaws W}.

(** X19: [handleUnlock] itself never throws and always ends with
    [loading] false.  When it reports no error the password field has been
    emptied; when it reports an error the typed password is still in the
    field.  It writes neither table of the record store. *)
Theorem handleUnlock_page_effects (w : World) :
  outcome handleUnlock w = Ok tt
  /\ Page.loading (page (after handleUnlock w)) = false
  /\ (Page.error (page (after handleUnlock w)) = None ->
      Page.showPassword (page (after handleUnlock w)) = [])
  /\ (forall e, Page.error (page (after handleUnlock w)) = Some e ->
        Page.showPassword (page (after handleUnlock w))
        = Page.showPassword (page w))
  /\ profiles (after handleUnlock w) = profiles w
  /\ vault_items (after handleUnlock w) = vault_items w.
Proof.
  unfold outcome, after. rewrite handleUnlock_run. cbn [fst snd].
  pose proof (unlock_attempt_cases (Store.userId (vault w))
                (Page.showPassword (page w))
                (Page.make (Page.showPassword (page w)) true None) w) as H.
  cbv zeta in H. destruct H as (Hp & Hi & H).
  destruct (unlock_attempt _ _ _) as [[[]|e] w1]; cbn [fst snd] in *.
  - destruct H as (uid & profile & salt & rows & _ & _ & _ & _ & _ & _ & _
                   & Hpage).
    rewrite Hpage. cbn. repeat split; try assumption. discriminate.
  - destruct H as (_ & _ & Hpage). rewrite Hpage. cbn.
    repeat split; try assumption; discriminate.
Qed.

End UnlockEffects.

(* ================================================================== *)
(** * The dashboard: auto-lock and revealed passwords *)
(* ================================================================== *)

Lemma with_idleTime_same d :
  Dashboard.with_idleTime (Dashboard.idleTime d) d = d.
Proof. now destruct d. Qed.

Lemma on_events_app events more : forall d w,
  Dashboard.on_events (events ++ more) d w
  = match Dashboard.on_events events d w with
    | (Ok d', w') => Dashboard.on_events more d' w'
    | (Throw e, w') => (Throw e, w')
    end.
Proof.
  induction events as [|e events IH]; intros d w; cbn [app Dashboard.on_events].
  - reflexivity.
  - unfold bind. destruct (Dashboard.on_event e d w) as [[d'|err] w'].
    + apply IH.
    + reflexivity.
Qed.

(** Seconds that pass without reaching the limit only count. *)
Lemma idle_seconds_count n : forall d w,
  Store.isUnlocked (vault w) = true ->
  (Dashboard.idleTime d + Z.of_nat n < 300)%Z ->
  Dashboard.on_events (repeat Dashboard.Second n) d w
  = (Ok (Dashboard.with_idleTime (Dashboard.idleTime d + Z.of_nat n) d), w).
Proof.
  induction n as [|n IH]; intros d w Hu Hlt.
  - cbn [repeat Dashboard.on_events]. unfold ret.
    now rewrite Z.add_0_r, with_idleTime_same.
  - rewrite Nat2Z.inj_succ in *.
    cbn [repeat Dashboard.on_events]. unfold bind at 1.
    unfold Dashboard.on_event, bind, get_world. rewrite Hu.
    unfold Dashboard.idleTimer, Dashboard.autoLockMinutes.
    cbn [Dashboard.idleTime Dashboard.with_idleTime].
    destruct (Z.leb_spec (5 * 60) (Dashboard.idleTime d + 1)); [lia|].
    unfold ret. rewrite IH by (cbn [Dashboard.idleTime Dashboard.with_idleTime];
                               first [assumption | lia]).
    unfold Dashboard.with_idleTime. cbn [Dashboard.searchQuery
      Dashboard.showDeleteDialog Dashboard.itemToDelete
      Dashboard.revealedPasswords Dashboard.idleTime].
    f_equal. f_equal. f_equal. lia.
Qed.

(** The second that reaches the limit locks. *)
Lemma idle_second_locks d w :
  Store.isUnlocked (vault w) = true ->
  Dashboard.idleTime d = 299%Z ->
  Dashboard.on_event Dashboard.Second d w
  = (Ok (Dashboard.with_idleTime 0 (Dashboard.with_revealedPasswords [] d)),
     with_vault (Store.lockVault (vault w)) w).
Proof.
  intros Hu Hi. unfold Dashboard.on_event, bind, get_world. rewrite Hu.
  unfold Dashboard.idleTimer, Dashboard.autoLockMinutes.
  cbn [Dashboard.idleTime Dashboard.with_idleTime]. rewrite Hi.
  reflexivity.
Qed.

Lemma locked_ignores_events events : forall d w,
  Store.isUnlocked (vault w) = false ->
  Dashboard.on_events events d w = (Ok d, w).
Proof.
  induction events as [|e events IH]; intros d w Hl;
    cbn [Dashboard.on_events]; [reflexivity|].
  unfold bind at 1. unfold Dashboard.on_event, bind, get_world. rewrite Hl.
  unfold ret. now apply IH.
Qed.

(** X20: the vault locks itself after 300 seconds without activity, and
    not before, whatever [autoLockMinutes] the store holds.  After a
    mousemove, keydown, click or scroll on an unlocked vault, fewer than 300
    ticks of the interval only count; the 300th calls [handleLock]: the
    store is locked, no password stays revealed and the count is back at 0.
    From then on the timer does nothing until the vault is unlocked again. *)
Theorem auto_lock_after_300_idle_seconds
  (d : Dashboard.t) (w : World) (n : nat) :
  Store.isUnlocked (vault w) = true ->
  (n < 300)%nat ->
  Dashboard.on_events (Dashboard.Activity :: repeat Dashboard.Second n) d w
  = (Ok (Dashboard.with_idleTime (Z.of_nat n) d), w)
  /\ exists d',
       Dashboard.on_events
         (Dashboard.Activity :: repeat Dashboard.Second 300) d w
       = (Ok d', with_vault (Store.lockVault (vault w)) w)
       /\ Dashboard.revealedPasswords d' = []
       /\ Dashboard.idleTime d' = 0%Z
       /\ forall events,
            Dashboard.on_events events d'
              (with_vault (Store.lockVault (vault w)) w)
            = (Ok d', with_vault (Store.lockVault (vault w)) w).
Proof.
  intros Hu Hn.
  assert (Hact : forall rest,
            Dashboard.on_events (Dashboard.Activity :: rest) d w
            = Dashboard.on_events rest (Dashboard.resetTimer d) w).
  { intros rest. cbn [Dashboard.on_events]. unfold bind at 1.
    unfold Dashboard.on_event, bind, get_world. now rewrite Hu. }
  split.
  - rewrite Hact, idle_seconds_count by (cbn; first [assumption | lia]).
    reflexivity.
  - rewrite Hact. change 300%nat with (299 + 1)%nat.
    rewrite repeat_app, on_events_app.
    rewrite idle_seconds_count by (cbn; first [assumption | lia]).
    cbn [repeat Dashboard.on_events]. unfold bind at 1.
    rewrite idle_second_locks by (cbn; first [assumption | reflexivity]).
    unfold ret. eexists. split; [reflexivity|]. split; [reflexivity|].
    split; [reflexivity|]. intros events. now apply locked_ignores_events.
Qed.

Lemma obj_get_set {A} (o : list (jsstring * A)) k v k' :
  obj_get (obj_set o k v) k' = if jsstring_eqb k k' then Some v else obj_get o k'.
Proof.
  induction o as [|[k0 v0] o IH]; cbn.
  - reflexivity.
  - destruct (jsstring_eqb k0 k) eqn:E0; cbn.
    + apply jsstring_eqb_eq in E0. subst k0.
      now destruct (jsstring_eqb k k').
    + rewrite IH. destruct (jsstring_eqb k0 k') eqn:E1; [|reflexivity].
      apply jsstring_eqb_eq in E1. subst k0.
      apply jsstring_eqb_neq in E0.
      destruct (jsstring_eqb k k') eqn:E2; [|reflexivity].
      apply jsstring_eqb_eq in E2. congruence.
Qed.

Lemma obj_get_delete {A} (o : list (jsstring * A)) k k' :
  obj_get (obj_delete o k) k' = if jsstring_eqb k k' then None else obj_get o k'.
Proof.
  unfold obj_delete.
  induction o as [|[k0 v0] o IH]; cbn [filter fst obj_get].
  - now destruct (jsstring_eqb k k').
  - destruct (jsstring_eqb k0 k) eqn:E0; cbn [negb obj_get].
    + apply jsstring_eqb_eq in E0. subst k0. rewrite IH.
      now destruct (jsstring_eqb k k').
    + rewrite IH. destruct (jsstring_eqb k0 k') eqn:E1; [|reflexivity].
      apply jsstring_eqb_eq in E1. subst k0.
      apply jsstring_eqb_neq in E0.
      destruct (jsstring_eqb k k') eqn:E2; [|reflexivity].
      apply jsstring_eqb_eq in E2. congruence.
Qed.

(** X21: revealing and hiding act on one item.  After
    [handleRevealPassword item] the card of [item] shows its password
    (nothing when the password is the empty string, which is falsy), after
    [handleHidePassword] it shows none, and in both cases the card of every
    item with another id shows what it showed before; after [handleLock] no
    card shows a password. *)
Theorem reveal_and_hide_act_on_one_item
  (item other : Item.t) (d : Dashboard.t) (w : World) :
  Dashboard.shown (Dashboard.handleRevealPassword item d) item
  = match Item.password item with
    | [] => None
    | c :: r => Some (c :: r)
    end
  /\ Dashboard.shown (Dashboard.handleHidePassword (Item.id item) d) item
     = None
  /\ (Item.id other <> Item.id item ->
      Dashboard.shown (Dashboard.handleRevealPassword item d) other
      = Dashboard.shown d other
      /\ Dashboard.shown (Dashboard.handleHidePassword (Item.id item) d) other
         = Dashboard.shown d other)
  /\ exists d',
       Dashboard.handleLock d w
       = (Ok d', with_vault (Store.lockVault (vault w)) w)
       /\ Dashboard.shown d' item = None.
Proof.
  unfold Dashboard.shown, Dashboard.handleRevealPassword,
    Dashboard.handleHidePassword.
  cbn [Dashboard.revealedPasswords Dashboard.with_revealedPasswords].
  rewrite !obj_get_set, !obj_get_delete, !jsstring_eqb_refl.
  split; [reflexivity|]. split; [reflexivity|]. split.
  - intros Hne. assert (E : jsstring_eqb (Item.id item) (Item.id other) = false)
      by (apply jsstring_eqb_neq; congruence).
    now rewrite E.
  - eexists. split; reflexivity.
Qed.

(* ================================================================== *)
(** * Writing [vault_items] *)
(* ================================================================== *)

Lemma row_matches_spec itemId userId row :
  row_matches itemId (Some userId) row = true
  <-> ItemRow.id row = itemId /\ ItemRow.user_id row = userId.
Proof.
  unfold row_matches. now rewrite andb_true_iff, !jsstring_eqb_eq.
Qed.

Lemma filter_filter_implied {A} (f g : A -> bool) l :
  (forall x, f x = true -> g x = true) ->
  filter f (filter g l) = filter f l.
Proof.
  intros H. induction l as [|x l IH]; cbn; [reflexivity|].
  destruct (g x) eqn:Eg; cbn.
  - now rewrite IH.
  - destruct (f x) eqn:Ef; [|exact IH].
    apply H in Ef. congruence.
Qed.

Lemma deleteVaultItem_run itemId userId w :
  deleteVaultItem itemId userId w
  = if store_fault w (requests w)
    then (Throw PostgrestError, with_requests (S (requests w)) w)
    else (Ok tt,
          with_vault_items
            (filter (fun r => negb (row_matches itemId (Some userId) r))
               (vault_items w))
            (with_requests (S (requests w)) w)).
Proof.
  unfold deleteVaultItem, bind, vault_items_delete.
  now destruct (store_fault w (requests w)).
Qed.

Lemma updateVaultItem_run itemId userId updates w :
  updateVaultItem itemId userId updates w
  = if store_fault w (requests w)
    then (Throw PostgrestError, with_requests (S (requests w)) w)
    else (Ok tt,
          with_vault_items
            (map (fun r => if row_matches itemId (Some userId) r
                           then ItemUpdate.apply updates r else r)
               (vault_items w))
            (with_requests (S (requests w)) w)).
Proof.
  unfold updateVaultItem, bind, vault_items_update.
  now destruct (store_fault w (requests w)).
Qed.

(** X22: [deleteVaultItem(itemId, userId)] deletes the rows that have both
    that id and that owner, and no other: a row is in the table afterwards
    exactly when it was there and differs in id or owner, and what
    [getVaultItems] lists for any other user is unchanged.  When no row
    matches it succeeds and changes nothing.  When the record store fails it
    throws the store's error and the table is as before.  It touches neither
    the profiles nor the session. *)
Theorem deleteVaultItem_deletes_only_the_owners_row
  (itemId userId : jsstring) (w : World) :
  (store_fault w (requests w) = true ->
     outcome (deleteVaultItem itemId userId) w = Throw PostgrestError
     /\ vault_items (after (deleteVaultItem itemId userId) w) = vault_items w)
  /\ (store_fault w (requests w) = false ->
        outcome (deleteVaultItem itemId userId) w = Ok tt
        /\ (forall row,
              In row (vault_items (after (deleteVaultItem itemId userId) w))
              <-> In row (vault_items w)
                  /\ ~ (ItemRow.id row = itemId
                        /\ ItemRow.user_id row = userId))
        /\ (forall other, other <> userId ->
              filter (fun r => jsstring_eqb (ItemRow.user_id r) other)
                (vault_items (after (deleteVaultItem itemId userId) w))
              = filter (fun r => jsstring_eqb (ItemRow.user_id r) other)
                  (vault_items w))
        /\ ((forall row, In row (vault_items w) ->
               ~ (ItemRow.id row = itemId /\ ItemRow.user_id row = userId)) ->
            vault_items (after (deleteVaultItem itemId userId) w)
            = vault_items w))
  /\ profiles (after (deleteVaultItem itemId userId) w) = profiles w
  /\ vault (after (deleteVaultItem itemId userId) w) = vault w
  /\ requests (after (deleteVaultItem itemId userId) w) = S (requests w).
Proof.
  unfold outcome, after. rewrite deleteVaultItem_run.
  destruct (store_fault w (requests w)); cbn [fst snd].
  - split; [now split|]. split; [discriminate|]. now repeat split.
  - split; [discriminate|]. split; [|now repeat split]. intros _.
    cbn [vault_items with_vault_items].
    split; [reflexivity|]. split; [|split].
    + intros row. rewrite filter_In, negb_true_iff.
      rewrite <- not_true_iff_false, row_matches_spec. reflexivity.
    + intros other Hne. apply filter_filter_implied. intros r Hr.
      apply jsstring_eqb_eq in Hr. apply negb_true_iff.
      apply not_true_iff_false. rewrite row_matches_spec.
      intros [_ Hu]. congruence.
    + intros Hnone. apply filter_all. intros r Hr.
      apply negb_true_iff, not_true_iff_false. rewrite row_matches_spec.
      now apply Hnone.
Qed.

(** X23: [updateVaultItem(itemId, userId, updates)] rewrites the rows that
    have both that id and that owner with the columns [updates] carries, and
    leaves every other row, and the position and the id of every row, as
    they were.  When no row matches it succeeds and changes nothing.  When
    the record store fails it throws the store's error and the table is as
    before. *)
Theorem updateVaultItem_rewrites_only_the_owners_row
  (itemId userId : jsstring) (updates : ItemUpdate.t) (w : World) :
  (store_fault w (requests w) = true ->
     outcome (updateVaultItem itemId userId updates) w = Throw PostgrestError
     /\ vault_items (after (updateVaultItem itemId userId updates) w)
        = vault_items w)
  /\ (store_fault w (requests w) = false ->
        outcome (updateVaultItem itemId userId updates) w = Ok tt
        /\ (forall n row,
              nth_error (vault_items w) n = Some row ->
              nth_error
                (vault_items (after (updateVaultItem itemId userId updates) w))
                n
              = Some (if jsstring_eqb (ItemRow.id row) itemId
                         && jsstring_eqb (ItemRow.user_id row) userId
                      then ItemUpdate.apply updates row else row))
        /\ ((forall row, In row (vault_items w) ->
               ~ (ItemRow.id row = itemId /\ ItemRow.user_id row = userId)) ->
            vault_items (after (updateVaultItem itemId userId updates) w)
            = vault_items w))
  /\ map ItemRow.id
       (vault_items (after (updateVaultItem itemId userId updates) w))
     = map ItemRow.id (vault_items w)
  /\ profiles (after (updateVaultItem itemId userId updates) w) = profiles w
  /\ vault (after (updateVaultItem itemId userId updates) w) = vault w.
Proof.
  unfold outcome, after. rewrite updateVaultItem_run.
  destruct (store_fault w (requests w)); cbn [fst snd].
  - split; [now split|]. split; [discriminate|]. now repeat split.
  - split; [discriminate|]. cbn [vault_items with_vault_items].
    split; [intros _; split; [reflexivity|split]|split; [|now split]].
    + intros n row Hn. rewrite nth_error_map, Hn. reflexivity.
    + intros Hnone. apply map_same. intros r Hr.
      destruct (row_matches itemId (Some userId) r) eqn:E; [|reflexivity].
      apply row_matches_spec in E. now apply Hnone in E.
    + rewrite map_map. apply map_ext. intros r.
      now destruct (row_matches itemId (Some userId) r).
Qed.

(* ================================================================== *)
(** * The dashboard: favourites and deletion *)
(* ================================================================== *)

Lemma handleToggleFavorite_run itemId currentStatus w :
  Dashboard.handleToggleFavorite itemId currentStatus w
  = if store_fault w (requests w)
    then (Ok tt,
          with_console (console w ++ [js "Failed to toggle favorite:"])
            (with_requests (S (requests w)) w))
    else (Ok tt,
          with_vault
            (Store.updateItem itemId
               (Dashboard.favorite_partial (negb currentStatus)) (vault w))
            (with_vault_items
               (map (fun r => if row_matches itemId (Store.userId (vault w)) r
                              then ItemUpdate.apply
                                     (Dashboard.favorite_update
                                        (negb currentStatus)) r
                              else r)
                  (vault_items w))
               (with_requests (S (requests w)) w))).
Proof.
  unfold Dashboard.handleToggleFavorite, bind, get_world, try_catch,
    vault_items_update.
  now destruct (store_fault w (requests w)).
Qed.

(** X24: [handleToggleFavorite] never throws and shows nothing on the
    page.  When the record store fails it leaves the session store and the
    table as they were and only reports to the console.  Otherwise it sets
    [is_favorite] to the negation of [currentStatus], and nothing else, in
    every store item with that id and in every row with that id owned by the
    signed-in user, and leaves the other items and rows as they were. *)
Theorem toggle_favorite_updates_both_or_neither
  (itemId userId : jsstring) (currentStatus : bool) (w : World) :
  Store.userId (vault w) = Some userId ->
  outcome (Dashboard.handleToggleFavorite itemId currentStatus) w = Ok tt
  /\ page (after (Dashboard.handleToggleFavorite itemId currentStatus) w)
     = page w
  /\ (store_fault w (requests w) = true ->
      vault (after (Dashboard.handleToggleFavorite itemId currentStatus) w)
      = vault w
      /\ vault_items
           (after (Dashboard.handleToggleFavorite itemId currentStatus) w)
         = vault_items w
      /\ console
           (after (Dashboard.handleToggleFavorite itemId currentStatus) w)
         = console w ++ [js "Failed to toggle favorite:"])
  /\ (store_fault w (requests w) = false ->
      console (after (Dashboard.handleToggleFavorite itemId currentStatus) w)
      = console w
      /\ (forall n item,
            nth_error (Store.items (vault w)) n = Some item ->
            nth_error
              (Store.items
                 (vault (after (Dashboard.handleToggleFavorite itemId
                                  currentStatus) w))) n
            = Some (if jsstring_eqb (Item.id item) itemId
                    then Item.make (Item.id item) (Item.title item)
                           (Item.ciphertext item) (Item.iv item)
                           (Item.auth_tag item) (Item.category_id item)
                           (negb currentStatus) (Item.last_accessed item)
                           (Item.last_modified item) (Item.created_at item)
                           (Item.username item) (Item.password item)
                           (Item.url item) (Item.notes item)
                    else item))
      /\ (forall n row,
            nth_error (vault_items w) n = Some row ->
            nth_error
              (vault_items
                 (after (Dashboard.handleToggleFavorite itemId currentStatus)
                    w)) n
            = Some (if jsstring_eqb (ItemRow.id row) itemId
                       && jsstring_eqb (ItemRow.user_id row) userId
                    then ItemRow.make (ItemRow.id row) (ItemRow.user_id row)
                           (ItemRow.title row) (ItemRow.ciphertext row)
                           (ItemRow.iv row) (ItemRow.auth_tag row)
                           (ItemRow.category_id row) (negb currentStatus)
                           (ItemRow.version row) (ItemRow.last_accessed row)
                           (ItemRow.last_modified row) (ItemRow.created_at row)
                    else row))).
Proof.
  intros Hu. unfold outcome, after. rewrite handleToggleFavorite_run, Hu.
  destruct (store_fault w (requests w)); cbn [fst snd].
  - split; [reflexivity|]. split; [reflexivity|].
    split; [now repeat split | discriminate].
  - split; [reflexivity|]. split; [reflexivity|]. split; [discriminate|].
    intros _. split; [reflexivity|]. split.
    + intros n item Hn. cbn. rewrite nth_error_map, Hn. reflexivity.
    + intros n row Hn. cbn. rewrite nth_error_map, Hn. reflexivity.
Qed.

Lemma onDeleteClick_run d c r w :
  Dashboard.itemToDelete d = Some (c :: r) ->
  Dashboard.onDeleteClick d w
  = (Ok (Dashboard.with_delete false None d),
     with_vault (Store.removeItem (c :: r) (vault w))
       (if store_fault w (requests w)
        then with_requests (S (requests w)) w
        else with_vault_items
               (filter (fun row =>
                          negb (row_matches (c :: r) (Store.userId (vault w))
                                  row))
                  (vault_items w))
               (with_requests (S (requests w)) w))).
Proof.
  intros Hd. unfold Dashboard.onDeleteClick. rewrite Hd.
  unfold bind, get_world, vault_items_delete.
  now destruct (store_fault w (requests w)).
Qed.

(** X25: the Delete button removes the item from the session whatever the
    record store answers.  It never throws, closes the dialog, and leaves
    no item with that id in the session store; nothing is shown on the page
    or written to the console.  When the record store fails, the row is
    still in the table although the item is gone from the session; when it
    does not fail, the rows with that id owned by the signed-in user are
    deleted and no other.  With no item chosen the button does nothing. *)
Theorem delete_click_removes_locally_whatever_the_store_answers
  (d : Dashboard.t) (w : World) (c : N) (r userId : jsstring) :
  Dashboard.itemToDelete d = Some (c :: r) ->
  Store.userId (vault w) = Some userId ->
  outcome (Dashboard.onDeleteClick d) w
  = Ok (Dashboard.with_delete false None d)
  /\ (forall item,
        In item (Store.items (vault (after (Dashboard.onDeleteClick d) w)))
        <-> In item (Store.items (vault w)) /\ Item.id item <> c :: r)
  /\ page (after (Dashboard.onDeleteClick d) w) = page w
  /\ console (after (Dashboard.onDeleteClick d) w) = console w
  /\ (store_fault w (requests w) = true ->
      vault_items (after (Dashboard.onDeleteClick d) w) = vault_items w)
  /\ (store_fault w (requests w) = false ->
      forall row,
        In row (vault_items (after (Dashboard.onDeleteClick d) w))
        <-> In row (vault_items w)
            /\ ~ (ItemRow.id row = c :: r /\ ItemRow.user_id row = userId))
  /\ (forall d0 w0,
        Dashboard.itemToDelete d0 = None
        \/ Dashboard.itemToDelete d0 = Some [] ->
        Dashboard.onDeleteClick d0 w0 = (Ok d0, w0)).
Proof.
  intros Hd Hu. unfold outcome, after. rewrite (onDeleteClick_run _ w Hd), Hu.
  cbn [fst snd]. split; [reflexivity|]. split.
  - intros item. cbn [vault with_vault Store.removeItem
      Store.set_items_categories Store.items].
    rewrite filter_In, negb_true_iff, jsstring_eqb_neq.
    now destruct (store_fault w (requests w)).
  - destruct (store_fault w (requests w));
      cbn [page console vault_items with_vault with_vault_items
           with_requests];
      (split; [reflexivity|]); (split; [reflexivity|]);
      (split; [|split]); try discriminate; try reflexivity;
      try (intros d0 w0; unfold Dashboard.onDeleteClick;
           now intros [-> | ->]).
    intros _ row. rewrite filter_In, negb_true_iff.
    rewrite <- not_true_iff_false, row_matches_spec. reflexivity.
Qed.

(* ================================================================== *)
(** * The dashboard: search *)
(* ================================================================== *)

Lemma starts_with_spec s : forall sub,
  starts_with s sub = true <-> exists post, s = sub ++ post.
Proof.
  induction s as [|y s IH]; intros [|x sub]; cbn.
  - split; [now exists [] | reflexivity].
  - split; [discriminate | now intros (post & [=])].
  - split; [now exists (y :: s) | reflexivity].
  - rewrite andb_true_iff, N.eqb_eq, IH. split.
    + intros [-> (post & ->)]. now exists post.
    + intros (post & [= -> ->]). split; [reflexivity | now exists post].
Qed.

Lemma includes_spec s sub :
  includes s sub = true <-> exists pre post, s = pre ++ sub ++ post.
Proof.
  induction s as [|y s IH]; cbn [includes].
  - rewrite orb_false_r, starts_with_spec. split.
    + intros (post & ->). now exists [], post.
    + intros (pre & post & H). destruct pre; [now exists post|discriminate].
  - rewrite orb_true_iff, starts_with_spec, IH. split.
    + intros [(post & ->) | (pre & post & ->)].
      * now exists [], post.
      * now exists (y :: pre), post.
    + intros (pre & post & H). destruct pre as [|z pre].
      * left. now exists post.
      * right. injection H as -> ->. now exists pre, post.
Qed.

Section SearchFacts.

Context {T : TextPlatform} {C : CaseLaws T}.

(** X26: the search box filters by title or username, not by any other
    field.  With an empty query every item is listed; for any query the
    items listed are, in the order of the store, exactly those whose
    lower-cased title or lower-cased username contains the lower-cased
    query as a substring. *)
Theorem search_lists_items_whose_title_or_username_contains_the_query
  (items : list Item.t) (searchQuery : jsstring) :
  Dashboard.filteredItems items [] = items
  /\ (forall item,
        In item (Dashboard.filteredItems items searchQuery)
        <-> In item items
            /\ ((exists pre post,
                   String_toLowerCase (Item.title item)
                   = pre ++ String_toLowerCase searchQuery ++ post)
                \/ (exists pre post,
                      String_toLowerCase (Item.username item)
                      = pre ++ String_toLowerCase searchQuery ++ post)))
  /\ (forall more,
        Dashboard.filteredItems (items ++ more) searchQuery
        = Dashboard.filteredItems items searchQuery
          ++ Dashboard.filteredItems more searchQuery).
Proof.
  split; [|split].
  - unfold Dashboard.filteredItems. apply filter_all. intros item _.
    rewrite toLowerCase_empty. apply orb_true_iff. left.
    apply includes_spec. now exists [], (String_toLowerCase (Item.title item)).
  - intros item. unfold Dashboard.filteredItems.
    now rewrite filter_In, orb_true_iff, !includes_spec.
  - intros more. apply filter_app.
Qed.

End SearchFacts.

(* ================================================================== *)
(** * Registration: the credentials step *)
(* ================================================================== *)

Lemma nonempty_has_a_class password :
  (0 < str_length password)%Z ->
  test_lower password || test_upper password || test_digit password
  || test_symbol password = true.
Proof.
  destruct password as [|c r]; [cbn; lia|]. intros _.
  unfold test_lower, test_upper, test_digit, test_symbol, is_symbol.
  cbn [existsb].
  destruct (is_lower c), (is_upper c), (is_digit c),
    (existsb is_lower r), (existsb is_upper r), (existsb is_digit r),
    (existsb (fun c0 => negb (is_lower c0 || is_upper c0 || is_digit c0)) r);
    reflexivity.
Qed.

Lemma long_and_varied_spec password :
  Register.long_and_varied password = true
  <-> (12 <= str_length password)%Z
      /\ (50 <= estimatePasswordStrength password)%Z.
Proof.
  unfold Register.long_and_varied, estimatePasswordStrength. cbv zeta.
  pose proof (nonempty_has_a_class password) as Hclass.
  destruct (Z.leb_spec 8 (str_length password)),
    (Z.leb_spec 12 (str_length password)),
    (Z.leb_spec 16 (str_length password)),
    (Z.leb_spec 20 (str_length password)); try lia;
    destruct (test_lower password), (test_upper password),
      (test_digit password), (test_symbol password);
    cbn in *;
    (split; [intros Hv; try discriminate Hv; split; lia
            |intros [Hlen Hs]; first [ reflexivity | lia
                                     | discriminate Hclass; lia ]]).
Qed.

(** X27: which passwords the credentials step of registration lets
    through.  [handleContinue] moves on to the warning step exactly for a
    password that equals its confirmation and is long and varied enough: any
    20 characters; 16 with a symbol or two of the classes lowercase,
    uppercase, digit; 12 with a symbol and another class or with those three
    classes.  Such a password is never labelled "Weak".  Otherwise it stays
    on the step it was on and sets an error, "Passwords do not match" when
    the two differ, whatever else holds. *)
Theorem registration_lets_through_long_and_varied_passwords (s : Register.t) :
  (Register.password s = Register.confirmPassword s ->
   Register.long_and_varied (Register.password s) = true ->
   Register.handleContinue s = Register.with_step Register.warning s
   /\ Register.strengthLabel s <> js "Weak")
  /\ (Register.password s <> Register.confirmPassword s ->
      Register.handleContinue s
      = Register.with_error (Some (js "Passwords do not match")) s)
  /\ (Register.password s = Register.confirmPassword s ->
      Register.long_and_varied (Register.password s) = false ->
      Register.step (Register.handleContinue s) = Register.step s
      /\ (Register.error (Register.handleContinue s)
          = Some (js "Password must be at least 12 characters")
          \/ Register.error (Register.handleContinue s)
             = Some (js "Please choose a stronger password"))).
Proof.
  unfold Register.handleContinue, Register.strengthLabel,
    Register.passwordStrength.
  pose proof (long_and_varied_spec (Register.password s)) as Hv.
  split; [|split].
  - intros Heq Hok. apply Hv in Hok. destruct Hok as [Hlen Hs].
    apply jsstring_eqb_eq in Heq. rewrite Heq. cbn [negb].
    destruct (Z.ltb_spec (str_length (Register.password s)) 12); [lia|].
    destruct (Z.ltb_spec (estimatePasswordStrength (Register.password s)) 50);
      [lia|].
    split; [reflexivity|].
    destruct (Z.ltb_spec (estimatePasswordStrength (Register.password s)) 40);
      [lia|].
    destruct (Z.ltb_spec (estimatePasswordStrength (Register.password s)) 70);
      discriminate.
  - intros Hne. apply jsstring_eqb_neq in Hne. now rewrite Hne.
  - intros Heq Hbad. apply jsstring_eqb_eq in Heq. rewrite Heq. cbn [negb].
    destruct (Z.ltb_spec (str_length (Register.password s)) 12);
      [split; [reflexivity | now left]|].
    destruct (Z.ltb_spec (estimatePasswordStrength (Register.password s)) 50);
      [split; [reflexivity | now right]|].
    assert (Register.long_and_varied (Register.password s) = true)
      by (apply Hv; lia).
    congruence.
Qed.

(* ================================================================== *)
(** * Unlocking with the password the items were sealed under *)
(* ================================================================== *)

Section RightPassword.

Context {W : WebPlatform} {D : DerivationLaws W} {L : SealingLaws W}.

(** A row holds what [encryptVaultItem] returned for a payload under a
    key. *)
Lemma sealed_row_opens key row payload w0 :
  key_algorithm key = AES_GCM ->
  outcome (encryptVaultItem payload key) w0
  = Ok (Sealed.make (ItemRow.ciphertext row) (ItemRow.iv row)) ->
  open_payload key (ItemRow.ciphertext row) (ItemRow.iv row) = Ok payload.
Proof.
  intros Hk Hseal.
  destruct (@seal_then_open W L payload key w0 Hk) as (c & _ & Hrun & Hopen).
  unfold outcome in Hseal. rewrite Hrun in Hseal. cbn [fst] in Hseal.
  match type of Hseal with
  | Ok (Sealed.make ?x ?y) = _ =>
      assert (Hc : x = ItemRow.ciphertext row) by congruence;
      assert (Hiv : y = ItemRow.iv row) by congruence
  end.
  specialize (Hopen w0). rewrite decryptVaultItem_pure in Hopen.
  rewrite Hc, Hiv in Hopen. now injection Hopen.
Qed.

Lemma opened_all key rows :
  key_algorithm key = AES_GCM ->
  (forall row, In row rows ->
     exists payload w0,
       outcome (encryptVaultItem payload key) w0
       = Ok (Sealed.make (ItemRow.ciphertext row) (ItemRow.iv row))) ->
  Forall2
    (fun row item =>
       exists payload w0,
         outcome (encryptVaultItem payload key) w0
         = Ok (Sealed.make (ItemRow.ciphertext row) (ItemRow.iv row))
         /\ item = Item.of_row row payload)
    rows (opened key rows).
Proof.
  intros Hk. induction rows as [|row rows IH]; intros Hall; cbn [opened].
  - constructor.
  - destruct (Hall row (or_introl eq_refl)) as (payload & w0 & Hseal).
    rewrite (@sealed_row_opens key row payload w0 Hk Hseal). constructor.
    + now exists payload, w0.
    + apply IH. intros r Hr. apply Hall. now right.
Qed.

(** X28: unlocking with the password the items were sealed under shows
    every item.  For a signed-in account that is not locked out, whose
    stored salt decodes and whose rows the record store returns, if every
    row holds what [encryptVaultItem] returned under the key of the typed
    password and the stored salt, then [handleUnlock] reports no error,
    unlocks, and puts in the session store one item per row, in the order of
    the rows, each with the payload that was sealed. *)
Theorem right_password_shows_every_item
  (w : World) (uid : jsstring) (profile : Profile.Row) (salt : bytes)
  (rows : list ItemRow.Row) :
  signed_in_as w uid profile ->
  ~ lockout_active w profile ->
  base64ToBuffer (Profile.kdf_salt profile) = Ok salt ->
  outcome (getVaultItems uid) (after (getProfile uid) w) = Ok rows ->
  (forall row, In row rows ->
     exists payload w0,
       outcome (encryptVaultItem payload
                  (derived_key (Page.showPassword (page w)) salt)) w0
       = Ok (Sealed.make (ItemRow.ciphertext row) (ItemRow.iv row))) ->
  Page.error (page (after handleUnlock w)) = None
  /\ Store.isUnlocked (vault (after handleUnlock w)) = true
  /\ Forall2
       (fun row item =>
          exists payload w0,
            outcome (encryptVaultItem payload
                       (derived_key (Page.showPassword (page w)) salt)) w0
            = Ok (Sealed.make (ItemRow.ciphertext row) (ItemRow.iv row))
            /\ item = Item.of_row row payload)
       rows (Store.items (vault (after handleUnlock w))).
Proof.
  intros Hin Hfree Hs Hrows Hall.
  change (after handleUnlock w) with (snd (handleUnlock w)).
  rewrite handleUnlock_run. cbn [snd].
  pose proof (unlock_attempt_cases (Store.userId (vault w))
                (Page.showPassword (page w))
                (Page.make (Page.showPassword (page w)) true None) w) as H.
  cbv zeta in H. destruct H as (_ & _ & H).
  destruct (unlock_attempt _ _ _) as [[[]|e] w1]; cbn [fst snd] in *.
  - destruct H as (uid' & profile' & salt' & rows' & Hu' & _ & Hp' & _ & Hs'
                   & Hrows' & Hv & Hpage).
    destruct Hin as (Hu & _ & Hp).
    assert (uid' = uid) as -> by congruence.
    assert (profile' = profile) as -> by congruence.
    assert (salt' = salt) as -> by congruence.
    assert (rows' = rows) as -> by congruence.
    cbn. rewrite Hpage, Hv. cbn. split; [reflexivity|]. split; [reflexivity|].
    now apply opened_all.
  - destruct H as (Href & _ & _).
    destruct (refusal_unique Hin Href)
      as [(t & Ht & Hlt & _) | [(_ & Hbad) | (_ & Hbad)]].
    + exfalso. apply Hfree. now exists t.
    + congruence.
    + congruence.
Qed.

End RightPassword.

(* ================================================================== *)
(** * The model platforms obey the further laws *)
(* ================================================================== *)

Lemma model_digest_length data : length (ModelPlatform.digest data) = 32%nat.
Proof. unfold ModelPlatform.digest. now rewrite length_map, length_seq. Qed.

#[global] Instance model_digest_laws : DigestLaws ModelPlatform.platform.
Proof. constructor. exact model_digest_length. Qed.

#[global] Instance model_case_laws : CaseLaws ModelText.platform.
Proof. constructor. reflexivity. Qed.

(* ================================================================== *)
(** * The further properties, on the registered account *)
(* ================================================================== *)

Lemma fresh_salt_always_derives_witness :
  exists salt keys,
    outcome generateSalt Scenario.start = Ok salt
    /\ outcome (deriveKeys Scenario.master_password salt)
         (after generateSalt Scenario.start) = Ok keys
    /\ outcome (deriveKeys Scenario.master_password salt) Scenario.unlucky
       = Ok keys.
Proof.
  destruct (@fresh_salt_always_derives ModelPlatform.platform
              ModelPlatformFacts.derivation_laws Scenario.master_password
              Scenario.start Scenario.unlucky)
    as (salt & keys & H1 & _ & H2 & _ & H3).
  exists salt, keys. split; [exact H1|]. split; [exact H2 | exact H3].
Defined.

Example registration_runs :
  outcome (deriveKeys Scenario.master_password Scenario.salt) Scenario.start
  = Ok Scenario.registration.
Proof. vm_compute. reflexivity. Qed.

Lemma verifier_is_44_characters_witness :
  outcome (deriveKeys Scenario.master_password Scenario.salt) Scenario.start
  = Ok Scenario.registration
  /\ length (DerivedKeys.verificationKey Scenario.registration) = 44%nat
  /\ slice (DerivedKeys.verificationKey Scenario.registration) 0 60
     = DerivedKeys.verificationKey Scenario.registration.
Proof.
  split; [exact registration_runs|].
  destruct (@verifier_is_44_characters ModelPlatform.platform
              ModelPlatformFacts.derivation_laws model_digest_laws
              Scenario.master_password Scenario.salt Scenario.start
              Scenario.registration registration_runs)
    as (H1 & _ & H2 & _).
  split; [exact H1 | exact H2].
Defined.

Lemma sealed_under_password_opens_after_rederiving_witness :
  base64ToBuffer Scenario.salt
  = Ok (map byte_of_N [0; 1; 2; 3; 4; 5; 6; 7; 8; 9; 10; 11; 12; 13; 14; 15])
  /\ exists keys keys' sealed,
       outcome (deriveKeys Scenario.master_password Scenario.salt)
         Scenario.start = Ok keys
       /\ outcome (encryptVaultItem Scenario.example_payload
                     (DerivedKeys.encryptionKey keys)) Scenario.start
          = Ok sealed
       /\ outcome (deriveKeys Scenario.master_password Scenario.salt)
            Scenario.unlucky = Ok keys'
       /\ outcome (decryptVaultItem (Sealed.ciphertext sealed)
                     (Sealed.iv sealed) (DerivedKeys.encryptionKey keys'))
            Scenario.unlucky
          = Ok Scenario.example_payload.
Proof.
  split; [exact base64_salt|].
  exact (@sealed_under_password_opens_after_rederiving
           ModelPlatform.platform ModelPlatformFacts.derivation_laws
           ModelPlatformFacts.sealing_laws Scenario.master_password
           Scenario.salt _ Scenario.example_payload Scenario.start
           Scenario.start Scenario.unlucky Scenario.unlucky base64_salt).
Defined.

Example a_nonce_is_12_bytes c r :
  Some Scenario.a_nonce = Some (c :: r) ->
  exists iv, base64ToBuffer (c :: r) = Ok iv /\ length iv = 12%nat.
Proof.
  intros [= <- <-]. eexists. split; reflexivity.
Qed.

Lemma encrypt_decrypt_round_trip_witness :
  key_algorithm Scenario.key_one = AES_GCM
  /\ utf8_faithful (js "secret") = true
  /\ exists sealed,
       outcome (encrypt (js "secret") Scenario.key_one
                  (Some Scenario.a_nonce)) Scenario.start = Ok sealed
       /\ outcome (decrypt (Sealed.ciphertext sealed) (Sealed.iv sealed)
                     Scenario.key_one) Scenario.unlucky
          = Ok (js "secret").
Proof.
  split; [reflexivity|]. split; [reflexivity|].
  exact (@encrypt_decrypt_round_trip ModelPlatform.platform
           ModelPlatformFacts.sealing_laws (js "secret") Scenario.key_one
           (Some Scenario.a_nonce) Scenario.start Scenario.unlucky
           eq_refl eq_refl a_nonce_is_12_bytes).
Defined.

Lemma generatePassword_length_and_classes_witness :
  N.of_nat 12 <= 16384
  /\ exists password,
       outcome (generatePassword (PasswordOptions.make 12 false true true false))
         Scenario.unlucky = Ok password
       /\ length password = 12%nat
       /\ forallb (enabled (PasswordOptions.make 12 false true true false))
            password = true.
Proof.
  assert (H : N.of_nat 12 <= 16384) by (cbn; lia).
  split; [exact H|].
  destruct (@generatePassword_length_and_classes
              (PasswordOptions.make 12 false true true false)
              Scenario.unlucky H)
    as (password & H1 & H2 & H3 & _).
  exists password. split; [exact H1|]. split; [exact H2 | exact H3].
Defined.

Lemma generatePassword_quota_witness :
  16384 < N.of_nat (N.to_nat 16385)
  /\ N.of_nat (N.to_nat 16385) <= Uint32Array_max_length
  /\ generatePassword (allClasses (N.to_nat 16385)) Scenario.start
     = (Throw QuotaExceededError, Scenario.start).
Proof.
  assert (H : 16384 < N.of_nat (N.to_nat 16385)) by (rewrite N2Nat.id; lia).
  assert (H' : N.of_nat (N.to_nat 16385) <= Uint32Array_max_length)
    by (rewrite N2Nat.id; unfold Uint32Array_max_length; lia).
  split; [exact H|]. split; [exact H'|].
  exact (@generatePassword_quota (allClasses (N.to_nat 16385)) Scenario.start
           H H').
Defined.

Lemma handleUnlock_page_effects_witness :
  outcome handleUnlock (Scenario.unlock_screen Scenario.master_password 0 None)
  = Ok tt
  /\ Page.loading
       (page (after handleUnlock
                (Scenario.unlock_screen Scenario.master_password 0 None)))
     = false
  /\ Page.showPassword
       (page (after handleUnlock
                (Scenario.unlock_screen Scenario.master_password 0 None)))
     = [].
Proof.
  destruct (@handleUnlock_page_effects ModelPlatform.platform
              ModelPlatformFacts.derivation_laws
              (Scenario.unlock_screen Scenario.master_password 0 None))
    as (H1 & H2 & H3 & _).
  split; [exact H1|]. split; [exact H2|].
  apply H3. vm_compute. reflexivity.
Defined.

Example session_is_unlocked : Store.isUnlocked (vault Session.unlocked) = true.
Proof. vm_compute. reflexivity. Qed.

Lemma auto_lock_after_300_idle_seconds_witness :
  Store.isUnlocked (vault Session.unlocked) = true
  /\ (299 < 300)%nat
  /\ Dashboard.on_events
       (Dashboard.Activity :: repeat Dashboard.Second 299) Session.dashboard
       Session.unlocked
     = (Ok (Dashboard.with_idleTime 299 Session.dashboard), Session.unlocked)
  /\ exists d',
       Dashboard.on_events
         (Dashboard.Activity :: repeat Dashboard.Second 300) Session.dashboard
         Session.unlocked
       = (Ok d',
          with_vault (Store.lockVault (vault Session.unlocked))
            Session.unlocked)
       /\ Dashboard.revealedPasswords d' = [].
Proof.
  assert (Hn : (299 < 300)%nat) by lia.
  split; [exact session_is_unlocked|]. split; [exact Hn|].
  destruct (@auto_lock_after_300_idle_seconds Session.dashboard
              Session.unlocked 299 session_is_unlocked Hn)
    as (H1 & d' & H2 & H3 & _).
  split; [exact H1|]. exists d'. split; [exact H2 | exact H3].
Defined.

Lemma search_lists_items_whose_title_or_username_contains_the_query_witness :
  Dashboard.filteredItems (Store.items (vault Session.unlocked)) []
  = Store.items (vault Session.unlocked)
  /\ Dashboard.filteredItems (Store.items (vault Session.unlocked))
       (js "EXA" ++ [])
     = Dashboard.filteredItems (Store.items (vault Session.unlocked))
         (js "EXA")
       ++ Dashboard.filteredItems [] (js "EXA").
Proof.
  destruct (@search_lists_items_whose_title_or_username_contains_the_query
              ModelText.platform model_case_laws
              (Store.items (vault Session.unlocked)) (js "EXA"))
    as (H1 & _ & H3).
  split; [exact H1|].
  specialize (H3 []). rewrite app_nil_r in H3. exact H3.
Defined.

Example search_runs :
  map Item.title
    (Dashboard.filteredItems (Store.items (vault Session.unlocked)) (js "EXA"))
  = [js "Example"]
  /\ Dashboard.filteredItems (Store.items (vault Session.unlocked)) (js "bank")
     = [].
Proof. vm_compute. split; reflexivity. Qed.

Example example_row_is_sealed row :
  In row [Scenario.example_row] ->
  exists payload w0,
    outcome (encryptVaultItem payload
               (derived_key
                  (Page.showPassword
                     (page (Scenario.unlock_screen Scenario.master_password 0
                              None)))
                  (map byte_of_N
                     [0; 1; 2; 3; 4; 5; 6; 7; 8; 9; 10; 11; 12; 13; 14; 15])))
      w0
    = Ok (Sealed.make (ItemRow.ciphertext row) (ItemRow.iv row)).
Proof.
  intros [<- | []]. exists Scenario.example_payload, Scenario.start.
  vm_compute. reflexivity.
Qed.

Example scenario_not_locked_out typed :
  ~ lockout_active (Scenario.unlock_screen typed 0 None)
      (Scenario.profile 0 None).
Proof. intros (t & Ht & _). discriminate Ht. Qed.

Lemma right_password_shows_every_item_witness :
  signed_in_as (Scenario.unlock_screen Scenario.master_password 0 None)
    Scenario.user (Scenario.profile 0 None)
  /\ Page.error
       (page (after handleUnlock
                (Scenario.unlock_screen Scenario.master_password 0 None)))
     = None
  /\ Store.isUnlocked
       (vault (after handleUnlock
                 (Scenario.unlock_screen Scenario.master_password 0 None)))
     = true
  /\ length
       (Store.items
          (vault (after handleUnlock
                    (Scenario.unlock_screen Scenario.master_password 0 None))))
     = 1%nat.
Proof.
  split; [apply scenario_signed_in|].
  destruct (@right_password_shows_every_item ModelPlatform.platform
              ModelPlatformFacts.derivation_laws
              ModelPlatformFacts.sealing_laws
              (Scenario.unlock_screen Scenario.master_password 0 None)
              Scenario.user (Scenario.profile 0 None) _
              [Scenario.example_row]
              (scenario_signed_in _ _ _)
              (@scenario_not_locked_out Scenario.master_password)
              base64_salt (scenario_rows _ _ _) example_row_is_sealed)
    as (H1 & H2 & H3).
  split; [exact H1|]. split; [exact H2|].
  apply Forall2_length in H3. symmetry. exact H3.
Defined.

Example session_user : Store.userId (vault Session.unlocked) = Some Scenario.user.
Proof. vm_compute. reflexivity. Qed.

Lemma toggle_favorite_updates_both_or_neither_witness :
  Store.userId (vault Session.unlocked) = Some Scenario.user
  /\ outcome (Dashboard.handleToggleFavorite (js "item-1") false)
       Session.unlocked = Ok tt
  /\ console (after (Dashboard.handleToggleFavorite (js "item-1") false)
                Session.unlocked)
     = console Session.unlocked.
Proof.
  split; [exact session_user|].
  destruct (@toggle_favorite_updates_both_or_neither (js "item-1")
              Scenario.user false Session.unlocked session_user)
    as (H1 & _ & _ & H4).
  split; [exact H1|]. exact (proj1 (H4 eq_refl)).
Defined.

Example toggle_favorite_runs :
  map Item.is_favorite (Store.items (vault Session.unlocked)) = [false]
  /\ map Item.is_favorite
       (Store.items
          (vault (after (Dashboard.handleToggleFavorite (js "item-1") false)
                    Session.unlocked))) = [true]
  /\ map ItemRow.is_favorite
       (vault_items (after (Dashboard.handleToggleFavorite (js "item-1") false)
                       Session.unlocked)) = [true]
  /\ map Item.is_favorite
       (Store.items
          (vault (after (Dashboard.handleToggleFavorite (js "item-1") false)
                    Session.offline))) = [false].
Proof. vm_compute. repeat split. Qed.

Example offline_session_user :
  Store.userId (vault Session.offline) = Some Scenario.user.
Proof. vm_compute. reflexivity. Qed.

Lemma delete_click_removes_locally_whatever_the_store_answers_witness :
  Dashboard.itemToDelete Session.deleting = Some (js "item-1")
  /\ Store.userId (vault Session.offline) = Some Scenario.user
  /\ outcome (Dashboard.onDeleteClick Session.deleting) Session.offline
     = Ok (Dashboard.with_delete false None Session.deleting)
  /\ vault_items (after (Dashboard.onDeleteClick Session.deleting)
                    Session.offline)
     = vault_items Session.offline.
Proof.
  split; [reflexivity|]. split; [exact offline_session_user|].
  destruct (@delete_click_removes_locally_whatever_the_store_answers
              Session.deleting Session.offline _ _ Scenario.user eq_refl
              offline_session_user)
    as (H1 & _ & _ & _ & H5 & _).
  split; [exact H1|]. exact (H5 eq_refl).
Defined.

Example delete_click_runs :
  map Item.id (Store.items (vault Session.offline)) = [js "item-1"]
  /\ Store.items
       (vault (after (Dashboard.onDeleteClick Session.deleting)
                 Session.offline)) = []
  /\ map ItemRow.id
       (vault_items (after (Dashboard.onDeleteClick Session.deleting)
                       Session.offline)) = [js "item-1"]
  /\ vault_items (after (Dashboard.onDeleteClick Session.deleting)
                    Session.unlocked) = [].
Proof. vm_compute. repeat split. Qed.
